(** * FigureAgent layout engine: [layout_figure.py] and [types.py]

    A shallow embedding of [compute_layout] and [_assign_layers] together
    with the dataclasses they read and build.

    Modelling choices, all visible in the definitions below:
    - a Python [dict] is an association list kept in insertion order, which
      is the iteration order of [dict.items()];
    - a Python [int] is a [Z];
    - a Python [float] is read in two ways.  The definitions of this part
      take it as an exact rational ([Q]): every constant of the module is
      integral and the only operations are [+], [-], [*], [/ 2] and [max];
      rounding is outside this reading, and equality of coordinates is
      [Qeq].  [Binary64] further down repeats the placement with binary64
      floats, one rounding for each operation of the source, and is the
      reading to use where a coordinate matters to the bit; the two agree
      on everything but the coordinates ([compute_layout_agree]);
    - [Machine], last of the definitions, runs the same code in a store of
      objects, for what the engine does to the objects it is given;
    - a Python [str] is a [string] of bytes (UTF-8), whose bytewise
      lexicographic order is the code point order Python's [<] uses;
    - the [while queue:] loop of [_assign_layers] takes a fuel argument that
      counts its iterations; [OutOfFuel] means the loop had not drained
      the queue after that many iterations;
    - exceptions are values of [exn] carried by the [outcome] monad. *)

From Stdlib Require Import String Ascii.
From Stdlib Require Import List Bool Arith ZArith QArith Lia Lqa.
From Stdlib Require Import Permutation Sorted Relations RelationClasses.
From Stdlib Require Import OrdersEx ListDec.
Import ListNotations.
Close Scope Q_scope.

Set Implicit Arguments.

(** ** Exceptions and the outcome monad *)

Inductive exn : Type :=
| IndexError
| KeyError (key : string).

Inductive outcome (A : Type) : Type :=
| Return (a : A)
| Raise (e : exn)
| OutOfFuel.

Arguments Return {A} a.
Arguments Raise {A} e.
Arguments OutOfFuel {A}.

Definition bind {A B : Type} (c : outcome A) (k : A -> outcome B) : outcome B :=
  match c with
  | Return a => k a
  | Raise e => Raise e
  | OutOfFuel => OutOfFuel
  end.

Notation "x <- c ;; k" := (bind c (fun x => k))
  (at level 61, c at next level, right associativity).
Notation "' p <- c ;; k" := (bind c (fun x => let 'p := x in k))
  (at level 61, p pattern, c at next level, right associativity).

(** ** Python dictionaries, in insertion order *)

Class Hashable (K : Type) : Type := {
  key_eqb : K -> K -> bool;
  key_eqb_eq : forall a b, key_eqb a b = true <-> a = b
}.

#[export] Instance string_Hashable : Hashable string :=
  {| key_eqb := String.eqb; key_eqb_eq := String.eqb_eq |}.

#[export] Instance Z_Hashable : Hashable Z :=
  {| key_eqb := Z.eqb; key_eqb_eq := Z.eqb_eq |}.

Section Dict.
Context {K V : Type} `{Hashable K}.

Definition dict : Type := list (K * V).

(** [d.get(k)] *)
Fixpoint dict_get (d : dict) (k : K) : option V :=
  match d with
  | [] => None
  | (k', v) :: rest => if key_eqb k k' then Some v else dict_get rest k
  end.

(** [k in d] *)
Definition dict_mem (d : dict) (k : K) : bool :=
  match dict_get d k with Some _ => true | None => false end.

(** [d.get(k, default)] *)
Definition dict_get_default (d : dict) (k : K) (default : V) : V :=
  match dict_get d k with Some v => v | None => default end.

(** [d[k] = v]: an existing key keeps its place, a new key goes last. *)
Fixpoint dict_set (d : dict) (k : K) (v : V) : dict :=
  match d with
  | [] => [(k, v)]
  | (k', v') :: rest =>
      if key_eqb k k' then (k', v) :: rest else (k', v') :: dict_set rest k v
  end.

(** [d.setdefault(k, v)], for its effect on [d]. *)
Definition dict_setdefault (d : dict) (k : K) (v : V) : dict :=
  if dict_mem d k then d else dict_set d k v.

(** [list(d)], the keys in iteration order. *)
Definition dict_keys (d : dict) : list K := map fst d.

Definition dict_values (d : dict) : list V := map snd d.
End Dict.

Arguments dict K V : clear implicits.

(** [d[k].append(x)] on a [defaultdict(list)]. *)
Definition dict_append {K A : Type} `{Hashable K}
    (d : dict K (list A)) (k : K) (x : A) : dict K (list A) :=
  dict_set d k (dict_get_default d k [] ++ [x]).

(** ** Sorting

    [list.sort()] and [sorted()] use only [<] and are stable; the result of
    a stable sort is determined by its input, so an insertion sort that
    keeps equal elements in their order stands for it. *)

Section Sort.
Context {A : Type} (ltb : A -> A -> bool).

Fixpoint insert_sorted (x : A) (l : list A) : list A :=
  match l with
  | [] => [x]
  | y :: rest => if ltb x y then x :: y :: rest else y :: insert_sorted x rest
  end.

Definition py_sorted (l : list A) : list A :=
  fold_left (fun acc x => insert_sorted x acc) l [].
End Sort.

(** Python's [<] on [str]. *)
Definition str_ltb (a b : string) : bool :=
  match String_as_OT.compare a b with Lt => true | _ => false end.

(** ** [types.py] *)

Record FigureNode : Type := {
  identifier : string;
  label : string;
  node_type : string;
  metadata : dict string string
}.

Record FigureEdge : Type := {
  source : string;
  target : string;
  edge_label : option string
}.

Record FigurePlan : Type := {
  nodes : list FigureNode;
  edges : list FigureEdge;
  title : option string;
  description : option string
}.

(** [FigurePlan.node_map]: a dict comprehension, a later node with the same
    identifier replaces the earlier one's value. *)
Definition node_map (plan : FigurePlan) : dict string FigureNode :=
  fold_left (fun m node => dict_set m (identifier node) node) (nodes plan) [].

(** [PositionedNode(FigureNode)] adds [x] and [y]. *)
Record PositionedNode : Type := {
  p_identifier : string;
  p_label : string;
  p_node_type : string;
  p_metadata : dict string string;
  x : Q;
  y : Q
}.

Record LayoutResult : Type := {
  width : Q;
  height : Q;
  r_nodes : list PositionedNode;
  r_edges : list FigureEdge
}.

(** ** [layout_figure.py] *)

Definition DEFAULT_CANVAS_SIZE : Q * Q := (800, 600)%Q.
Definition NODE_SPACING : Q * Q := (200, 140)%Q.
Definition MARGIN : Q := 60%Q.

(** [max(a, b)] on floats: [b] when [b > a], else [a]. *)
Definition py_max (a b : Q) : Q := if Qle_bool b a then a else b.

(** The [int] index of an [enumerate], as the float it is multiplied into. *)
Definition float_of_nat (n : nat) : Q := inject_Z (Z.of_nat n).

(** Lines 56-60: the two adjacency [defaultdict]s. *)
Definition build_adjacency (es : list FigureEdge)
    : dict string (list string) * dict string (list string) :=
  fold_left
    (fun '(incoming, outgoing) edge =>
       (dict_append incoming (target edge) (source edge),
        dict_append outgoing (source edge) (target edge)))
    es ([], []).

(** Lines 62-67: seed every node that has no recorded incoming edge. *)
Definition seed_sources (incoming : dict string (list string))
    (ns : list FigureNode) : dict string Z * list string :=
  fold_left
    (fun '(levels, queue) node =>
       if dict_mem incoming (identifier node) then (levels, queue)
       else (dict_set levels (identifier node) 0%Z, queue ++ [identifier node]))
    ns ([], []).

(** Lines 69-72: with an empty queue, start from [plan.nodes[0]]. *)
Definition fallback_seed (ns : list FigureNode)
    (st : dict string Z * list string) : outcome (dict string Z * list string) :=
  let '(levels, queue) := st in
  match queue with
  | _ :: _ => Return (levels, queue)
  | [] =>
      match ns with
      | [] => Raise IndexError
      | first :: _ =>
          Return (dict_set levels (identifier first) 0%Z, queue ++ [identifier first])
      end
  end.

(** Lines 78-81: the body of [for neighbor in outgoing.get(current, [])]. *)
Definition relax (current_level : Z) (st : dict string Z * list string)
    (neighbor : string) : dict string Z * list string :=
  let '(levels, queue) := st in
  let proposed := (current_level + 1)%Z in
  match dict_get levels neighbor with
  | None => (dict_set levels neighbor proposed, queue ++ [neighbor])
  | Some l =>
      if (proposed >? l)%Z
      then (dict_set levels neighbor proposed, queue ++ [neighbor])
      else (levels, queue)
  end.

(** Lines 75-81: one iteration of [while queue:], after [popleft]. *)
Definition visit (outgoing : dict string (list string))
    (levels : dict string Z) (current : string) (queue : list string)
    : outcome (dict string Z * list string) :=
  match dict_get levels current with
  | None => Raise (KeyError current)
  | Some current_level =>
      Return (fold_left (relax current_level)
                (dict_get_default outgoing current []) (levels, queue))
  end.

(** Lines 74-81: the [while queue:] loop. *)
Fixpoint relax_loop (fuel : nat) (outgoing : dict string (list string))
    (levels : dict string Z) (queue : list string) : outcome (dict string Z) :=
  match queue with
  | [] => Return levels
  | current :: rest =>
      match fuel with
      | O => OutOfFuel
      | S fuel' =>
          '(levels', queue') <- visit outgoing levels current rest ;;
          relax_loop fuel' outgoing levels' queue'
      end
  end.

(** Lines 84-85: nodes the loop never reached get level zero. *)
Definition default_levels (ns : list FigureNode) (levels : dict string Z)
    : dict string Z :=
  fold_left (fun lv node => dict_setdefault lv (identifier node) 0%Z) ns levels.

(** Lines 55-87. *)
Definition _assign_layers (fuel : nat) (plan : FigurePlan)
    : outcome (dict string Z) :=
  let '(incoming, outgoing) := build_adjacency (edges plan) in
  '(levels, queue) <- fallback_seed (nodes plan)
                        (seed_sources incoming (nodes plan)) ;;
  levels' <- relax_loop fuel outgoing levels queue ;;
  Return (default_levels (nodes plan) levels').

(** Lines 25-27: the identifiers of each level, in the order of
    [levels.items()]. *)
Definition group_columns (levels : dict string Z) : dict Z (list string) :=
  fold_left (fun columns '(node_id, level) => dict_append columns level node_id)
    levels [].

(** Lines 38-50: the rows of one column; [acc] is the list [nodes] built so
    far, and [dict(node.metadata)] is a copy equal to the original. *)
Fixpoint place_rows (node_lookup : dict string FigureNode) (x0 y_offset : Q)
    (row_index : nat) (column : list string) (acc : list PositionedNode)
    : outcome (list PositionedNode) :=
  match column with
  | [] => Return acc
  | node_id :: rest =>
      let y0 := (y_offset + float_of_nat row_index * snd NODE_SPACING)%Q in
      match dict_get node_lookup node_id with
      | None => Raise (KeyError node_id)
      | Some node =>
          place_rows node_lookup x0 y_offset (S row_index) rest
            (acc ++ [{| p_identifier := identifier node;
                        p_label := label node;
                        p_node_type := node_type node;
                        p_metadata := metadata node;
                        x := x0;
                        y := y0 |}])
      end
  end.

(** Lines 33-37: the geometry of one column. *)
Definition column_x (level_index : nat) : Q :=
  (MARGIN + float_of_nat level_index * fst NODE_SPACING)%Q.

Definition column_y_offset (h : Q) (size : nat) : Q :=
  let col_height :=
    (snd NODE_SPACING * inject_Z (Z.max 1 (Z.of_nat size - 1)))%Q in
  py_max MARGIN ((h - col_height) / 2)%Q.

(** Lines 32-50: the loop over [enumerate(sorted_levels)]. *)
Fixpoint place_columns (node_lookup : dict string FigureNode)
    (columns : dict Z (list string)) (h : Q) (level_index : nat)
    (sorted_levels : list Z) (acc : list PositionedNode)
    : outcome (list PositionedNode) :=
  match sorted_levels with
  | [] => Return acc
  | level :: rest =>
      let column := py_sorted str_ltb (dict_get_default columns level []) in
      acc' <- place_rows node_lookup (column_x level_index)
                (column_y_offset h (length column)) 0 column acc ;;
      place_columns node_lookup columns h (S level_index) rest acc'
  end.

(** Lines 20-52; [canvas_size] is [None] or a pair. *)
Definition compute_layout (fuel : nat) (plan : FigurePlan)
    (canvas_size : option (Q * Q)) : outcome LayoutResult :=
  let '(w, h) :=
    match canvas_size with Some c => c | None => DEFAULT_CANVAS_SIZE end in
  levels <- _assign_layers fuel plan ;;
  let columns := group_columns levels in
  let sorted_levels := py_sorted Z.ltb (dict_keys columns) in
  ns <- place_columns (node_map plan) columns h 0 sorted_levels [] ;;
  Return {| width := w; height := h; r_nodes := ns; r_edges := edges plan |}.

(** ** Sample plans *)

Open Scope string_scope.

Definition mk_node (i : string) : FigureNode :=
  {| identifier := i; label := i; node_type := "process"; metadata := [] |}.

Definition mk_edge (s t : string) : FigureEdge :=
  {| source := s; target := t; edge_label := None |}.

Definition mk_plan (ns : list FigureNode) (es : list FigureEdge) : FigurePlan :=
  {| nodes := ns; edges := es; title := None; description := None |}.

Definition empty_plan : FigurePlan := mk_plan [] [].
Definition chain_plan : FigurePlan :=
  mk_plan [mk_node "a"; mk_node "b"; mk_node "c"]
          [mk_edge "a" "b"; mk_edge "b" "c"].
Definition fan_plan : FigurePlan :=
  mk_plan [mk_node "c"; mk_node "b"; mk_node "a"]
          [mk_edge "a" "b"; mk_edge "a" "c"].
Definition two_cycle_plan : FigurePlan :=
  mk_plan [mk_node "a"; mk_node "b"] [mk_edge "a" "b"; mk_edge "b" "a"].
Definition self_loop_plan : FigurePlan :=
  mk_plan [mk_node "a"] [mk_edge "a" "a"].
Definition dangling_source_plan : FigurePlan :=
  mk_plan [mk_node "a"] [mk_edge "z" "a"].
Definition dangling_target_plan : FigurePlan :=
  mk_plan [mk_node "a"] [mk_edge "a" "z"].

(** The layout of [fan_plan] on the default canvas. *)
Definition fan_result : LayoutResult :=
  {| width := 800; height := 600;
     r_nodes :=
       [{| p_identifier := "a"; p_label := "a"; p_node_type := "process";
           p_metadata := []; x := 60; y := 460 # 2 |};
        {| p_identifier := "b"; p_label := "b"; p_node_type := "process";
           p_metadata := []; x := 260; y := 460 # 2 |};
        {| p_identifier := "c"; p_label := "c"; p_node_type := "process";
           p_metadata := []; x := 260; y := 740 # 2 |}];
     r_edges := [mk_edge "a" "b"; mk_edge "a" "c"] |}.

Close Scope string_scope.

(** ** Vocabulary of the specification

    What the claims speak of, stated on the layer assignment that
    [_assign_layers] returns and independent of how [compute_layout]
    walks it. *)

(** The identifiers of a plan's nodes, in declaration order. *)
Definition node_ids (plan : FigurePlan) : list string :=
  map identifier (nodes plan).

(** The identifiers assigned layer [lv]. *)
Definition layer_members (levels : dict string Z) (lv : Z) : list string :=
  map fst (filter (fun kv => Z.eqb (snd kv) lv) levels).

(** [k]: how many nodes share layer [lv]. *)
Definition layer_size (levels : dict string Z) (lv : Z) : nat :=
  length (layer_members levels lv).

(** [i]: the rank of [id] among the nodes of layer [lv], in ascending
    lexicographic order of identifiers. *)
Definition row_rank (levels : dict string Z) (lv : Z) (id : string) : nat :=
  length (filter (fun j => str_ltb j id) (layer_members levels lv)).

(** The distinct layer values in use. *)
Definition occupied_levels (levels : dict string Z) : list Z :=
  nodup Z.eq_dec (dict_values levels).

(** [c]: the rank of [lv] among the distinct layer values in use. *)
Definition column_index (levels : dict string Z) (lv : Z) : nat :=
  length (filter (fun l => Z.ltb l lv) (occupied_levels levels)).

(** [canvas_size or DEFAULT_CANVAS_SIZE] *)
Definition canvas (canvas_size : option (Q * Q)) : Q * Q :=
  match canvas_size with Some c => c | None => DEFAULT_CANVAS_SIZE end.

(** The [PositionedNode] built on lines 42-49. *)
Definition positioned (node : FigureNode) (x0 y0 : Q) : PositionedNode :=
  {| p_identifier := identifier node;
     p_label := label node;
     p_node_type := node_type node;
     p_metadata := metadata node;
     x := x0;
     y := y0 |}.

(** The [FigureNode] fields of a [PositionedNode]. *)
Definition underlying (pn : PositionedNode) : FigureNode :=
  {| identifier := p_identifier pn;
     label := p_label pn;
     node_type := p_node_type pn;
     metadata := p_metadata pn |}.

(** Where the node named [id] goes, by the rules of the specification. *)
Definition placed (plan : FigurePlan) (levels : dict string Z) (h : Q)
    (id : string) (pn : PositionedNode) : Prop :=
  exists lv node,
    dict_get levels id = Some lv /\
    dict_get (node_map plan) id = Some node /\
    pn = positioned node
           (column_x (column_index levels lv))
           (column_y_offset h (layer_size levels lv)
            + float_of_nat (row_rank levels lv id) * snd NODE_SPACING)%Q.

(** The order of the output: by layer, then by identifier. *)
Definition layout_lt (levels : dict string Z) (a b : string) : Prop :=
  exists la lb,
    dict_get levels a = Some la /\ dict_get levels b = Some lb /\
    ((la < lb)%Z \/ (la = lb /\ str_ltb a b = true)).

(** The order of the output as the claims word it: by column index, then
    by identifier. *)
Definition output_lt (levels : dict string Z) (p q : PositionedNode) : Prop :=
  exists lp lq,
    dict_get levels (p_identifier p) = Some lp /\
    dict_get levels (p_identifier q) = Some lq /\
    (column_index levels lp < column_index levels lq \/
     (column_index levels lp = column_index levels lq /\
      str_ltb (p_identifier p) (p_identifier q) = true)).

(** An edge of the plan from [s] to [t]. *)
Definition edge_rel (plan : FigurePlan) (s t : string) : Prop :=
  exists e, In e (edges plan) /\ source e = s /\ target e = t.

(** No node reaches itself along one or more edges. *)
Definition acyclic (plan : FigurePlan) : Prop :=
  forall n, ~ clos_trans string (edge_rel plan) n n.

(** Every edge endpoint names a node of the plan. *)
Definition endpoints_present (plan : FigurePlan) : Prop :=
  forall e, In e (edges plan) ->
    In (source e) (node_ids plan) /\ In (target e) (node_ids plan).

(** ** Notions used in the proofs *)

(** [Forall2] along two lists, with the position of the pair. *)
Inductive Forall2i {A B : Type} (R : nat -> A -> B -> Prop)
    : nat -> list A -> list B -> Prop :=
| Forall2i_nil i : Forall2i R i [] []
| Forall2i_cons i a b l l' :
    R i a b -> Forall2i R (S i) l l' -> Forall2i R i (a :: l) (b :: l').

(** The body of the loop on lines 26-27. *)
Definition group_step (columns : dict Z (list string)) (kv : string * Z)
    : dict Z (list string) :=
  let '(node_id, level) := kv in dict_append columns level node_id.

(** [columns[level]] after [column.sort()]. *)
Definition sorted_column (columns : dict Z (list string)) (level : Z)
    : list string :=
  py_sorted str_ltb (dict_get_default columns level []).

(** What the inner loop appends for the identifier at row [i]. *)
Definition row_placed (node_lookup : dict string FigureNode) (x0 y_offset : Q)
    (i : nat) (id : string) (pn : PositionedNode) : Prop :=
  exists node,
    dict_get node_lookup id = Some node /\
    pn = positioned node x0 (y_offset + float_of_nat i * snd NODE_SPACING)%Q.

(** What the outer loop appends for the layer at column [c]. *)
Definition column_placed (node_lookup : dict string FigureNode)
    (columns : dict Z (list string)) (h : Q)
    (c : nat) (level : Z) (new : list PositionedNode) : Prop :=
  Forall2i
    (row_placed node_lookup (column_x c)
       (column_y_offset h (length (sorted_column columns level))))
    0 (sorted_column columns level) new.

(** The identifiers in the order the nested loops visit them. *)
Definition visit_order (levels : dict string Z) : list string :=
  concat (map (sorted_column (group_columns levels))
            (py_sorted Z.ltb (dict_keys (group_columns levels)))).

(** The two components of [build_adjacency], each on its own. *)
Definition incoming_of (es : list FigureEdge) (incoming : dict string (list string))
    : dict string (list string) :=
  fold_left (fun d e => dict_append d (target e) (source e)) es incoming.

Definition outgoing_of (es : list FigureEdge) (outgoing : dict string (list string))
    : dict string (list string) :=
  fold_left (fun d e => dict_append d (source e) (target e)) es outgoing.

Definition incoming (plan : FigurePlan) : dict string (list string) :=
  incoming_of (edges plan) [].

Definition outgoing (plan : FigurePlan) : dict string (list string) :=
  outgoing_of (edges plan) [].

(** [outgoing.get(s, [])] *)
Definition successors (plan : FigurePlan) (s : string) : list string :=
  dict_get_default (outgoing plan) s [].

(** The body of the loop on lines 64-67. *)
Definition seed_step (inc : dict string (list string))
    (st : dict string Z * list string) (node : FigureNode)
    : dict string Z * list string :=
  let '(levels, queue) := st in
  if dict_mem inc (identifier node) then (levels, queue)
  else (dict_set levels (identifier node) 0%Z, queue ++ [identifier node]).

(** A node without a recorded incoming edge. *)
Definition is_source (inc : dict string (list string)) (ns : list FigureNode)
    (id : string) : Prop :=
  In id (map identifier ns) /\ dict_mem inc id = false.

(** The levels and queue with which the loop starts. *)
Definition initial_state (plan : FigurePlan)
    : outcome (dict string Z * list string) :=
  fallback_seed (nodes plan) (seed_sources (incoming plan) (nodes plan)).

(** Levels only grow. *)
Definition levels_le (levels levels' : dict string Z) : Prop :=
  forall id l, dict_get levels id = Some l ->
    exists l', dict_get levels' id = Some l' /\ (l <= l')%Z.

(** Every identifier the loop can meet: the nodes and the edge targets. *)
Definition universe (plan : FigurePlan) : list string :=
  node_ids plan ++ map target (edges plan).

Record well_formed (plan : FigurePlan) (levels : dict string Z)
    (queue : list string) : Prop := {
  wf_NoDup : NoDup (dict_keys levels);
  wf_queue : forall id, In id queue -> In id (dict_keys levels);
  wf_nonneg : forall id l, dict_get levels id = Some l -> (0 <= l)%Z;
  wf_universe : forall id, In id (dict_keys levels) -> In id (universe plan)
}.

(** An identifier is settled when each of its outgoing edges climbs. *)
Definition settled (plan : FigurePlan) (levels : dict string Z) (s : string)
    : Prop :=
  forall ls t,
    dict_get levels s = Some ls -> In t (successors plan s) ->
    exists lt, dict_get levels t = Some lt /\ (ls + 1 <= lt)%Z.

(** Whatever is not waiting in the queue is settled. *)
Definition queued_or_settled (plan : FigurePlan) (levels : dict string Z)
    (queue : list string) : Prop :=
  forall s, In s queue \/ settled plan levels s.

(** The length of the longest walk of at most [k] edges that ends at [n]. *)
Fixpoint depth (es : list FigureEdge) (k : nat) (n : string) : nat :=
  match k with
  | O => 0
  | S k' =>
      list_max
        (map (fun e => if String.eqb (target e) n
                       then S (depth es k' (source e)) else 0) es)
  end.

(** [walk es m n w]: the edges [w], last edge first, lead from [m] to [n]. *)
Inductive walk (es : list FigureEdge) (m : string)
    : string -> list FigureEdge -> Prop :=
| walk_nil : walk es m m []
| walk_step e w :
    In e es -> walk es m (source e) w -> walk es m (target e) (e :: w).

(** The rank of an identifier: the length of the longest walk to it. *)
Definition rank (plan : FigurePlan) (n : string) : nat :=
  depth (edges plan) (length (edges plan)) n.

(** No level exceeds the rank of its identifier. *)
Definition bounded (plan : FigurePlan) (levels : dict string Z) : Prop :=
  forall id l, dict_get levels id = Some l -> (l <= Z.of_nat (rank plan id))%Z.

(** One more than the level, or 0 without a level. *)
Definition height_of (levels : dict string Z) (id : string) : nat :=
  match dict_get levels id with
  | None => 0
  | Some l => S (Z.to_nat l)
  end.

(** How far an identifier can still be raised. *)
Definition slack (plan : FigurePlan) (levels : dict string Z) (id : string)
    : nat :=
  S (length (edges plan)) - height_of levels id.

Definition potential (plan : FigurePlan) (levels : dict string Z) : nat :=
  list_sum (map (slack plan levels) (universe plan)).

(** The measure that each iteration of the loop decreases. *)
Definition measure (plan : FigurePlan) (levels : dict string Z)
    (queue : list string) : nat :=
  2 * potential plan levels + length queue.

(** Enough iterations of the loop for any acyclic plan. *)
Definition fuel_bound (plan : FigurePlan) : nat :=
  2 * (length (universe plan) * S (length (edges plan))) + length (nodes plan).

(** A ranking of the identifiers of [chain_plan]. *)
Definition chain_rank (id : string) : nat :=
  if String.eqb id "a" then 0 else if String.eqb id "b" then 1 else 2.

(** ** Further notions about the layering *)

(** Each positive level stands one above the level of a predecessor, or
    less: the identifier has an incoming edge from an identifier whose level
    is at least its own minus one. *)
Definition supported (plan : FigurePlan) (levels : dict string Z) : Prop :=
  forall t lt,
    dict_get levels t = Some lt -> (0 < lt)%Z ->
    exists s ls,
      edge_rel plan s t /\ dict_get levels s = Some ls /\ (lt - 1 <= ls)%Z.

(** The identifiers with which the queue starts: the nodes without an
    incoming edge or, when there is none, the first node. *)
Definition seeded (plan : FigurePlan) (id : string) : Prop :=
  (In id (node_ids plan) /\ forall e, In e (edges plan) -> target e <> id) \/
  ((forall n, In n (node_ids plan) -> exists e, In e (edges plan) /\ target e = n) /\
   exists first rest, nodes plan = first :: rest /\ identifier first = id).

(** [id] can be reached along edges from an identifier the queue starts
    with. *)
Definition reachable (plan : FigurePlan) (id : string) : Prop :=
  exists s, seeded plan s /\ clos_refl_trans string (edge_rel plan) s id.

(** The last node of a list that carries the identifier [id]. *)
Definition last_node_with (id : string) (ns : list FigureNode)
    : option FigureNode :=
  find (fun n => String.eqb (identifier n) id) (rev ns).

(** * The renderer: [gen_svg_content.py], [render_svg.py] and [agent.py]

    Further modelling choices:
    - [len] of a [str] counts code points, that is the bytes of its UTF-8
      form that are not continuation bytes;
    - [str.split()] splits at the code points for which [str.isspace] holds;
    - the text Python prints for a [float] is left open: [_node_rect],
      [_node_label], [_edge_line] and [render_svg] take the formatter of
      [f"{v:.2f}"] and the formatter of [f"{v}"] as parameters, and what is
      proved holds for every pair of formatters;
    - the exceptions of the renderer are values of [render_exn], carried by
      [rendering]; the renderer has no loop that can run forever. *)

Inductive render_exn : Type :=
| StopIteration
| StyleKeyError (key : string).

Inductive rendering (A : Type) : Type :=
| Rendered (a : A)
| Failed (e : render_exn).

Arguments Rendered {A} a.
Arguments Failed {A} e.

Open Scope string_scope.

(** ** Strings *)

(** [sep.join(parts)] *)
Definition py_join (sep : string) (parts : list string) : string :=
  String.concat sep parts.

(** A byte [10xxxxxx], which continues a code point. *)
Definition is_continuation (c : ascii) : bool :=
  let n := nat_of_ascii c in (128 <=? n)%nat && (n <? 192)%nat.

(** [len(s)] *)
Fixpoint py_len (s : string) : Z :=
  match s with
  | EmptyString => 0%Z
  | String c rest =>
      if is_continuation c then py_len rest else (1 + py_len rest)%Z
  end.

(** The number of bytes of the whitespace code point that [s] starts with,
    [0] when it starts with none.  The whitespace code points are U+0009 to
    U+000D, U+001C to U+0020, U+0085, U+00A0, U+1680, U+2000 to U+200A,
    U+2028, U+2029, U+202F, U+205F and U+3000. *)
Definition space_width (s : string) : nat :=
  match s with
  | EmptyString => 0
  | String c0 rest0 =>
      let b0 := nat_of_ascii c0 in
      if ((9 <=? b0) && (b0 <=? 13) || (28 <=? b0) && (b0 <=? 32))%nat then 1
      else
        match rest0 with
        | EmptyString => 0
        | String c1 rest1 =>
            let b1 := nat_of_ascii c1 in
            if ((b0 =? 194) && ((b1 =? 133) || (b1 =? 160)))%nat then 2
            else
              match rest1 with
              | EmptyString => 0
              | String c2 _ =>
                  let b2 := nat_of_ascii c2 in
                  if ((b0 =? 225) && (b1 =? 154) && (b2 =? 128))%nat then 3
                  else if ((b0 =? 226) && (b1 =? 128) &&
                           ((128 <=? b2) && (b2 <=? 138) || (b2 =? 168) ||
                            (b2 =? 169) || (b2 =? 175)))%nat then 3
                  else if ((b0 =? 226) && (b1 =? 129) && (b2 =? 159))%nat
                       then 3
                  else if ((b0 =? 227) && (b1 =? 128) && (b2 =? 128))%nat
                       then 3
                  else 0
              end
        end
  end.

(** The word collected so far, if it has a character. *)
Definition flush_word (word : string) : list string :=
  match word with EmptyString => [] | _ => [word] end.

(** [skip] counts the bytes that remain of the whitespace code point being
    passed over, [word] is the word being collected. *)
Fixpoint split_from (s : string) (skip : nat) (word : string) : list string :=
  match s with
  | EmptyString => flush_word word
  | String c rest =>
      match skip with
      | S k => split_from rest k word
      | O =>
          match space_width s with
          | O => split_from rest 0 (word ++ String c EmptyString)
          | S k => (flush_word word ++ split_from rest k EmptyString)%list
          end
      end
  end.

(** [s.split()] *)
Definition py_split (s : string) : list string := split_from s 0 EmptyString.

(** A line feed. *)
Definition LF : string := String (ascii_of_nat 10) EmptyString.

(** ** [gen_svg_content.py] *)

Record ShapeStyle : Type := {
  fill : string;
  stroke : string;
  stroke_width : Q;
  text_color : string
}.

(** [ShapeStyle(fill=f, stroke=s)], with the defaults of the two other
    fields. *)
Definition mk_style (f s : string) : ShapeStyle :=
  {| fill := f; stroke := s; stroke_width := 2; text_color := "#0f172a" |}.

Definition DEFAULT_STYLES : dict string ShapeStyle :=
  [("process", mk_style "#e0f2fe" "#0284c7");
   ("io", mk_style "#ede9fe" "#7c3aed");
   ("decision", mk_style "#fef3c7" "#f59e0b")].

Definition NODE_SIZE : Q * Q := (160, 60)%Q.

(** Lines 121-138; [text], [children] and [self_closing] default to
    [None]. *)
Definition _serialize (tag : string) (attrs : dict string string)
    (text : option string) (children : option (list string))
    (self_closing : option bool) : string :=
  let attr_str :=
    py_join " " (map (fun '(key, value) => key ++ "='" ++ value ++ "'") attrs) in
  let suffix :=
    match attr_str with EmptyString => EmptyString | _ => " " ++ attr_str end in
  let no_children :=
    match children with None | Some [] => true | Some (_ :: _) => false end in
  let self_closing' :=
    match self_closing with
    | Some b => b
    | None => match text with None => no_children | Some _ => false end
    end in
  if self_closing' then "<" ++ tag ++ suffix ++ "/>"
  else
    let inner := match text with Some t => t | None => EmptyString end in
    let inner' :=
      match children with
      | None | Some [] => inner
      | Some cs => inner ++ py_join EmptyString cs
      end in
    "<" ++ tag ++ suffix ++ ">" ++ inner' ++ "</" ++ tag ++ ">".

(** Lines 88-98: one turn of the loop over the words. *)
Definition wrap_step (max_len : Z) (st : list string * list string)
    (word : string) : list string * list string :=
  let '(lines, current) := st in
  let tentative := py_join " " (current ++ [word])%list in
  if (py_len tentative <=? max_len)%Z then (lines, (current ++ [word])%list)
  else
    match current with
    | _ :: _ => ((lines ++ [py_join " " current])%list, [word])
    | [] => ((lines ++ [word])%list, [])
    end.

(** Lines 86-101, for a list of words. *)
Definition wrap_words (words : list string) (max_len : Z) : list string :=
  let '(lines, current) := fold_left (wrap_step max_len) words ([], []) in
  match current with
  | _ :: _ => (lines ++ [py_join " " current])%list
  | [] => lines
  end.

(** Lines 82-101. *)
Definition _wrap_label (label : string) (max_len : Z) : list string :=
  match py_split label with
  | [] => [EmptyString]
  | words => wrap_words words max_len
  end.

Section Render.
(** The text of [f"{v:.2f}"] and of [f"{v}"] for a float [v]. *)
Variables (fmt2 fmt : Q -> string).

(** Lines 46-59. *)
Definition _node_rect (node : PositionedNode) (style : ShapeStyle) : string :=
  let '(width, height) := NODE_SIZE in
  let attrs : dict string string :=
    [("x", fmt2 (x node - width / 2)%Q);
     ("y", fmt2 (y node - height / 2)%Q);
     ("width", fmt2 width);
     ("height", fmt2 height);
     ("rx", "12");
     ("ry", "12");
     ("fill", fill style);
     ("stroke", stroke style);
     ("stroke-width", fmt (stroke_width style))] in
  _serialize "rect" attrs None None None.

(** Lines 75-78: the loop over [enumerate(lines)]. *)
Fixpoint label_tspans (x_attr : string) (idx : nat) (lines : list string)
    : list string :=
  match lines with
  | [] => []
  | line :: rest =>
      let t_attrs : dict string string :=
        [("x", x_attr);
         ("dy", match idx with O => "0" | S _ => "1.2em" end)] in
      _serialize "tspan" t_attrs (Some line) None (Some false)
        :: label_tspans x_attr (S idx) rest
  end.

(** Lines 62-79. *)
Definition _node_label (node : PositionedNode) (style : ShapeStyle) : string :=
  let attrs : dict string string :=
    [("x", fmt2 (x node));
     ("y", fmt2 (y node));
     ("fill", text_color style);
     ("font-family", "Inter, Helvetica, Arial, sans-serif");
     ("font-size", "16px");
     ("text-anchor", "middle");
     ("dominant-baseline", "middle")] in
  let lines := _wrap_label (p_label node) 22 in
  match lines with
  | [line] => _serialize "text" attrs (Some line) None (Some false)
  | _ =>
      let tspans := label_tspans (fmt2 (x node)) 0 lines in
      _serialize "text" attrs None (Some tspans) (Some false)
  end.

(** [next(node for node in layout.nodes if node.identifier == id)] *)
Definition next_node (layout : LayoutResult) (id : string)
    : rendering PositionedNode :=
  match find (fun node => String.eqb (p_identifier node) id) (r_nodes layout)
  with
  | Some node => Rendered node
  | None => Failed StopIteration
  end.

(** Lines 107-118: the line from the node [s] to the node [t]. *)
Definition edge_between (s t : PositionedNode) (edge : FigureEdge) : string :=
  let attrs : dict string string :=
    [("x1", fmt2 (x s));
     ("y1", fmt2 (y s));
     ("x2", fmt2 (x t));
     ("y2", fmt2 (y t));
     ("stroke", "#334155");
     ("stroke-width", "2");
     ("marker-end", "url(#arrow)")] in
  let attrs' :=
    match edge_label edge with
    | None | Some EmptyString => attrs
    | Some l => dict_set attrs "data-label" l
    end in
  _serialize "line" attrs' None None None.

(** Lines 104-118. *)
Definition _edge_line (layout : LayoutResult) (edge : FigureEdge)
    : rendering string :=
  match next_node layout (source edge) with
  | Failed e => Failed e
  | Rendered s =>
      match next_node layout (target edge) with
      | Failed e => Failed e
      | Rendered t => Rendered (edge_between s t edge)
      end
  end.

(** Line 33: [{**DEFAULT_STYLES, **(styles or {})}]. *)
Definition merge_styles (styles : option (dict string ShapeStyle))
    : dict string ShapeStyle :=
  fold_left (fun m '(k, v) => dict_set m k v)
    (match styles with Some s => s | None => [] end) DEFAULT_STYLES.

(** Line 37; the default [style_map["process"]] is looked up before
    [get] is called. *)
Definition node_style (style_map : dict string ShapeStyle)
    (node : PositionedNode) : rendering ShapeStyle :=
  match dict_get style_map "process" with
  | None => Failed (StyleKeyError "process")
  | Some fallback =>
      Rendered (dict_get_default style_map (p_node_type node) fallback)
  end.

(** Lines 36-39. *)
Fixpoint draw_nodes (style_map : dict string ShapeStyle)
    (ns : list PositionedNode) (elements : list string)
    : rendering (list string) :=
  match ns with
  | [] => Rendered elements
  | node :: rest =>
      match node_style style_map node with
      | Failed e => Failed e
      | Rendered style =>
          draw_nodes style_map rest
            (elements ++ [_node_rect node style]
                      ++ [_node_label node style])%list
      end
  end.

(** Lines 41-42. *)
Fixpoint draw_edges (layout : LayoutResult) (es : list FigureEdge)
    (elements : list string) : rendering (list string) :=
  match es with
  | [] => Rendered elements
  | edge :: rest =>
      match _edge_line layout edge with
      | Failed e => Failed e
      | Rendered line => draw_edges layout rest (elements ++ [line])%list
      end
  end.

(** Lines 30-43. *)
Definition build_svg_elements (layout : LayoutResult)
    (styles : option (dict string ShapeStyle)) : rendering (list string) :=
  let style_map := merge_styles styles in
  match draw_nodes style_map (r_nodes layout) [] with
  | Failed e => Failed e
  | Rendered elements => draw_edges layout (r_edges layout) elements
  end.

(** ** [render_svg.py] *)

Definition ARROW_MARKER : string :=
  "<defs>" ++ LF ++
  "  <marker id='arrow' markerWidth='10' markerHeight='7' refX='10' refY='3.5' orient='auto' markerUnits='strokeWidth'>" ++ LF ++
  "    <path d='M0,0 L0,7 L10,3.5 z' fill='#334155'/>" ++ LF ++
  "  </marker>" ++ LF ++
  "</defs>".

(** Lines 20-30. *)
Definition render_svg (layout : LayoutResult)
    (styles : option (dict string ShapeStyle)) : rendering string :=
  match build_svg_elements layout styles with
  | Failed e => Failed e
  | Rendered elements =>
      let body := py_join (LF ++ "  ") elements in
      Rendered
        ("<svg xmlns='http://www.w3.org/2000/svg' width='" ++
         fmt (width layout) ++ "' height='" ++ fmt (height layout) ++
         "' viewBox='0 0 " ++ fmt (width layout) ++ " " ++
         fmt (height layout) ++ "'>" ++ LF ++
         "  " ++ ARROW_MARKER ++ LF ++
         "  " ++ body ++ LF ++
         "</svg>")
  end.

(** ** [agent.py] *)

Record FigureAgentConfig : Type := {
  canvas_width : Q;
  canvas_height : Q;
  default_node_type : string
}.

(** [FigureAgentConfig()] *)
Definition default_config : FigureAgentConfig :=
  {| canvas_width := 960; canvas_height := 640;
     default_node_type := "process" |}.

(** [FigureAgent(config).layout(plan)], lines 33-36. *)
Definition FigureAgent_layout (fuel : nat) (config : FigureAgentConfig)
    (plan : FigurePlan) : outcome LayoutResult :=
  compute_layout fuel plan (Some (canvas_width config, canvas_height config)).

(** [FigureAgent(config).render(layout)], lines 38-41. *)
Definition FigureAgent_render (config : FigureAgentConfig)
    (layout : LayoutResult) : rendering string :=
  render_svg layout None.

(** How a run of layout followed by rendering ends. *)
Inductive run (A : Type) : Type :=
| Completed (a : A)
| LayoutRaised (e : exn)
| RenderRaised (e : render_exn)
| Unfinished.

(** Lines 47-48 of [FigureAgent.generate]: what it does with the plan
    that [parse] returned. *)
Definition generate_from_plan (fuel : nat) (config : FigureAgentConfig)
    (plan : FigurePlan) : run string :=
  match FigureAgent_layout fuel config plan with
  | OutOfFuel => Unfinished _
  | Raise e => LayoutRaised _ e
  | Return layout =>
      match FigureAgent_render config layout with
      | Failed e => RenderRaised _ e
      | Rendered svg => Completed svg
      end
  end.
End Render.

Arguments Completed {A} a.
Arguments LayoutRaised {A} e.
Arguments RenderRaised {A} e.
Arguments Unfinished {A}.

(** ** Notions about the renderer *)

(** Every edge endpoint names a node of the layout. *)
Definition edges_drawable (layout : LayoutResult) : Prop :=
  forall e, In e (r_edges layout) ->
    In (source e) (map p_identifier (r_nodes layout)) /\
    In (target e) (map p_identifier (r_nodes layout)).

(** What the greedy filling of [_wrap_label] leaves between two runs of
    words that follow each other: the first word of the later run did not
    fit at the end of the earlier one. *)
Fixpoint greedy (max_len : Z) (groups : list (list string)) : Prop :=
  match groups with
  | g :: ((w :: _) :: _) as rest =>
      (max_len < py_len (py_join " "%string (g ++ [w])))%Z /\
      greedy max_len rest
  | _ :: rest => greedy max_len rest
  | [] => True
  end.

(** The lines that the loop of [_wrap_label] still appends when it stands
    at [current] with [words] to go. *)
Fixpoint wrap_rest (max_len : Z) (current words : list string)
    : list string :=
  match words with
  | [] =>
      match current with
      | _ :: _ => [py_join " "%string current]
      | [] => []
      end
  | word :: rest =>
      if (py_len (py_join " "%string (current ++ [word])) <=? max_len)%Z
      then wrap_rest max_len (current ++ [word]) rest
      else
        match current with
        | _ :: _ => py_join " "%string current :: wrap_rest max_len [word] rest
        | [] => word :: wrap_rest max_len [] rest
        end
  end.

(** A run of words that fits a line, or is a single word. *)
Definition fits (max_len : Z) (g : list string) : Prop :=
  (py_len (py_join " "%string g) <= max_len)%Z \/ exists w, g = [w].

Close Scope string_scope.

(** ** Further samples *)

(** Formatters to run the examples with.  On the coordinates of the
    samples they print what Python prints; the theorems hold for every
    formatter and do not depend on these. *)
Definition digit (n : Z) : string :=
  String (ascii_of_nat (48 + Z.to_nat n)) EmptyString.

Fixpoint digits (fuel : nat) (n : Z) : string :=
  match fuel with
  | O => EmptyString
  | S fuel' =>
      if (n <? 10)%Z then digit n
      else digits fuel' (n / 10)%Z ++ digit (n mod 10)%Z
  end.

Definition decimal (n : Z) : string := digits (S (Z.to_nat (Z.log2 n))) n.

(** The nearest integer, a tie going to the even one. *)
Definition round_half_even (q : Q) : Z :=
  let d := Zpos (Qden q) in
  let lo := (Qnum q / d)%Z in
  let twice := (2 * (Qnum q mod d))%Z in
  if (twice <? d)%Z then lo
  else if (d <? twice)%Z then (lo + 1)%Z
  else if Z.even lo then lo else (lo + 1)%Z.

Definition sample_fmt2 (q : Q) : string :=
  let h := round_half_even (q * 100)%Q in
  let a := Z.abs h in
  (if (h <? 0)%Z then "-" else EmptyString) ++ decimal (a / 100)%Z ++ "." ++
  digit ((a / 10) mod 10)%Z ++ digit (a mod 10)%Z.

Definition sample_fmt (q : Q) : string :=
  let t := round_half_even (q * 10)%Q in
  let a := Z.abs t in
  (if (t <? 0)%Z then "-" else EmptyString) ++ decimal (a / 10)%Z ++ "." ++
  digit (a mod 10)%Z.

(** The layers of [fan_plan] and of [chain_plan]. *)
Definition fan_levels : dict string Z :=
  [("a", 0); ("b", 1); ("c", 1)]%string%Z.

Definition chain_levels : dict string Z :=
  [("a", 0); ("b", 1); ("c", 2)]%string%Z.

(** A ranking of the identifiers of [fan_plan]. *)
Definition fan_rank (id : string) : nat :=
  if String.eqb id "a" then 0 else 1.

(** [fan_plan] with its nodes and its edges declared in another order, and
    its layout on the default canvas. *)
Definition fan_plan_reordered : FigurePlan :=
  mk_plan [mk_node "a"; mk_node "c"; mk_node "b"]
          [mk_edge "a" "c"; mk_edge "a" "b"]%string.

Definition fan_result_reordered : LayoutResult :=
  {| width := width fan_result; height := height fan_result;
     r_nodes := r_nodes fan_result;
     r_edges := [mk_edge "a" "c"; mk_edge "a" "b"]%string |}.

(** A source leading into a 2-cycle. *)
Definition lasso_plan : FigurePlan :=
  mk_plan [mk_node "s"; mk_node "a"; mk_node "b"]
          [mk_edge "s" "a"; mk_edge "a" "b"; mk_edge "b" "a"]%string.

(** A source and, off to the side, a cycle that no source leads to. *)
Definition side_cycle_plan : FigurePlan :=
  mk_plan [mk_node "s"; mk_node "a"; mk_node "b"]
          [mk_edge "a" "b"; mk_edge "b" "a"]%string.

Definition side_cycle_levels : dict string Z :=
  [("s", 0); ("a", 0); ("b", 0)]%string%Z.

(** Two nodes share the identifier "a"; "b" hangs below. *)
Definition shadow_plan : FigurePlan :=
  mk_plan [{| identifier := "a"; label := "first"; node_type := "io";
              metadata := [] |};
           mk_node "b";
           {| identifier := "a"; label := "second"; node_type := "decision";
              metadata := [("k"%string, "v"%string)] |}]
          [mk_edge "a" "b"]%string.

Definition shadow_result : LayoutResult :=
  {| width := 800; height := 600;
     r_nodes :=
       [{| p_identifier := "a"; p_label := "second"; p_node_type := "decision";
           p_metadata := [("k"%string, "v"%string)]; x := 60; y := 460 # 2 |};
        {| p_identifier := "b"; p_label := "b"; p_node_type := "process";
           p_metadata := []; x := 260; y := 460 # 2 |}]%string;
     r_edges := [mk_edge "a" "b"]%string |}.

(** The layout of [dangling_source_plan] on the default canvas. *)
Definition dangling_source_result : LayoutResult :=
  {| width := 800; height := 600;
     r_nodes :=
       [{| p_identifier := "a"; p_label := "a"; p_node_type := "process";
           p_metadata := []; x := 60; y := 460 # 2 |}]%string;
     r_edges := [mk_edge "z" "a"]%string |}.

Definition long_label : string :=
  "a supercalifragilisticexpialidocious b"%string.

(** Styles a caller might pass: a new look for decisions and a style for a
    type of its own. *)
Definition sample_styles : dict string ShapeStyle :=
  [("decision", {| fill := "#fee2e2"; stroke := "#dc2626";
                   stroke_width := 3; text_color := "#111827" |});
   ("note", {| fill := "#f1f5f9"; stroke := "#64748b";
               stroke_width := 1; text_color := "#0f172a" |})]%string.

(** * The placement in binary64

    [compute_layout] computes coordinates with Python floats, which are
    IEEE 754 binary64 numbers.  The definitions above read its arithmetic
    over the rationals; the module below reads the same lines with the
    kernel's binary64 floats, every operation rounded as the machine rounds
    it.  The layering, the grouping and the sorting hold no float and are
    shared by both readings. *)

From Stdlib Require Floats.PrimFloat Floats.SpecFloat Floats.FloatOps.

Module Binary64.
Import PrimFloat SpecFloat FloatOps.
Local Open Scope float_scope.

(** [PositionedNode], with [x] and [y] as floats. *)
Record PositionedNode : Type := {
  p_identifier : string;
  p_label : string;
  p_node_type : string;
  p_metadata : dict string string;
  x : float;
  y : float
}.

Record LayoutResult : Type := {
  width : float;
  height : float;
  r_nodes : list PositionedNode;
  r_edges : list FigureEdge
}.

Definition DEFAULT_CANVAS_SIZE : float * float := (800, 600).
Definition NODE_SPACING : float * float := (200, 140).
Definition MARGIN : float := 60.

(** [max(a, b)] on floats: [b] when [b > a], else [a]; a NaN is never
    greater. *)
Definition py_max (a b : float) : float := if PrimFloat.ltb a b then b else a.

(** A Python [int] where a float is wanted: the nearest float, a tie going
    to the even one.  (Python raises [OverflowError] above the largest float;
    the integers converted here are lengths and positions of lists.) *)
Definition float_of_Z (z : Z) : float :=
  SF2Prim (binary_normalize prec emax z 0 false).

Definition float_of_nat (n : nat) : float := float_of_Z (Z.of_nat n).

(** Line 35. *)
Definition column_x (level_index : nat) : float :=
  MARGIN + float_of_nat level_index * fst NODE_SPACING.

(** Lines 36-37. *)
Definition column_y_offset (h : float) (size : nat) : float :=
  let col_height :=
    snd NODE_SPACING * float_of_Z (Z.max 1 (Z.of_nat size - 1)) in
  py_max MARGIN ((h - col_height) / 2).

(** Line 39. *)
Definition row_y (y_offset : float) (row_index : nat) : float :=
  y_offset + float_of_nat row_index * snd NODE_SPACING.

(** The [PositionedNode] built on lines 42-49. *)
Definition positioned (node : FigureNode) (x0 y0 : float) : PositionedNode :=
  {| p_identifier := identifier node;
     p_label := label node;
     p_node_type := node_type node;
     p_metadata := metadata node;
     x := x0;
     y := y0 |}.

(** Lines 38-50. *)
Fixpoint place_rows (node_lookup : dict string FigureNode) (x0 y_offset : float)
    (row_index : nat) (column : list string) (acc : list PositionedNode)
    : outcome (list PositionedNode) :=
  match column with
  | [] => Return acc
  | node_id :: rest =>
      let y0 := row_y y_offset row_index in
      match dict_get node_lookup node_id with
      | None => Raise (KeyError node_id)
      | Some node =>
          place_rows node_lookup x0 y_offset (S row_index) rest
            (acc ++ [positioned node x0 y0])
      end
  end.

(** Lines 32-50. *)
Fixpoint place_columns (node_lookup : dict string FigureNode)
    (columns : dict Z (list string)) (h : float) (level_index : nat)
    (sorted_levels : list Z) (acc : list PositionedNode)
    : outcome (list PositionedNode) :=
  match sorted_levels with
  | [] => Return acc
  | level :: rest =>
      let column := py_sorted str_ltb (dict_get_default columns level []) in
      acc' <- place_rows node_lookup (column_x level_index)
                (column_y_offset h (length column)) 0 column acc ;;
      place_columns node_lookup columns h (S level_index) rest acc'
  end.

(** Lines 20-52. *)
Definition compute_layout (fuel : nat) (plan : FigurePlan)
    (canvas_size : option (float * float)) : outcome LayoutResult :=
  let '(w, h) :=
    match canvas_size with Some c => c | None => DEFAULT_CANVAS_SIZE end in
  levels <- _assign_layers fuel plan ;;
  let columns := group_columns levels in
  let sorted_levels := py_sorted Z.ltb (dict_keys columns) in
  ns <- place_columns (node_map plan) columns h 0 sorted_levels [] ;;
  Return {| width := w; height := h; r_nodes := ns; r_edges := edges plan |}.

(** The [FigureNode] fields of a [PositionedNode]. *)
Definition underlying (pn : PositionedNode) : FigureNode :=
  {| identifier := p_identifier pn;
     label := p_label pn;
     node_type := p_node_type pn;
     metadata := p_metadata pn |}.

(** Where the node named [id] goes: in the column of its layer, at the row
    of its rank among the identifiers of the layer. *)
Definition placed (plan : FigurePlan) (levels : dict string Z) (h : float)
    (id : string) (pn : PositionedNode) : Prop :=
  exists lv node,
    dict_get levels id = Some lv /\
    dict_get (node_map plan) id = Some node /\
    pn = positioned node
           (column_x (column_index levels lv))
           (row_y (column_y_offset h (layer_size levels lv))
                  (row_rank levels lv id)).

(** What the inner loop appends for the identifier at row [i]. *)
Definition row_placed (node_lookup : dict string FigureNode)
    (x0 y_offset : float) (i : nat) (id : string) (pn : PositionedNode)
    : Prop :=
  exists node,
    dict_get node_lookup id = Some node /\
    pn = positioned node x0 (row_y y_offset i).

(** What the outer loop appends for the layer at column [c]. *)
Definition column_placed (node_lookup : dict string FigureNode)
    (columns : dict Z (list string)) (h : float)
    (c : nat) (level : Z) (new : list PositionedNode) : Prop :=
  Forall2i
    (row_placed node_lookup (column_x c)
       (column_y_offset h (length (sorted_column columns level))))
    0 (sorted_column columns level) new.

(** The rational that a finite float stands for. *)
Definition to_Q (f : float) : option Q :=
  match Prim2SF f with
  | S754_zero _ => Some 0%Q
  | S754_finite s m e =>
      let v := (inject_Z (Zpos m) * Qpower 2 e)%Q in
      Some (if s then Qopp v else v)
  | _ => None
  end.

(** The layout of [fan_plan] on a canvas [w] by [h], with "a" at [ya], "b"
    at [yb] and "c" at [yc]. *)
Definition fan_layout (w h ya yb yc : float) : LayoutResult :=
  {| width := w; height := h;
     r_nodes :=
       [{| p_identifier := "a"; p_label := "a"; p_node_type := "process";
           p_metadata := []; x := 60; y := ya |};
        {| p_identifier := "b"; p_label := "b"; p_node_type := "process";
           p_metadata := []; x := 260; y := yb |};
        {| p_identifier := "c"; p_label := "c"; p_node_type := "process";
           p_metadata := []; x := 260; y := yc |}]%string;
     r_edges := [mk_edge "a" "b"; mk_edge "a" "c"]%string |}.

(** On the default canvas. *)
Definition fan_result : LayoutResult := fan_layout 800 600 230 230 370.

(** Two canvas heights that [--height] accepts: the float nearest to 372.2,
    and ten to the nineteenth. *)
Definition h372 : float := 0x1.7433333333333p+8.
Definition h1e19 : float := 0x1.158e460913dp+63.

(** The floats nearest to 116.1 and to 256.1, and half of [h1e19]. *)
Definition y116 : float := 0x1.d066666666666p+6.
Definition y256 : float := 0x1.001999999999ap+8.
Definition y5e18 : float := 0x1.158e460913dp+62.
End Binary64.

(** * The store

    A third reading of [layout_figure.py], for what it does to the objects
    it is given and to those it makes.  Python objects live in a store and
    are named by references; an assignment to an attribute, an item or a
    slot of a list or dict is a write to the store.  Strings, numbers and
    [None] are values, and so is a list that is made, iterated and never
    stored, such as [sorted_levels].  A [defaultdict(list)] is one object
    together with the lists it holds, to which no other name refers.
    Coordinates are binary64 floats as in [Binary64]. *)

Module Machine.
Import PrimFloat.

Definition loc : Type := nat.

Inductive object : Type :=
| FigureNode_object (identifier label node_type : string) (metadata : loc)
| FigureEdge_object (source target : string) (label : option string)
| FigurePlan_object (nodes edges : loc) (title description : option string)
| PositionedNode_object (identifier label node_type : string)
    (metadata : loc) (x y : float)
| LayoutResult_object (width height : float) (nodes edges : loc)
| list_object (items : list loc)
| metadata_object (items : dict string string)
| adjacency_object (items : dict string (list string))
| levels_object (items : dict string Z)
| deque_object (items : list string)
| columns_object (items : dict Z (list string))
| lookup_object (items : dict string loc).

(** The store: the object of reference [l] is at position [l]. *)
Definition store : Type := list object.

Inductive error : Type :=
| Python (e : exn)
| BadObject.

(** How a run ends: with a value and the store it leaves, with an
    exception, or not within the iterations allowed. *)
Inductive result (A : Type) : Type :=
| Returned (a : A) (s : store)
| Raised (e : error)
| OutOfIterations.

Arguments Returned {A} a s.
Arguments Raised {A} e.
Arguments OutOfIterations {A}.

Definition M (A : Type) : Type := store -> result A.

Definition ret {A : Type} (a : A) : M A := fun s => Returned a s.

Definition raise {A : Type} (e : error) : M A := fun _ => Raised e.

Definition bind {A B : Type} (c : M A) (k : A -> M B) : M B :=
  fun s =>
    match c s with
    | Returned a s' => k a s'
    | Raised e => Raised e
    | OutOfIterations => OutOfIterations
    end.

Local Notation "x <~ c ;; k" := (bind c (fun x => k))
  (at level 61, c at next level, right associativity).
Local Notation "' pat <~ c ;; k" := (bind c (fun pat => k))
  (at level 61, pat pattern, c at next level, right associativity).

(** A new object; its reference is the next free position. *)
Definition new (o : object) : M loc :=
  fun s => Returned (length s) (s ++ [o]).

(** The object of a reference. *)
Definition get (l : loc) : M object :=
  fun s =>
    match nth_error s l with
    | Some o => Returned o s
    | None => Raised BadObject
    end.

Fixpoint update (s : store) (l : loc) (o : object) : store :=
  match s, l with
  | [], _ => []
  | _ :: rest, O => o :: rest
  | c :: rest, S l' => c :: update rest l' o
  end.

(** A write: the object of [l] becomes [o]. *)
Definition put (l : loc) (o : object) : M unit :=
  fun s =>
    if (l <? length s)%nat then Returned tt (update s l o)
    else Raised BadObject.

(** Reading an object as an instance of the class the code takes it for. *)
Definition get_node (l : loc) : M (string * string * string * loc) :=
  o <~ get l ;;
  match o with
  | FigureNode_object i lb t m => ret (i, lb, t, m)
  | _ => raise BadObject
  end.

Definition get_edge (l : loc) : M FigureEdge :=
  o <~ get l ;;
  match o with
  | FigureEdge_object s t lb =>
      ret {| source := s; target := t; edge_label := lb |}
  | _ => raise BadObject
  end.

(** [plan.nodes] and [plan.edges]. *)
Definition get_plan (l : loc) : M (loc * loc) :=
  o <~ get l ;;
  match o with
  | FigurePlan_object ns es _ _ => ret (ns, es)
  | _ => raise BadObject
  end.

Definition get_list (l : loc) : M (list loc) :=
  o <~ get l ;;
  match o with list_object items => ret items | _ => raise BadObject end.

Definition get_metadata (l : loc) : M (dict string string) :=
  o <~ get l ;;
  match o with metadata_object d => ret d | _ => raise BadObject end.

Definition get_adjacency (l : loc) : M (dict string (list string)) :=
  o <~ get l ;;
  match o with adjacency_object d => ret d | _ => raise BadObject end.

Definition get_levels (l : loc) : M (dict string Z) :=
  o <~ get l ;;
  match o with levels_object d => ret d | _ => raise BadObject end.

Definition get_deque (l : loc) : M (list string) :=
  o <~ get l ;;
  match o with deque_object q => ret q | _ => raise BadObject end.

Definition get_columns (l : loc) : M (dict Z (list string)) :=
  o <~ get l ;;
  match o with columns_object d => ret d | _ => raise BadObject end.

Definition get_lookup (l : loc) : M (dict string loc) :=
  o <~ get l ;;
  match o with lookup_object d => ret d | _ => raise BadObject end.

(** [for item in items: body(item)], for a list that the body leaves
    alone. *)
Fixpoint for_each {A : Type} (items : list A) (body : A -> M unit) : M unit :=
  match items with
  | [] => ret tt
  | item :: rest => _ <~ body item ;; for_each rest body
  end.

(** Lines 58-60, for one edge. *)
Definition add_edge (incoming outgoing : loc) (e : loc) : M unit :=
  edge <~ get_edge e ;;
  inc <~ get_adjacency incoming ;;
  _ <~ put incoming
         (adjacency_object (dict_append inc (target edge) (source edge))) ;;
  out <~ get_adjacency outgoing ;;
  put outgoing
    (adjacency_object (dict_append out (source edge) (target edge))).

(** Lines 64-67, for one node. *)
Definition seed_node (incoming levels queue : loc) (n : loc) : M unit :=
  '(id, _, _, _) <~ get_node n ;;
  inc <~ get_adjacency incoming ;;
  if dict_mem inc id then ret tt
  else
    lv <~ get_levels levels ;;
    _ <~ put levels (levels_object (dict_set lv id 0%Z)) ;;
    q <~ get_deque queue ;;
    put queue (deque_object (q ++ [id])).

(** Lines 69-72. *)
Definition fallback_seed (plan levels queue : loc) : M unit :=
  q <~ get_deque queue ;;
  match q with
  | _ :: _ => ret tt
  | [] =>
      '(nodes, _) <~ get_plan plan ;;
      ns <~ get_list nodes ;;
      match ns with
      | [] => raise (Python IndexError)
      | first :: _ =>
          '(id, _, _, _) <~ get_node first ;;
          _ <~ put queue (deque_object (q ++ [id])) ;;
          lv <~ get_levels levels ;;
          put levels (levels_object (dict_set lv id 0%Z))
      end
  end.

(** Lines 78-81, for one neighbor. *)
Definition relax_neighbor (levels queue : loc) (current_level : Z)
    (neighbor : string) : M unit :=
  let proposed := (current_level + 1)%Z in
  lv <~ get_levels levels ;;
  let raise_level :=
    _ <~ put levels (levels_object (dict_set lv neighbor proposed)) ;;
    q <~ get_deque queue ;;
    put queue (deque_object (q ++ [neighbor])) in
  match dict_get lv neighbor with
  | None => raise_level
  | Some l => if (proposed >? l)%Z then raise_level else ret tt
  end.

(** Lines 74-81. *)
Fixpoint relax_loop (fuel : nat) (outgoing levels queue : loc) : M unit :=
  q <~ get_deque queue ;;
  match q with
  | [] => ret tt
  | current :: rest =>
      match fuel with
      | O => fun _ => OutOfIterations
      | S fuel' =>
          _ <~ put queue (deque_object rest) ;;
          lv <~ get_levels levels ;;
          match dict_get lv current with
          | None => raise (Python (KeyError current))
          | Some current_level =>
              out <~ get_adjacency outgoing ;;
              _ <~ for_each (dict_get_default out current [])
                     (relax_neighbor levels queue current_level) ;;
              relax_loop fuel' outgoing levels queue
          end
      end
  end.

(** Lines 84-85, for one node. *)
Definition default_node (levels : loc) (n : loc) : M unit :=
  '(id, _, _, _) <~ get_node n ;;
  lv <~ get_levels levels ;;
  put levels (levels_object (dict_setdefault lv id 0%Z)).

(** Lines 55-87; the value is the reference of [levels]. *)
Definition _assign_layers (fuel : nat) (plan : loc) : M loc :=
  incoming <~ new (adjacency_object []) ;;
  outgoing <~ new (adjacency_object []) ;;
  '(_, edges) <~ get_plan plan ;;
  es <~ get_list edges ;;
  _ <~ for_each es (add_edge incoming outgoing) ;;
  levels <~ new (levels_object []) ;;
  queue <~ new (deque_object []) ;;
  '(nodes, _) <~ get_plan plan ;;
  ns <~ get_list nodes ;;
  _ <~ for_each ns (seed_node incoming levels queue) ;;
  _ <~ fallback_seed plan levels queue ;;
  _ <~ relax_loop fuel outgoing levels queue ;;
  '(nodes, _) <~ get_plan plan ;;
  ns <~ get_list nodes ;;
  _ <~ for_each ns (default_node levels) ;;
  ret levels.

(** [FigurePlan.node_map], lines 37-38 of [types.py]: a new dict from
    identifiers to the node objects themselves. *)
Definition map_node (d : loc) (n : loc) : M unit :=
  '(id, _, _, _) <~ get_node n ;;
  lk <~ get_lookup d ;;
  put d (lookup_object (dict_set lk id n)).

Definition node_map (plan : loc) : M loc :=
  d <~ new (lookup_object []) ;;
  '(nodes, _) <~ get_plan plan ;;
  ns <~ get_list nodes ;;
  _ <~ for_each ns (map_node d) ;;
  ret d.

(** Lines 26-27, for one item of [levels]. *)
Definition group_node (columns : loc) (item : string * Z) : M unit :=
  let '(node_id, level) := item in
  c <~ get_columns columns ;;
  put columns (columns_object (dict_append c level node_id)).

(** Lines 38-50; [nodes] is the reference of the list being built. *)
Fixpoint place_rows (node_lookup nodes : loc) (x0 y_offset : float)
    (row_index : nat) (column : list string) : M unit :=
  match column with
  | [] => ret tt
  | node_id :: rest =>
      let y0 := Binary64.row_y y_offset row_index in
      lk <~ get_lookup node_lookup ;;
      match dict_get lk node_id with
      | None => raise (Python (KeyError node_id))
      | Some n =>
          '(id, lb, t, m) <~ get_node n ;;
          md <~ get_metadata m ;;
          m' <~ new (metadata_object md) ;;
          pn <~ new (PositionedNode_object id lb t m' x0 y0) ;;
          built <~ get_list nodes ;;
          _ <~ put nodes (list_object (built ++ [pn])) ;;
          place_rows node_lookup nodes x0 y_offset (S row_index) rest
      end
  end.

(** Lines 32-50; [column.sort()] writes the sorted list back into
    [columns]. *)
Fixpoint place_columns (node_lookup columns nodes : loc) (h : float)
    (level_index : nat) (sorted_levels : list Z) : M unit :=
  match sorted_levels with
  | [] => ret tt
  | level :: rest =>
      c <~ get_columns columns ;;
      let column := py_sorted str_ltb (dict_get_default c level []) in
      _ <~ put columns (columns_object (dict_set c level column)) ;;
      _ <~ place_rows node_lookup nodes (Binary64.column_x level_index)
             (Binary64.column_y_offset h (length column)) 0 column ;;
      place_columns node_lookup columns nodes h (S level_index) rest
  end.

(** Lines 20-52; the value is the reference of the [LayoutResult], whose
    [edges] is the list object of [plan.edges] itself. *)
Definition compute_layout (fuel : nat) (plan : loc)
    (canvas_size : option (float * float)) : M loc :=
  let '(w, h) :=
    match canvas_size with
    | Some c => c
    | None => Binary64.DEFAULT_CANVAS_SIZE
    end in
  levels <~ _assign_layers fuel plan ;;
  columns <~ new (columns_object []) ;;
  lv <~ get_levels levels ;;
  _ <~ for_each lv (group_node columns) ;;
  c <~ get_columns columns ;;
  let sorted_levels := py_sorted Z.ltb (dict_keys c) in
  nodes <~ new (list_object []) ;;
  node_lookup <~ node_map plan ;;
  _ <~ place_columns node_lookup columns nodes h 0 sorted_levels ;;
  '(_, edges) <~ get_plan plan ;;
  new (LayoutResult_object w h nodes edges).

(** ** What a store holds, read back as values *)

Definition read_node (s : store) (l : loc) : option FigureNode :=
  match nth_error s l with
  | Some (FigureNode_object i lb t m) =>
      match nth_error s m with
      | Some (metadata_object d) =>
          Some {| identifier := i; label := lb; node_type := t;
                  metadata := d |}
      | _ => None
      end
  | _ => None
  end.

Definition read_edge (s : store) (l : loc) : option FigureEdge :=
  match nth_error s l with
  | Some (FigureEdge_object src tgt lb) =>
      Some {| source := src; target := tgt; edge_label := lb |}
  | _ => None
  end.

Definition read_positioned (s : store) (l : loc)
    : option Binary64.PositionedNode :=
  match nth_error s l with
  | Some (PositionedNode_object i lb t m x0 y0) =>
      match nth_error s m with
      | Some (metadata_object d) =>
          Some {| Binary64.p_identifier := i; Binary64.p_label := lb;
                  Binary64.p_node_type := t; Binary64.p_metadata := d;
                  Binary64.x := x0; Binary64.y := y0 |}
      | _ => None
      end
  | _ => None
  end.

(** The values of a list of references, if each has one. *)
Fixpoint read_all {A : Type} (read : loc -> option A) (ls : list loc)
    : option (list A) :=
  match ls with
  | [] => Some []
  | l :: rest =>
      match read l, read_all read rest with
      | Some a, Some r => Some (a :: r)
      | _, _ => None
      end
  end.

(** The values of the objects of a list object. *)
Definition read_list {A : Type} (read : loc -> option A) (s : store)
    (l : loc) : option (list A) :=
  match nth_error s l with
  | Some (list_object items) => read_all read items
  | _ => None
  end.

Definition read_plan (s : store) (l : loc) : option FigurePlan :=
  match nth_error s l with
  | Some (FigurePlan_object ns es t d) =>
      match read_list (read_node s) s ns, read_list (read_edge s) s es with
      | Some nodes, Some edges =>
          Some {| nodes := nodes; edges := edges; title := t;
                  description := d |}
      | _, _ => None
      end
  | _ => None
  end.

Definition read_result (s : store) (l : loc) : option Binary64.LayoutResult :=
  match nth_error s l with
  | Some (LayoutResult_object w h ns es) =>
      match read_list (read_positioned s) s ns,
            read_list (read_edge s) s es with
      | Some nodes, Some edges =>
          Some {| Binary64.width := w; Binary64.height := h;
                  Binary64.r_nodes := nodes; Binary64.r_edges := edges |}
      | _, _ => None
      end
  | _ => None
  end.

(** A lookup dict of a store stands for a dict of nodes: the same keys in
    the same order, each with a reference to its node. *)
Definition lookup_reads (s : store) (lk : dict string loc)
    (m : dict string FigureNode) : Prop :=
  Forall2
    (fun kl kn => fst kl = fst kn /\ read_node s (snd kl) = Some (snd kn))
    lk m.

(** The objects that lines 41-50 make for the positioned nodes [acc], from
    reference [base] on: for each node the copy of its metadata, then the
    node. *)
Fixpoint placed_objects (base : loc) (acc : list Binary64.PositionedNode)
    : list object :=
  match acc with
  | [] => []
  | pn :: rest =>
      metadata_object (Binary64.p_metadata pn)
      :: PositionedNode_object (Binary64.p_identifier pn)
           (Binary64.p_label pn) (Binary64.p_node_type pn) base
           (Binary64.x pn) (Binary64.y pn)
      :: placed_objects (S (S base)) rest
  end.

(** The references of those nodes. *)
Fixpoint placed_refs (base : loc) (acc : list Binary64.PositionedNode)
    : list loc :=
  match acc with
  | [] => []
  | _ :: rest => S base :: placed_refs (S (S base)) rest
  end.

(** [columns] after [column.sort()] for each of [sorted_levels]. *)
Definition sorted_columns (sorted_levels : list Z)
    (columns : dict Z (list string)) : dict Z (list string) :=
  fold_left
    (fun c level =>
       dict_set c level (py_sorted str_ltb (dict_get_default c level [])))
    sorted_levels columns.

(** A store that holds [fan_plan]: the plan at 0, its lists at 1 and 2,
    the nodes "c", "b", "a" at 3, 5, 7 with their metadata behind them, and
    the edges at 9 and 10. *)
Definition fan_store : store :=
  [FigurePlan_object 1 2 None None;
   list_object [3; 5; 7];
   list_object [9; 10];
   FigureNode_object "c" "c" "process" 4; metadata_object [];
   FigureNode_object "b" "b" "process" 6; metadata_object [];
   FigureNode_object "a" "a" "process" 8; metadata_object [];
   FigureEdge_object "a" "b" None;
   FigureEdge_object "a" "c" None]%string.

(** The objects that [compute_layout] makes for [fan_plan] on the default
    canvas when the store holds [base] objects. *)
Definition fan_made (base : loc) : list object :=
  [adjacency_object [("b", ["a"]); ("c", ["a"])];
   adjacency_object [("a", ["b"; "c"])];
   levels_object [("a", 0%Z); ("b", 1%Z); ("c", 1%Z)];
   deque_object [];
   columns_object [(0%Z, ["a"]); (1%Z, ["b"; "c"])];
   list_object [base + 8; base + 10; base + 12];
   lookup_object [("c", 3); ("b", 5); ("a", 7)];
   metadata_object [];
   PositionedNode_object "a" "a" "process" (base + 7) 60 230;
   metadata_object [];
   PositionedNode_object "b" "b" "process" (base + 9) 260 230;
   metadata_object [];
   PositionedNode_object "c" "c" "process" (base + 11) 260 370;
   LayoutResult_object 800 600 (base + 5) 2]%string.

(** [fan_store] after one call of [compute_layout] and after two. *)
Definition fan_store_once : store := fan_store ++ fan_made 11.
Definition fan_store_twice : store := fan_store_once ++ fan_made 25.
End Machine.

(** * Properties *)

(** ** Dictionaries *)

Section DictFacts.
Context {K V : Type} `{HK : Hashable K}.
Implicit Types (d : dict K V) (k : K) (v : V).

Lemma key_eqb_refl k : key_eqb k k = true.
Proof. now apply key_eqb_eq. Qed.

Lemma key_eqb_neq k k' : k <> k' -> key_eqb k k' = false.
Proof.
  intros Hne. destruct (key_eqb k k') eqn:E; [|reflexivity].
  apply key_eqb_eq in E. contradiction.
Qed.

Lemma key_eq_dec k k' : {k = k'} + {k <> k'}.
Proof.
  destruct (key_eqb k k') eqn:E.
  - left. now apply key_eqb_eq.
  - right. intros ->. rewrite key_eqb_refl in E. discriminate.
Qed.

Lemma dict_get_set_same d k v : dict_get (dict_set d k v) k = Some v.
Proof.
  induction d as [|[k' v'] d IH]; simpl.
  - now rewrite key_eqb_refl.
  - destruct (key_eqb k k') eqn:E; simpl; rewrite E; auto.
Qed.

Lemma dict_get_set_other d k k' v :
  k <> k' -> dict_get (dict_set d k v) k' = dict_get d k'.
Proof.
  intros Hne. induction d as [|[k0 v0] d IH]; simpl.
  - rewrite key_eqb_neq; auto.
  - destruct (key_eqb k k0) eqn:E; simpl.
    + apply key_eqb_eq in E. subst k0.
      rewrite (key_eqb_neq (k:=k') (k':=k)); auto.
    + destruct (key_eqb k' k0); auto.
Qed.

Lemma dict_get_set d k k' v :
  dict_get (dict_set d k v) k' = if key_eqb k' k then Some v else dict_get d k'.
Proof.
  destruct (key_eq_dec k k') as [->|Hne].
  - now rewrite key_eqb_refl, dict_get_set_same.
  - rewrite dict_get_set_other by assumption.
    rewrite key_eqb_neq; auto.
Qed.

Lemma dict_get_In d k v : dict_get d k = Some v -> In (k, v) d.
Proof.
  induction d as [|[k' v'] d IH]; simpl; [discriminate|].
  destruct (key_eqb k k') eqn:E.
  - apply key_eqb_eq in E. intros [= ->]. subst. now left.
  - auto.
Qed.

Lemma dict_get_None d k : dict_get d k = None <-> ~ In k (dict_keys d).
Proof.
  induction d as [|[k' v'] d IH]; simpl; [tauto|].
  destruct (key_eqb k k') eqn:E.
  - apply key_eqb_eq in E. subst. split; [discriminate|]. intros C. tauto.
  - rewrite IH. split.
    + intros Hn [->|Hin]; [rewrite key_eqb_refl in E; discriminate | tauto].
    + tauto.
Qed.

Lemma dict_get_Some_key d k v : dict_get d k = Some v -> In k (dict_keys d).
Proof.
  intros Hg. apply dict_get_In in Hg.
  unfold dict_keys. now apply (in_map fst) in Hg.
Qed.

Lemma dict_key_get d k : In k (dict_keys d) -> exists v, dict_get d k = Some v.
Proof.
  intros Hin. destruct (dict_get d k) eqn:E; eauto.
  apply dict_get_None in E. contradiction.
Qed.

Lemma dict_mem_true d k : dict_mem d k = true <-> In k (dict_keys d).
Proof.
  unfold dict_mem. destruct (dict_get d k) eqn:E.
  - split; auto. intros _. eapply dict_get_Some_key; eauto.
  - split; [discriminate|]. intros Hin. apply dict_get_None in E. contradiction.
Qed.

Lemma dict_mem_false d k : dict_mem d k = false <-> ~ In k (dict_keys d).
Proof.
  rewrite <- dict_mem_true. destruct (dict_mem d k); split; congruence.
Qed.

Lemma dict_keys_set d k v :
  dict_keys (dict_set d k v) =
  if dict_mem d k then dict_keys d else dict_keys d ++ [k].
Proof.
  unfold dict_mem. induction d as [|[k' v'] d IH]; simpl; [reflexivity|].
  destruct (key_eqb k k') eqn:E; simpl; [reflexivity|].
  rewrite IH. destruct (dict_get d k); reflexivity.
Qed.

Lemma dict_keys_set_In d k v k' :
  In k' (dict_keys (dict_set d k v)) <-> k' = k \/ In k' (dict_keys d).
Proof.
  rewrite dict_keys_set. destruct (dict_mem d k) eqn:E.
  - apply dict_mem_true in E. split; [tauto|]. intros [->|]; auto.
  - rewrite in_app_iff. simpl. intuition.
Qed.

Lemma dict_keys_set_NoDup d k v :
  NoDup (dict_keys d) -> NoDup (dict_keys (dict_set d k v)).
Proof.
  intros Hnd. rewrite dict_keys_set. destruct (dict_mem d k) eqn:E; auto.
  apply dict_mem_false in E.
  apply NoDup_app; auto.
  - constructor; [intros []|constructor].
  - intros a Ha [->|[]]. contradiction.
Qed.

Lemma dict_In_get d k v : NoDup (dict_keys d) -> In (k, v) d -> dict_get d k = Some v.
Proof.
  induction d as [|[k' v'] d IH]; simpl; [tauto|].
  intros Hnd [[= -> ->]|Hin].
  - now rewrite key_eqb_refl.
  - inversion Hnd; subst.
    destruct (key_eqb k k') eqn:E; auto.
    apply key_eqb_eq in E. subst. exfalso. apply H1.
    now apply (in_map fst) in Hin.
Qed.

Lemma dict_setdefault_get d k v k' :
  dict_get (dict_setdefault d k v) k' =
  match dict_get d k' with
  | Some v' => Some v'
  | None => if key_eqb k' k then Some v else None
  end.
Proof.
  unfold dict_setdefault, dict_mem.
  destruct (dict_get d k) eqn:E.
  - destruct (dict_get d k') eqn:E'; auto.
    destruct (key_eqb k' k) eqn:Ek; auto.
    apply key_eqb_eq in Ek. congruence.
  - rewrite dict_get_set. destruct (key_eqb k' k) eqn:Ek.
    + apply key_eqb_eq in Ek. subst. now rewrite E.
    + destruct (dict_get d k'); auto.
Qed.
End DictFacts.

(** ** Sorting *)

Lemma filter_length_Permutation {A : Type} (f : A -> bool) (l l' : list A) :
  Permutation l l' -> length (filter f l) = length (filter f l').
Proof.
  induction 1; simpl; try congruence.
  - destruct (f x0); simpl; congruence.
  - destruct (f x0), (f y0); reflexivity.
Qed.

Lemma filter_none {A : Type} (f : A -> bool) (l : list A) :
  (forall z, In z l -> f z = false) -> filter f l = [].
Proof.
  induction l as [|a l IH]; simpl; intros Hf; [reflexivity|].
  rewrite (Hf a) by now left. apply IH. intros z Hz. apply Hf. now right.
Qed.

Section SortFacts.
Context {A : Type} (ltb : A -> A -> bool).
Hypothesis ltb_irrefl : forall a, ltb a a = false.
Hypothesis ltb_trans :
  forall a b c, ltb a b = true -> ltb b c = true -> ltb a c = true.
Hypothesis ltb_total : forall a b, ltb a b = false -> ltb b a = false -> a = b.

Let lt (a b : A) : Prop := ltb a b = true.

Lemma ltb_asym a b : ltb a b = true -> ltb b a = false.
Proof.
  intros Hab. destruct (ltb b a) eqn:E; [|reflexivity].
  rewrite <- (ltb_irrefl a). symmetry. eapply ltb_trans; eauto.
Qed.

Lemma insert_sorted_Permutation x l :
  Permutation (insert_sorted ltb x l) (x :: l).
Proof.
  induction l as [|y l IH]; simpl; [reflexivity|].
  destruct (ltb x y); [reflexivity|].
  rewrite IH. apply perm_swap.
Qed.

Lemma py_sorted_acc_Permutation l acc :
  Permutation (fold_left (fun a x => insert_sorted ltb x a) l acc) (acc ++ l).
Proof.
  revert acc. induction l as [|x l IH]; intros acc; simpl.
  - now rewrite app_nil_r.
  - rewrite IH, insert_sorted_Permutation.
    now rewrite <- Permutation_middle.
Qed.

Lemma py_sorted_Permutation l : Permutation (py_sorted ltb l) l.
Proof. unfold py_sorted. now rewrite py_sorted_acc_Permutation. Qed.

Lemma py_sorted_In l a : In a (py_sorted ltb l) <-> In a l.
Proof.
  split; apply Permutation_in;
    [apply py_sorted_Permutation | symmetry; apply py_sorted_Permutation].
Qed.

Lemma py_sorted_length l : length (py_sorted ltb l) = length l.
Proof. apply Permutation_length, py_sorted_Permutation. Qed.

Lemma insert_sorted_StronglySorted x l :
  ~ In x l -> StronglySorted lt l -> StronglySorted lt (insert_sorted ltb x l).
Proof.
  induction l as [|y l IH]; simpl; intros Hnin Hs.
  - constructor; constructor.
  - apply StronglySorted_inv in Hs. destruct Hs as [Hs Hall].
    destruct (ltb x y) eqn:E.
    + constructor; [constructor; auto|].
      constructor; [exact E|].
      rewrite Forall_forall in *. intros z Hz.
      eapply ltb_trans; [exact E|]. now apply Hall.
    + constructor; [apply IH; tauto|].
      rewrite Forall_forall in *. intros z Hz.
      apply (Permutation_in _ (insert_sorted_Permutation x l)) in Hz.
      destruct Hz as [<-|Hz]; [|now apply Hall].
      unfold lt. destruct (ltb y x) eqn:E'; [reflexivity|].
      exfalso. apply Hnin. left. now apply ltb_total.
Qed.

Lemma py_sorted_acc_StronglySorted l acc :
  NoDup (acc ++ l) -> StronglySorted lt acc ->
  StronglySorted lt (fold_left (fun a x => insert_sorted ltb x a) l acc).
Proof.
  revert acc. induction l as [|x l IH]; intros acc Hnd Hs; simpl; [exact Hs|].
  apply IH.
  - eapply Permutation_NoDup; [|exact Hnd].
    rewrite insert_sorted_Permutation. symmetry. apply Permutation_middle.
  - apply insert_sorted_StronglySorted; [|exact Hs].
    apply NoDup_remove_2 in Hnd. rewrite in_app_iff in Hnd. tauto.
Qed.

Lemma py_sorted_StronglySorted l :
  NoDup l -> StronglySorted lt (py_sorted ltb l).
Proof.
  intros Hnd. apply py_sorted_acc_StronglySorted; [exact Hnd|constructor].
Qed.

(** In a strictly sorted list, the index of an element is the number of
    elements smaller than it. *)
Lemma sorted_index_count l i a :
  StronglySorted lt l -> nth_error l i = Some a ->
  length (filter (fun z => ltb z a) l) = i.
Proof.
  intros Hs. revert i. induction Hs as [|b l Hs IH Hall]; intros i Hi.
  - destruct i; discriminate.
  - rewrite Forall_forall in Hall. destruct i as [|i]; simpl in *.
    + injection Hi as ->. rewrite ltb_irrefl.
      rewrite filter_none; [reflexivity|].
      intros z Hz. apply ltb_asym. now apply Hall.
    + assert (Hin : In a l) by (eapply nth_error_In; eauto).
      rewrite (Hall a Hin). simpl. f_equal. now apply IH.
Qed.

Lemma py_sorted_index_count l i a :
  NoDup l -> nth_error (py_sorted ltb l) i = Some a ->
  length (filter (fun z => ltb z a) l) = i.
Proof.
  intros Hnd Hi.
  rewrite <- (filter_length_Permutation _ (py_sorted_Permutation l)).
  apply sorted_index_count; auto using py_sorted_StronglySorted.
Qed.

End SortFacts.

Lemma str_ltb_irrefl a : str_ltb a a = false.
Proof.
  unfold str_ltb. destruct (String_as_OT.compare_spec a a) as [_|H|H]; auto;
    exfalso; exact (StrictOrder_Irreflexive (StrictOrder := String_as_OT.lt_strorder) a H).
Qed.

Lemma str_ltb_lt a b : str_ltb a b = true <-> String_as_OT.lt a b.
Proof.
  unfold str_ltb, String_as_OT.lt.
  destruct (String_as_OT.compare a b); split; congruence.
Qed.

Lemma str_ltb_trans a b c :
  str_ltb a b = true -> str_ltb b c = true -> str_ltb a c = true.
Proof.
  rewrite !str_ltb_lt.
  apply (StrictOrder_Transitive (StrictOrder := String_as_OT.lt_strorder)).
Qed.

Lemma str_ltb_total a b : str_ltb a b = false -> str_ltb b a = false -> a = b.
Proof.
  unfold str_ltb.
  destruct (String_as_OT.compare_spec a b) as [E|H|H]; auto; [discriminate|].
  intros _. apply str_ltb_lt in H. unfold str_ltb in H.
  destruct (String_as_OT.compare b a); congruence.
Qed.

Lemma Z_ltb_trans a b c :
  (a <? b)%Z = true -> (b <? c)%Z = true -> (a <? c)%Z = true.
Proof. rewrite !Z.ltb_lt. lia. Qed.

Lemma Z_ltb_total a b : (a <? b)%Z = false -> (b <? a)%Z = false -> a = b.
Proof. rewrite !Z.ltb_ge. lia. Qed.

(** ** Lists *)

Lemma StronglySorted_app {A : Type} (R : A -> A -> Prop) (l1 l2 : list A) :
  StronglySorted R l1 -> StronglySorted R l2 ->
  (forall a b, In a l1 -> In b l2 -> R a b) ->
  StronglySorted R (l1 ++ l2).
Proof.
  induction l1 as [|a l1 IH]; simpl; intros H1 H2 H12; [exact H2|].
  apply StronglySorted_inv in H1. destruct H1 as [H1 Ha].
  constructor.
  - apply IH; auto.
  - apply Forall_app. split; [exact Ha|].
    apply Forall_forall. intros b Hb. apply H12; auto.
Qed.

Lemma StronglySorted_NoDup {A : Type} (R : A -> A -> Prop) (l : list A) :
  (forall a, ~ R a a) -> StronglySorted R l -> NoDup l.
Proof.
  intros Hirr. induction 1 as [|a l Hs IH Hall]; constructor; auto.
  intros Hin. rewrite Forall_forall in Hall. exact (Hirr a (Hall a Hin)).
Qed.

Lemma Forall2_In_r {A B : Type} (T : A -> B -> Prop) (l : list A) (l' : list B) b :
  Forall2 T l l' -> In b l' -> exists a, In a l /\ T a b.
Proof.
  induction 1 as [|a0 b0 l l' H0 Hl IH]; simpl; [tauto|].
  intros [<-|Hin]; [exists a0; auto|].
  destruct (IH Hin) as (a & Ha & HT). exists a; auto.
Qed.

Lemma Forall2_In_l {A B : Type} (T : A -> B -> Prop) (l : list A) (l' : list B) a :
  Forall2 T l l' -> In a l -> exists b, In b l' /\ T a b.
Proof.
  induction 1 as [|a0 b0 l l' H0 Hl IH]; simpl; [tauto|].
  intros [<-|Hin]; [exists b0; auto|].
  destruct (IH Hin) as (b & Hb & HT). exists b; auto.
Qed.

Lemma StronglySorted_Forall2 {A B : Type} (R : A -> A -> Prop)
    (R' : B -> B -> Prop) (T : A -> B -> Prop) (l : list A) (l' : list B) :
  (forall a b a' b', T a a' -> T b b' -> R a b -> R' a' b') ->
  Forall2 T l l' -> StronglySorted R l -> StronglySorted R' l'.
Proof.
  intros Hmono. induction 1 as [|a a' l l' Ha Hl IH]; intros Hs; [constructor|].
  apply StronglySorted_inv in Hs. destruct Hs as [Hs Hall].
  constructor; [auto|].
  rewrite Forall_forall in *. intros b' Hb'.
  destruct (@Forall2_In_r _ _ T l l' b' Hl Hb') as (b & Hb & Hbb).
  eapply Hmono; eauto.
Qed.

Lemma Forall2_concat {A B : Type} (T : A -> B -> Prop)
    (ls : list (list A)) (ls' : list (list B)) :
  Forall2 (Forall2 T) ls ls' -> Forall2 T (concat ls) (concat ls').
Proof.
  induction 1; simpl; [constructor|]. now apply Forall2_app.
Qed.

Lemma Forall2i_Forall2 {A B : Type} (R : nat -> A -> B -> Prop)
    (T : A -> B -> Prop) (l : list A) (l' : list B) (i : nat) :
  (forall j a b, nth_error l j = Some a -> R (i + j) a b -> T a b) ->
  Forall2i R i l l' -> Forall2 T l l'.
Proof.
  intros HRT H. induction H as [|i a b l l' Hab Hl IH]; constructor.
  - apply (HRT 0 a b); [reflexivity|]. now rewrite Nat.add_0_r.
  - apply IH. intros j a0 b0 Hj HR. apply (HRT (S j) a0 b0); [exact Hj|].
    now rewrite Nat.add_succ_r.
Qed.

(** ** Grouping identifiers by layer (lines 25-27) *)

Lemma dict_get_default_set {K V : Type} `{Hashable K}
    (d : dict K V) (k k' : K) (v dflt : V) :
  dict_get_default (dict_set d k v) k' dflt =
  if key_eqb k' k then v else dict_get_default d k' dflt.
Proof.
  unfold dict_get_default. rewrite dict_get_set.
  destruct (key_eqb k' k); reflexivity.
Qed.

Lemma group_columns_fold levels :
  group_columns levels = fold_left group_step levels [].
Proof. reflexivity. Qed.

Lemma group_fold_get levels : forall columns lv,
  dict_get_default (fold_left group_step levels columns) lv [] =
  dict_get_default columns lv [] ++ layer_members levels lv.
Proof.
  unfold layer_members.
  induction levels as [|[id l] levels IH]; intros columns lv; simpl.
  - now rewrite app_nil_r.
  - rewrite IH. unfold dict_append. rewrite dict_get_default_set.
    simpl. rewrite (Z.eqb_sym l lv).
    destruct (Z.eqb lv l) eqn:E; simpl.
    + apply Z.eqb_eq in E. subst. now rewrite <- app_assoc.
    + reflexivity.
Qed.

Lemma group_fold_keys levels : forall columns lv,
  In lv (dict_keys (fold_left group_step levels columns)) <->
  In lv (dict_keys columns) \/ In lv (dict_values levels).
Proof.
  induction levels as [|[id l] levels IH]; intros columns lv; simpl.
  - tauto.
  - rewrite IH. unfold dict_append. rewrite dict_keys_set_In.
    intuition.
Qed.

Lemma group_fold_NoDup levels : forall columns,
  NoDup (dict_keys columns) ->
  NoDup (dict_keys (fold_left group_step levels columns)).
Proof.
  induction levels as [|[id l] levels IH]; intros columns Hnd; simpl; auto.
  apply IH. unfold dict_append. now apply dict_keys_set_NoDup.
Qed.

Lemma group_columns_get levels lv :
  dict_get_default (group_columns levels) lv [] = layer_members levels lv.
Proof. rewrite group_columns_fold, group_fold_get. reflexivity. Qed.

Lemma group_columns_keys levels lv :
  In lv (dict_keys (group_columns levels)) <-> In lv (dict_values levels).
Proof. rewrite group_columns_fold, group_fold_keys. simpl. tauto. Qed.

Lemma group_columns_NoDup levels : NoDup (dict_keys (group_columns levels)).
Proof. rewrite group_columns_fold. apply group_fold_NoDup. constructor. Qed.

Lemma layer_members_In (levels : dict string Z) lv id :
  NoDup (dict_keys levels) ->
  In id (layer_members levels lv) <-> dict_get levels id = Some lv.
Proof.
  intros Hnd. unfold layer_members. rewrite in_map_iff. split.
  - intros ([id' l] & Heq & Hin). simpl in Heq. subst id'.
    apply filter_In in Hin. destruct Hin as [Hin Hl]. simpl in Hl.
    apply Z.eqb_eq in Hl. subst. now apply dict_In_get.
  - intros Hg. exists (id, lv). split; [reflexivity|].
    apply filter_In. split; [now apply dict_get_In|]. simpl. apply Z.eqb_refl.
Qed.

Lemma layer_members_NoDup (levels : dict string Z) lv :
  NoDup (dict_keys levels) -> NoDup (layer_members levels lv).
Proof.
  unfold layer_members, dict_keys.
  induction levels as [|[id l] levels IH]; simpl; intros Hnd; [constructor|].
  inversion Hnd as [|? ? Hnin Hnd']; subst.
  destruct (Z.eqb l lv); simpl; auto.
  constructor; auto.
  intros Hin. apply Hnin. apply in_map_iff in Hin.
  destruct Hin as (kv & Hkv & Hin). apply filter_In in Hin.
  rewrite <- Hkv. apply in_map. tauto.
Qed.

Lemma dict_values_In {K V : Type} `{Hashable K} (d : dict K V) v :
  In v (dict_values d) <-> exists k, In (k, v) d.
Proof.
  unfold dict_values. rewrite in_map_iff. split.
  - intros ([k v'] & Heq & Hin). simpl in Heq. subst. eauto.
  - intros (k & Hin). exists (k, v). auto.
Qed.

(** ** Placement (lines 32-50) *)

Lemma place_rows_Return node_lookup x0 y_offset column :
  forall row_index acc out,
    place_rows node_lookup x0 y_offset row_index column acc = Return out ->
    exists new,
      out = acc ++ new /\
      Forall2i (row_placed node_lookup x0 y_offset) row_index column new.
Proof.
  induction column as [|id column IH]; intros r acc out; simpl.
  - intros [= <-]. exists []. split; [now rewrite app_nil_r|constructor].
  - destruct (dict_get node_lookup id) as [node|] eqn:E; [|discriminate].
    intros Hp. apply IH in Hp. destruct Hp as (new & -> & Hnew).
    eexists (_ :: new). split; [now rewrite <- app_assoc|].
    constructor; [|exact Hnew].
    exists node. split; [exact E|reflexivity].
Qed.

Lemma place_rows_Raise node_lookup x0 y_offset column :
  forall row_index acc e,
    place_rows node_lookup x0 y_offset row_index column acc = Raise e ->
    exists id, e = KeyError id /\ In id column /\ dict_get node_lookup id = None.
Proof.
  induction column as [|id column IH]; intros r acc e; simpl; [discriminate|].
  destruct (dict_get node_lookup id) as [node|] eqn:E.
  - intros Hp. apply IH in Hp. destruct Hp as (id' & -> & Hin & Hn). eauto.
  - intros [= <-]. eauto.
Qed.

Lemma place_rows_fuel node_lookup x0 y_offset column :
  forall row_index acc,
    place_rows node_lookup x0 y_offset row_index column acc <> OutOfFuel.
Proof.
  induction column as [|id column IH]; intros r acc; simpl; [discriminate|].
  destruct (dict_get node_lookup id); [apply IH|discriminate].
Qed.

Lemma place_columns_Return node_lookup columns h sorted_levels :
  forall level_index acc out,
    place_columns node_lookup columns h level_index sorted_levels acc = Return out ->
    exists news,
      out = acc ++ concat news /\
      Forall2i (column_placed node_lookup columns h) level_index sorted_levels news.
Proof.
  induction sorted_levels as [|lv sl IH]; intros c acc out; simpl.
  - intros [= <-]. exists []. split; [now rewrite app_nil_r|constructor].
  - fold (sorted_column columns lv).
    destruct (place_rows node_lookup (column_x c)
                (column_y_offset h (length (sorted_column columns lv))) 0
                (sorted_column columns lv) acc) as [acc'|e|] eqn:E; simpl;
      try discriminate.
    intros Hp. apply IH in Hp. destruct Hp as (news & -> & Hnews).
    apply place_rows_Return in E. destruct E as (new & -> & Hnew).
    exists (new :: news). split; [simpl; now rewrite <- app_assoc|].
    constructor; assumption.
Qed.

Lemma place_columns_Raise node_lookup columns h sorted_levels :
  forall level_index acc e,
    place_columns node_lookup columns h level_index sorted_levels acc = Raise e ->
    exists lv id,
      e = KeyError id /\ In lv sorted_levels /\
      In id (sorted_column columns lv) /\ dict_get node_lookup id = None.
Proof.
  induction sorted_levels as [|lv sl IH]; intros c acc e; simpl; [discriminate|].
  fold (sorted_column columns lv).
  destruct (place_rows node_lookup (column_x c)
              (column_y_offset h (length (sorted_column columns lv))) 0
              (sorted_column columns lv) acc) as [acc'|e'|] eqn:E; simpl;
    try discriminate.
  - intros Hp. apply IH in Hp. destruct Hp as (lv' & id & -> & Hin & Hid & Hn).
    exists lv', id. auto.
  - intros [= <-]. apply place_rows_Raise in E.
    destruct E as (id & -> & Hin & Hn). exists lv, id. auto.
Qed.

Lemma place_columns_fuel node_lookup columns h sorted_levels :
  forall level_index acc,
    place_columns node_lookup columns h level_index sorted_levels acc <> OutOfFuel.
Proof.
  induction sorted_levels as [|lv sl IH]; intros c acc; simpl; [discriminate|].
  destruct (place_rows node_lookup (column_x c) _ 0 _ acc) as [acc'|e'|] eqn:E;
    simpl; [apply IH|discriminate|].
  exfalso. exact (place_rows_fuel _ _ _ _ _ _ E).
Qed.

(** ** The output, read off the layer assignment *)

Lemma Forall2_map_l {A B C : Type} (f : A -> B) (T : B -> C -> Prop)
    (l : list A) (l' : list C) :
  Forall2 (fun a c => T (f a) c) l l' -> Forall2 T (map f l) l'.
Proof. induction 1; simpl; constructor; auto. Qed.

Lemma layout_lt_irrefl levels a : ~ layout_lt levels a a.
Proof.
  intros (la & lb & Ha & Hb & [Hlt|[_ Hlt]]).
  - rewrite Ha in Hb. injection Hb as <-. lia.
  - rewrite str_ltb_irrefl in Hlt. discriminate.
Qed.

Section LayoutView.
Variable plan : FigurePlan.
Variable levels : dict string Z.
Variable h : Q.
Hypothesis levels_NoDup : NoDup (dict_keys levels).

Let columns := group_columns levels.
Let sorted_levels := py_sorted Z.ltb (dict_keys columns).
Let ltZ (a b : Z) : Prop := Z.ltb a b = true.

Lemma sorted_levels_sorted : StronglySorted ltZ sorted_levels.
Proof.
  apply py_sorted_StronglySorted.
  - exact @Z_ltb_trans.
  - exact @Z_ltb_total.
  - apply group_columns_NoDup.
Qed.

Lemma sorted_levels_In lv : In lv sorted_levels <-> In lv (dict_values levels).
Proof.
  unfold sorted_levels. rewrite py_sorted_In. apply group_columns_keys.
Qed.

Lemma sorted_levels_NoDup : NoDup sorted_levels.
Proof.
  eapply Permutation_NoDup.
  - symmetry. apply py_sorted_Permutation.
  - apply group_columns_NoDup.
Qed.

Lemma sorted_levels_occupied : Permutation sorted_levels (occupied_levels levels).
Proof.
  apply NoDup_Permutation.
  - apply sorted_levels_NoDup.
  - apply NoDup_nodup.
  - intros lv. unfold occupied_levels. rewrite nodup_In. apply sorted_levels_In.
Qed.

Lemma sorted_levels_index c lv :
  nth_error sorted_levels c = Some lv -> column_index levels lv = c.
Proof.
  intros Hc. unfold column_index.
  rewrite <- (filter_length_Permutation _ sorted_levels_occupied).
  eapply sorted_index_count; eauto using sorted_levels_sorted.
  - exact @Z.ltb_irrefl.
  - exact @Z_ltb_trans.
Qed.

Lemma sorted_column_members lv :
  sorted_column columns lv = py_sorted str_ltb (layer_members levels lv).
Proof. unfold sorted_column, columns. now rewrite group_columns_get. Qed.

Lemma sorted_column_In lv id :
  In id (sorted_column columns lv) <-> dict_get levels id = Some lv.
Proof.
  rewrite sorted_column_members, py_sorted_In. now apply layer_members_In.
Qed.

Lemma sorted_column_length lv :
  length (sorted_column columns lv) = layer_size levels lv.
Proof. rewrite sorted_column_members. apply py_sorted_length. Qed.

Lemma sorted_column_sorted lv :
  StronglySorted (fun a b => str_ltb a b = true) (sorted_column columns lv).
Proof.
  rewrite sorted_column_members. apply py_sorted_StronglySorted.
  - exact @str_ltb_trans.
  - exact @str_ltb_total.
  - now apply layer_members_NoDup.
Qed.

Lemma sorted_column_index lv i id :
  nth_error (sorted_column columns lv) i = Some id -> row_rank levels lv id = i.
Proof.
  rewrite sorted_column_members. intros Hi. unfold row_rank.
  eapply py_sorted_index_count; eauto.
  - exact @str_ltb_irrefl.
  - exact @str_ltb_trans.
  - exact @str_ltb_total.
  - now apply layer_members_NoDup.
Qed.

Lemma concat_columns_sorted sl :
  StronglySorted ltZ sl ->
  StronglySorted (layout_lt levels) (concat (map (sorted_column columns) sl)).
Proof.
  induction 1 as [|lv sl Hs IH Hall]; simpl; [constructor|].
  rewrite Forall_forall in Hall.
  apply StronglySorted_app; [|exact IH|].
  - assert (Hin : forall id, In id (sorted_column columns lv) ->
                    dict_get levels id = Some lv)
      by (intros id; apply sorted_column_In).
    generalize (sorted_column_sorted lv) Hin.
    generalize (sorted_column columns lv) as col.
    induction 1 as [|a col Hc IHc Ha]; intros Hlv; constructor.
    + apply IHc. intros id Hid. apply Hlv. now right.
    + rewrite Forall_forall in *. intros b Hb.
      exists lv, lv. repeat split.
      * apply Hlv. now left.
      * apply Hlv. now right.
      * right. split; [reflexivity|]. now apply Ha.
  - intros a b Ha Hb. apply in_concat in Hb.
    destruct Hb as (col & Hcol & Hb). apply in_map_iff in Hcol.
    destruct Hcol as (lv' & <- & Hlv').
    apply sorted_column_In in Ha. apply sorted_column_In in Hb.
    exists lv, lv'. repeat split; auto.
    left. apply Z.ltb_lt. now apply Hall.
Qed.

Lemma visit_order_sorted : StronglySorted (layout_lt levels) (visit_order levels).
Proof. apply concat_columns_sorted, sorted_levels_sorted. Qed.

Lemma visit_order_In id : In id (visit_order levels) <-> In id (dict_keys levels).
Proof.
  unfold visit_order. rewrite in_concat. split.
  - intros (col & Hcol & Hid). apply in_map_iff in Hcol.
    destruct Hcol as (lv & <- & _). apply sorted_column_In in Hid.
    eapply dict_get_Some_key; eauto.
  - intros Hin. apply dict_key_get in Hin. destruct Hin as (lv & Hg).
    exists (sorted_column columns lv). split.
    + apply in_map, sorted_levels_In, dict_values_In.
      exists id. now apply dict_get_In.
    + now apply sorted_column_In.
Qed.

Lemma visit_order_Permutation : Permutation (visit_order levels) (dict_keys levels).
Proof.
  apply NoDup_Permutation.
  - eapply StronglySorted_NoDup; [|apply visit_order_sorted].
    apply layout_lt_irrefl.
  - exact levels_NoDup.
  - apply visit_order_In.
Qed.

Lemma place_columns_placed out :
  place_columns (node_map plan) columns h 0 sorted_levels [] = Return out ->
  Forall2 (placed plan levels h) (visit_order levels) out.
Proof.
  intros Hp. apply place_columns_Return in Hp.
  destruct Hp as (news & -> & Hnews). simpl.
  apply Forall2_concat, Forall2_map_l.
  eapply Forall2i_Forall2; [|exact Hnews].
  intros c lv new Hc Hcol. simpl in Hcol. unfold column_placed in Hcol.
  eapply Forall2i_Forall2; [|exact Hcol].
  intros i id pn Hi (node & Hnode & ->). simpl.
  assert (Hg : dict_get levels id = Some lv).
  { apply sorted_column_In. eapply nth_error_In; eauto. }
  exists lv, node. repeat split; auto.
  rewrite (sorted_levels_index _ Hc), sorted_column_length,
    (sorted_column_index _ _ Hi).
  reflexivity.
Qed.

End LayoutView.

(** ** The adjacency dictionaries (lines 56-60) *)

Lemma build_adjacency_fold es : forall incoming outgoing,
  fold_left
    (fun '(incoming, outgoing) edge =>
       (dict_append incoming (target edge) (source edge),
        dict_append outgoing (source edge) (target edge)))
    es (incoming, outgoing)
  = (incoming_of es incoming, outgoing_of es outgoing).
Proof.
  induction es as [|e es IH]; intros incoming outgoing; simpl; [reflexivity|].
  apply IH.
Qed.

Lemma build_adjacency_eq es :
  build_adjacency es = (incoming_of es [], outgoing_of es []).
Proof. apply build_adjacency_fold. Qed.

Lemma incoming_of_keys es : forall incoming t,
  In t (dict_keys (incoming_of es incoming)) <->
  In t (dict_keys incoming) \/ exists e, In e es /\ target e = t.
Proof.
  induction es as [|e es IH]; intros incoming t; simpl.
  - split; [tauto|]. intros [Hin|(e & [] & _)]. exact Hin.
  - unfold incoming_of in IH. rewrite IH. unfold dict_append.
    rewrite dict_keys_set_In. split.
    + intros [[->|Hin]|(e' & He' & Ht)]; eauto.
    + intros [Hin|(e' & [<-|He'] & Ht)]; eauto.
Qed.

Lemma outgoing_of_get es : forall outgoing s t,
  In t (dict_get_default (outgoing_of es outgoing) s []) <->
  In t (dict_get_default outgoing s []) \/
  exists e, In e es /\ source e = s /\ target e = t.
Proof.
  induction es as [|e es IH]; intros outgoing s t; simpl.
  - split; [tauto|]. intros [Hin|(e & [] & _)]. exact Hin.
  - unfold outgoing_of in IH. rewrite IH. unfold dict_append.
    rewrite dict_get_default_set. simpl.
    destruct (String.eqb s (source e)) eqn:E.
    + apply String.eqb_eq in E. subst s. rewrite in_app_iff. simpl. split.
      * intros [[Hin|[<-|[]]]|(e' & He' & Hs & Ht)]; eauto 6.
      * intros [Hin|(e' & [<-|He'] & Hs & Ht)]; eauto 6.
    + apply String.eqb_neq in E. split.
      * intros [Hin|(e' & He' & Hs & Ht)]; eauto 6.
      * intros [Hin|(e' & [<-|He'] & Hs & Ht)]; eauto 6. congruence.
Qed.

Section Adjacency.
Variable plan : FigurePlan.

Lemma successors_edge s t : In t (successors plan s) <-> edge_rel plan s t.
Proof.
  unfold successors, outgoing, edge_rel. rewrite outgoing_of_get. simpl.
  tauto.
Qed.

Lemma incoming_mem t :
  dict_mem (incoming plan) t = true <-> exists e, In e (edges plan) /\ target e = t.
Proof.
  rewrite dict_mem_true. unfold incoming. rewrite incoming_of_keys. simpl.
  tauto.
Qed.
End Adjacency.

(** ** The relaxation loop (lines 74-81) *)

Section Loop.
Variable og : dict string (list string).

(** An invariant of the loop holds when the queue has drained. *)
Lemma relax_loop_invariant (P : dict string Z -> list string -> Prop) :
  (forall levels current rest levels' queue',
      P levels (current :: rest) ->
      visit og levels current rest = Return (levels', queue') ->
      P levels' queue') ->
  forall fuel levels queue out,
    P levels queue -> relax_loop fuel og levels queue = Return out -> P out [].
Proof.
  intros Hstep. induction fuel as [|fuel IH]; intros levels queue out HP;
    destruct queue as [|current rest]; simpl; try discriminate;
    try (intros [= <-]; exact HP).
  destruct (visit og levels current rest) as [[levels' queue']|e|] eqn:E;
    simpl; try discriminate.
  apply IH. eapply Hstep; eauto.
Qed.

(** The loop raises only where an iteration does. *)
Lemma relax_loop_no_Raise (P : dict string Z -> list string -> Prop) :
  (forall levels current rest levels' queue',
      P levels (current :: rest) ->
      visit og levels current rest = Return (levels', queue') ->
      P levels' queue') ->
  (forall levels current rest e,
      P levels (current :: rest) -> visit og levels current rest <> Raise e) ->
  forall fuel levels queue e,
    P levels queue -> relax_loop fuel og levels queue <> Raise e.
Proof.
  intros Hstep Hsafe. induction fuel as [|fuel IH]; intros levels queue e HP;
    destruct queue as [|current rest]; simpl; try discriminate.
  destruct (visit og levels current rest) as [[levels' queue']|e'|] eqn:E; simpl.
  - apply IH. eapply Hstep; eauto.
  - exfalso. eapply Hsafe; eauto.
  - discriminate.
Qed.

(** A measure that every iteration decreases bounds the fuel needed. *)
Lemma relax_loop_terminates (P : dict string Z -> list string -> Prop)
    (mu : dict string Z -> list string -> nat) :
  (forall levels current rest,
      P levels (current :: rest) ->
      exists levels' queue',
        visit og levels current rest = Return (levels', queue') /\
        P levels' queue' /\
        mu levels' queue' < mu levels (current :: rest)) ->
  forall fuel levels queue,
    P levels queue -> mu levels queue <= fuel ->
    exists out, relax_loop fuel og levels queue = Return out.
Proof.
  intros Hstep. induction fuel as [|fuel IH]; intros levels queue HP Hmu;
    destruct queue as [|current rest]; simpl; eauto.
  - destruct (Hstep _ _ _ HP) as (l' & q' & _ & _ & Hlt). lia.
  - destruct (Hstep _ _ _ HP) as (l' & q' & -> & HP' & Hlt). simpl.
    apply IH; [exact HP'|lia].
Qed.

(** More fuel does not change a result. *)
Lemma relax_loop_fuel_mono fuel : forall fuel' levels queue out,
  relax_loop fuel og levels queue = Return out -> fuel <= fuel' ->
  relax_loop fuel' og levels queue = Return out.
Proof.
  induction fuel as [|fuel IH]; intros fuel' levels queue out;
    destruct queue as [|current rest]; simpl; try discriminate.
  - intros [= <-] _. destruct fuel'; reflexivity.
  - intros [= <-] _. destruct fuel'; reflexivity.
  - intros Hr Hle. destruct fuel' as [|fuel']; [lia|]. simpl.
    destruct (visit og levels current rest) as [[levels' queue']|e|];
      simpl in *; try discriminate.
    apply IH; [exact Hr|lia].
Qed.
End Loop.

(** *** One relaxation *)

Lemma levels_le_refl levels : levels_le levels levels.
Proof. intros id l Hl. exists l. split; [exact Hl|lia]. Qed.

Lemma levels_le_trans l1 l2 l3 : levels_le l1 l2 -> levels_le l2 l3 -> levels_le l1 l3.
Proof.
  intros H12 H23 id l Hl. destruct (H12 _ _ Hl) as (l' & Hl' & Hle).
  destruct (H23 _ _ Hl') as (l'' & Hl'' & Hle'). exists l''. split; [auto|lia].
Qed.

Lemma relax_cases cl levels queue n :
  (relax cl (levels, queue) n = (levels, queue) /\
   exists l, dict_get levels n = Some l /\ (cl + 1 <= l)%Z) \/
  (relax cl (levels, queue) n = (dict_set levels n (cl + 1)%Z, queue ++ [n]) /\
   forall l, dict_get levels n = Some l -> (l < cl + 1)%Z).
Proof.
  unfold relax. destruct (dict_get levels n) as [l|] eqn:E.
  - destruct (cl + 1 >? l)%Z eqn:Hgt.
    + right. split; [reflexivity|]. intros l' [= <-]. lia.
    + left. split; [reflexivity|]. exists l. split; [reflexivity|]. lia.
  - right. split; [reflexivity|]. discriminate.
Qed.

Lemma relax_levels_le cl levels queue n :
  levels_le levels (fst (relax cl (levels, queue) n)).
Proof.
  destruct (relax_cases cl levels queue n) as [[-> _]|[-> Hlt]]; simpl.
  - apply levels_le_refl.
  - intros id l Hl. rewrite dict_get_set. simpl.
    destruct (String.eqb id n) eqn:E.
    + apply String.eqb_eq in E. subst. exists (cl + 1)%Z. split; [reflexivity|].
      specialize (Hlt _ Hl). lia.
    + exists l. split; [exact Hl|lia].
Qed.

Lemma fold_relax_levels_le cl ns : forall levels queue,
  levels_le levels (fst (fold_left (relax cl) ns (levels, queue))).
Proof.
  induction ns as [|n ns IH]; intros levels queue; cbn [fold_left].
  - apply levels_le_refl.
  - apply levels_le_trans with (l2 := fst (relax cl (levels, queue) n));
      [apply relax_levels_le|].
    destruct (relax cl (levels, queue) n) as [levels' queue']. apply IH.
Qed.

Lemma fold_relax_ind cl (P : dict string Z -> list string -> Prop) ns :
  (forall levels queue n,
      In n ns -> P levels queue ->
      (forall l, dict_get levels n = Some l -> (l < cl + 1)%Z) ->
      P (dict_set levels n (cl + 1)%Z) (queue ++ [n])) ->
  forall levels queue,
    P levels queue ->
    P (fst (fold_left (relax cl) ns (levels, queue)))
      (snd (fold_left (relax cl) ns (levels, queue))).
Proof.
  induction ns as [|n ns IH]; intros Hstep levels queue HP; cbn [fold_left].
  - exact HP.
  - assert (IH' := fun H => IH H).
    destruct (relax_cases cl levels queue n) as [[-> _]|[-> Hlt]].
    + apply IH; [|exact HP]. intros l q m Hm. apply Hstep. now right.
    + apply IH.
      * intros l q m Hm. apply Hstep. now right.
      * apply Hstep; auto. now left.
Qed.

Lemma fold_relax_reaches cl ns : forall levels queue t,
  In t ns ->
  exists lt, dict_get (fst (fold_left (relax cl) ns (levels, queue))) t = Some lt /\
             (cl + 1 <= lt)%Z.
Proof.
  induction ns as [|n ns IH]; intros levels queue t; cbn [fold_left In]; [tauto|].
  intros [->|Hin].
  - assert (Hn : exists l, dict_get (fst (relax cl (levels, queue) t)) t = Some l /\
                           (cl + 1 <= l)%Z).
    { destruct (relax_cases cl levels queue t) as [[-> Hl]|[-> _]]; simpl.
      - exact Hl.
      - exists (cl + 1)%Z. rewrite dict_get_set_same. split; [reflexivity|lia]. }
    destruct Hn as (l & Hl & Hle).
    destruct (relax cl (levels, queue) t) as [levels' queue']. simpl in Hl.
    destruct (fold_relax_levels_le cl ns levels' queue' _ Hl) as (l' & Hl' & Hle').
    exists l'. split; [exact Hl'|lia].
  - destruct (relax cl (levels, queue) n) as [levels' queue']. now apply IH.
Qed.

(** *** Invariants of the loop *)

Section Relaxation.
Variable plan : FigurePlan.

Lemma successors_universe s t : In t (successors plan s) -> In t (universe plan).
Proof.
  intros Hin. apply successors_edge in Hin. destruct Hin as (e & He & _ & <-).
  unfold universe. apply in_or_app. right. now apply in_map.
Qed.

Lemma visit_Return levels current rest levels' queue' :
  visit (outgoing plan) levels current rest = Return (levels', queue') ->
  exists cl,
    dict_get levels current = Some cl /\
    fold_left (relax cl) (successors plan current) (levels, rest)
    = (levels', queue').
Proof.
  unfold visit. destruct (dict_get levels current) as [cl|]; [|discriminate].
  intros [= E]. exists cl. split; [reflexivity|exact E].
Qed.

Lemma visit_well_formed levels current rest levels' queue' :
  well_formed plan levels (current :: rest) ->
  visit (outgoing plan) levels current rest = Return (levels', queue') ->
  well_formed plan levels' queue'.
Proof.
  intros Hwf Hv. apply visit_Return in Hv. destruct Hv as (cl & Hcl & Hf).
  assert (Hcl0 : (0 <= cl)%Z) by (eapply wf_nonneg; eauto).
  assert (H0 : well_formed plan levels rest).
  { destruct Hwf as [H1 H2 H3 H4]. split; auto. intros id Hid. apply H2. now right. }
  assert (Hind := @fold_relax_ind cl (well_formed plan) (successors plan current)).
  specialize (fun H => Hind H levels rest H0). rewrite Hf in Hind.
  apply Hind.
  clear - Hcl0. intros levels queue n Hn [H1 H2 H3 H4] _. split.
  - now apply dict_keys_set_NoDup.
  - intros id Hid. apply dict_keys_set_In. apply in_app_iff in Hid.
    destruct Hid as [Hid|[<-|[]]]; auto.
  - intros id l. rewrite dict_get_set. destruct (key_eqb id n).
    + intros [= <-]. lia.
    + apply H3.
  - intros id Hid. apply dict_keys_set_In in Hid. destruct Hid as [->|Hid]; auto.
    eapply successors_universe; eauto.
Qed.

Lemma visit_safe levels current rest e :
  well_formed plan levels (current :: rest) ->
  visit (outgoing plan) levels current rest <> Raise e.
Proof.
  intros Hwf. unfold visit.
  destruct (dict_get levels current) eqn:E; [discriminate|].
  apply dict_get_None in E. exfalso. apply E.
  apply (wf_queue Hwf). now left.
Qed.

Lemma visit_levels_le levels current rest levels' queue' :
  visit (outgoing plan) levels current rest = Return (levels', queue') ->
  levels_le levels levels'.
Proof.
  intros Hv. apply visit_Return in Hv. destruct Hv as (cl & _ & Hf).
  change levels' with (fst (levels', queue')). rewrite <- Hf.
  apply fold_relax_levels_le.
Qed.

Lemma visit_queued_or_settled levels current rest levels' queue' :
  queued_or_settled plan levels (current :: rest) ->
  visit (outgoing plan) levels current rest = Return (levels', queue') ->
  queued_or_settled plan levels' queue'.
Proof.
  intros Hqs Hv. apply visit_Return in Hv. destruct Hv as (cl & Hcl & Hf).
  set (P := fun (lv : dict string Z) (q : list string) =>
              (forall s, s <> current -> In s q \/ settled plan lv s) /\
              (In current q \/ dict_get lv current = Some cl)).
  assert (HP : P levels' queue').
  { assert (Hind := @fold_relax_ind cl P (successors plan current)).
    specialize (fun H H0 => Hind H levels rest H0). rewrite Hf in Hind.
    apply Hind.
    - clear. intros levels queue n Hn [H1 H2] Hlt. split.
      + intros s Hs. destruct (H1 s Hs) as [Hq|Hset].
        * left. apply in_or_app. now left.
        * destruct (string_dec s n) as [->|Hne].
          { left. apply in_or_app. right. now left. }
          right. intros ls t. rewrite dict_get_set_other by congruence.
          intros Hls Ht. destruct (Hset _ _ Hls Ht) as (lt & Hlt' & Hle).
          rewrite dict_get_set. destruct (key_eqb t n) eqn:E.
          -- apply key_eqb_eq in E. subst t. exists (cl + 1)%Z.
             split; [reflexivity|]. specialize (Hlt _ Hlt'). lia.
          -- exists lt. auto.
      + destruct H2 as [Hq|Hg].
        * left. apply in_or_app. now left.
        * destruct (string_dec current n) as [->|Hne].
          { left. apply in_or_app. right. now left. }
          right. rewrite dict_get_set_other by congruence. exact Hg.
    - split.
      + intros s Hs. destruct (Hqs s) as [[Heq|Hq]|Hset]; auto. congruence.
      + now right. }
  destruct HP as [H1 H2]. intros s.
  destruct (string_dec s current) as [->|Hne]; [|now apply H1].
  destruct H2 as [Hq|Hg]; [now left|]. right.
  intros ls t Hls Ht. rewrite Hg in Hls. injection Hls as <-.
  generalize (fold_relax_reaches cl (successors plan current) levels rest t Ht).
  now rewrite Hf.
Qed.
End Relaxation.

(** ** Seeding (lines 62-72) and defaults (lines 84-85) *)

Lemma seed_step_fold inc ns : forall levels queue,
  fold_left
    (fun '(levels, queue) node =>
       if dict_mem inc (identifier node) then (levels, queue)
       else (dict_set levels (identifier node) 0%Z, queue ++ [identifier node]))
    ns (levels, queue)
  = fold_left (seed_step inc) ns (levels, queue).
Proof.
  induction ns as [|node ns IH]; intros levels queue; simpl; [reflexivity|].
  destruct (dict_mem inc (identifier node)); apply IH.
Qed.

Lemma seed_sources_fold inc ns :
  seed_sources inc ns = fold_left (seed_step inc) ns ([], []).
Proof. apply seed_step_fold. Qed.

Lemma seed_fold_spec inc ns : forall levels queue,
  let r := fold_left (seed_step inc) ns (levels, queue) in
  (forall id, In id (dict_keys (fst r)) <->
              In id (dict_keys levels) \/ is_source inc ns id) /\
  (forall id, In id (snd r) <-> In id queue \/ is_source inc ns id) /\
  (NoDup (dict_keys levels) -> NoDup (dict_keys (fst r))) /\
  (forall id l, dict_get (fst r) id = Some l ->
                dict_get levels id = Some l \/ l = 0%Z).
Proof.
  unfold is_source.
  induction ns as [|node ns IH]; intros levels queue; cbn [fold_left].
  - simpl. repeat split; try tauto; auto.
  - change (seed_step inc (levels, queue) node)
      with (if dict_mem inc (identifier node) then (levels, queue)
            else (dict_set levels (identifier node) 0%Z,
                  queue ++ [identifier node])).
    destruct (dict_mem inc (identifier node)) eqn:E.
    + destruct (IH levels queue) as (H1 & H2 & H3 & H4).
      repeat split; auto.
      * intros Hin. apply H1 in Hin. simpl. tauto.
      * intros [Hin|[[<-|Hin] Hm]]; apply H1; auto. congruence.
      * intros Hin. apply H2 in Hin. simpl. tauto.
      * intros [Hin|[[<-|Hin] Hm]]; apply H2; auto. congruence.
    + destruct (IH (dict_set levels (identifier node) 0%Z)
                   (queue ++ [identifier node])) as (H1 & H2 & H3 & H4).
      repeat split.
      * intros Hin. apply H1 in Hin. rewrite dict_keys_set_In in Hin. simpl.
        destruct Hin as [[->|Hin]|[Hin Hm]]; auto.
      * intros Hin. apply H1. rewrite dict_keys_set_In. simpl in Hin.
        destruct Hin as [Hin|[[<-|Hin] Hm]]; auto.
      * intros Hin. apply H2 in Hin. rewrite in_app_iff in Hin. simpl in *.
        destruct Hin as [[Hin|[<-|[]]]|[Hin Hm]]; auto.
      * intros Hin. apply H2. rewrite in_app_iff. simpl in *.
        destruct Hin as [Hin|[[<-|Hin] Hm]]; auto.
      * intros Hnd. apply H3. now apply dict_keys_set_NoDup.
      * intros id l Hl. apply H4 in Hl. rewrite dict_get_set in Hl.
        destruct (key_eqb id (identifier node)); [|exact Hl].
        destruct Hl as [[= <-]|Hl]; auto.
Qed.

Lemma seed_sources_spec inc ns levels queue :
  seed_sources inc ns = (levels, queue) ->
  (forall id, In id (dict_keys levels) <-> is_source inc ns id) /\
  (forall id, In id queue <-> is_source inc ns id) /\
  NoDup (dict_keys levels) /\
  (forall id l, dict_get levels id = Some l -> l = 0%Z).
Proof.
  intros E. generalize (seed_fold_spec inc ns [] []). cbv zeta.
  rewrite <- seed_sources_fold, E. simpl. intros (H1 & H2 & H3 & H4).
  split; [|split; [|split]].
  - intros id. rewrite H1. tauto.
  - intros id. rewrite H2. tauto.
  - apply H3. constructor.
  - intros id l Hl. apply H4 in Hl. destruct Hl; [discriminate|assumption].
Qed.

Section Seeding.
Variable plan : FigurePlan.

Lemma assign_layers_eq fuel :
  _assign_layers fuel plan =
  ('(levels, queue) <- initial_state plan ;;
   levels' <- relax_loop fuel (outgoing plan) levels queue ;;
   Return (default_levels (nodes plan) levels')).
Proof.
  unfold _assign_layers. rewrite build_adjacency_eq. reflexivity.
Qed.

Lemma node_ids_universe id : In id (node_ids plan) -> In id (universe plan).
Proof. intros Hin. apply in_or_app. now left. Qed.

Lemma initial_state_Raise e :
  initial_state plan = Raise e -> e = IndexError /\ nodes plan = [].
Proof.
  unfold initial_state, fallback_seed.
  destruct (seed_sources (incoming plan) (nodes plan)) as [levels queue].
  destruct queue; [|discriminate].
  destruct (nodes plan); [|discriminate].
  intros [= <-]. auto.
Qed.

Lemma initial_state_fuel : initial_state plan <> OutOfFuel.
Proof.
  unfold initial_state, fallback_seed.
  destruct (seed_sources (incoming plan) (nodes plan)) as [levels queue].
  destruct queue; [|discriminate].
  destruct (nodes plan); discriminate.
Qed.

Lemma initial_state_nonempty :
  nodes plan <> [] -> exists st, initial_state plan = Return st.
Proof.
  intros Hne. destruct (initial_state plan) as [st|e|] eqn:E; eauto.
  - apply initial_state_Raise in E. tauto.
  - exfalso. now apply initial_state_fuel.
Qed.

Lemma initial_state_Return levels queue :
  initial_state plan = Return (levels, queue) ->
  well_formed plan levels queue /\
  (forall id, In id (dict_keys levels) -> In id queue) /\
  (forall id l, dict_get levels id = Some l -> l = 0%Z) /\
  (forall id, is_source (incoming plan) (nodes plan) id ->
              In id (dict_keys levels)) /\
  (forall id, In id queue -> In id (node_ids plan)) /\
  queue <> [].
Proof.
  unfold initial_state, fallback_seed.
  destruct (seed_sources (incoming plan) (nodes plan)) as [levels0 queue0] eqn:E.
  apply seed_sources_spec in E. destruct E as (H1 & H2 & H3 & Hzero).
  assert (Hkeys : forall id, In id (dict_keys levels0) <-> In id queue0).
  { intros id. rewrite H1, H2. tauto. }
  destruct queue0 as [|q0 queue0].
  - destruct (nodes plan) as [|first ns] eqn:Hns; [discriminate|].
    intros [= <- <-]. simpl.
    assert (Hl0 : levels0 = []).
    { destruct levels0 as [|[k v] l]; [reflexivity|].
      exfalso. apply (Hkeys k). now left. }
    subst levels0. simpl. repeat split.
    + repeat constructor. intros [].
    + intros id [<-|[]]. now left.
    + intros id l. simpl. destruct (String.eqb id (identifier first));
        [intros [= <-]; lia|discriminate].
    + intros id [<-|[]]. apply node_ids_universe. unfold node_ids.
      rewrite Hns. now left.
    + intros id [<-|[]]. now left.
    + intros id l. simpl. destruct (String.eqb id (identifier first));
        [intros [= <-]; reflexivity|discriminate].
    + intros id Hs. exfalso. now apply (proj2 (H2 id)).
    + intros id [<-|[]]. unfold node_ids. rewrite Hns. now left.
    + discriminate.
  - intros [= <- <-]. repeat split.
    + exact H3.
    + intros id Hid. now apply Hkeys.
    + intros id l Hl. apply Hzero in Hl. lia.
    + intros id Hid. apply H1 in Hid. destruct Hid as [Hid _].
      now apply node_ids_universe.
    + intros id Hid. now apply Hkeys.
    + exact Hzero.
    + intros id Hs. now apply H1.
    + intros id Hid. apply H2 in Hid. destruct Hid as [Hid _]. exact Hid.
    + discriminate.
Qed.
End Seeding.

Lemma default_levels_get ns : forall levels id l,
  dict_get (default_levels ns levels) id = Some l <->
  dict_get levels id = Some l \/
  (dict_get levels id = None /\ In id (map identifier ns) /\ l = 0%Z).
Proof.
  unfold default_levels.
  induction ns as [|node ns IH]; intros levels id l; cbn [fold_left map In].
  - split; [auto|]. intros [H|(_ & [] & _)]. exact H.
  - rewrite IH, dict_setdefault_get.
    destruct (dict_get levels id) as [l0|] eqn:E.
    + split; [intros [H|(H & _)]; [auto|discriminate]|].
      intros [H|(H & _)]; [auto|discriminate].
    + simpl. destruct (String.eqb id (identifier node)) eqn:Eid.
      * apply String.eqb_eq in Eid. subst id. split.
        -- intros [[= <-]|(H & _)]; [|discriminate]. right. auto.
        -- intros [H|(_ & _ & ->)]; [discriminate|]. now left.
      * apply String.eqb_neq in Eid. split.
        -- intros [H|(_ & Hin & ->)]; [discriminate|]. right. auto.
        -- intros [H|(_ & [Heq|Hin] & ->)]; [discriminate|congruence|].
           right. auto.
Qed.

Lemma default_levels_NoDup ns : forall levels,
  NoDup (dict_keys levels) -> NoDup (dict_keys (default_levels ns levels)).
Proof.
  unfold default_levels.
  induction ns as [|node ns IH]; intros levels Hnd; simpl; auto.
  apply IH. unfold dict_setdefault.
  destruct (dict_mem levels (identifier node)); auto.
  now apply dict_keys_set_NoDup.
Qed.

(** ** [_assign_layers] as a whole *)

Section AssignLayers.
Variable plan : FigurePlan.

Lemma assign_layers_Return fuel out :
  _assign_layers fuel plan = Return out ->
  exists levels0 queue0 reached,
    initial_state plan = Return (levels0, queue0) /\
    relax_loop fuel (outgoing plan) levels0 queue0 = Return reached /\
    out = default_levels (nodes plan) reached.
Proof.
  rewrite assign_layers_eq.
  destruct (initial_state plan) as [[levels0 queue0]|e|]; simpl; try discriminate.
  destruct (relax_loop fuel (outgoing plan) levels0 queue0) as [reached|e|]
    eqn:E1; simpl; try discriminate.
  intros [= <-]. exists levels0, queue0, reached. auto.
Qed.

Lemma assign_layers_Raise fuel e :
  _assign_layers fuel plan = Raise e -> e = IndexError /\ nodes plan = [].
Proof.
  rewrite assign_layers_eq.
  destruct (initial_state plan) as [[levels0 queue0]|e'|] eqn:E0; simpl;
    try discriminate.
  - destruct (relax_loop fuel (outgoing plan) levels0 queue0) as [reached|e'|]
      eqn:E1; simpl; try discriminate.
    intros [= <-]. exfalso. revert E1.
    apply relax_loop_no_Raise with (P := well_formed plan).
    + intros; eapply visit_well_formed; eauto.
    + intros; now apply visit_safe.
    + now apply initial_state_Return in E0.
  - intros [= <-]. now apply initial_state_Raise.
Qed.

Lemma assign_layers_empty fuel :
  nodes plan = [] -> _assign_layers fuel plan = Raise IndexError.
Proof.
  intros Hn. rewrite assign_layers_eq.
  destruct (initial_state plan) as [[levels0 queue0]|e|] eqn:E0; simpl.
  - apply initial_state_Return in E0.
    destruct E0 as (_ & _ & _ & _ & Hq & Hne).
    destruct queue0 as [|q queue0]; [congruence|].
    specialize (Hq q (or_introl eq_refl)). unfold node_ids in Hq.
    rewrite Hn in Hq. destruct Hq.
  - apply initial_state_Raise in E0. now destruct E0 as [-> _].
  - exfalso. exact (@initial_state_fuel plan E0).
Qed.

Lemma assign_layers_fuel_mono fuel fuel' out :
  _assign_layers fuel plan = Return out -> fuel <= fuel' ->
  _assign_layers fuel' plan = Return out.
Proof.
  intros Ha Hle. apply assign_layers_Return in Ha.
  destruct Ha as (levels0 & queue0 & reached & E0 & E1 & ->).
  rewrite assign_layers_eq, E0. simpl.
  now rewrite (relax_loop_fuel_mono _ _ _ E1 Hle).
Qed.

(** What holds when the queue has drained. *)
Lemma loop_exit fuel levels0 queue0 reached :
  initial_state plan = Return (levels0, queue0) ->
  relax_loop fuel (outgoing plan) levels0 queue0 = Return reached ->
  well_formed plan reached [] /\
  (forall s, settled plan reached s) /\
  levels_le levels0 reached.
Proof.
  intros E0 E1. apply initial_state_Return in E0.
  destruct E0 as (Hwf & Hq & _).
  assert (H := @relax_loop_invariant (outgoing plan)
    (fun l q => well_formed plan l q /\ queued_or_settled plan l q /\
                levels_le levels0 l)).
  specialize (fun Hs => H Hs fuel levels0 queue0 reached).
  destruct H as (H1 & H2 & H3); auto.
  - intros levels current rest levels' queue' (Ha & Hb & Hc) Hv.
    split; [|split].
    + eapply visit_well_formed; eauto.
    + eapply visit_queued_or_settled; eauto.
    + eapply levels_le_trans; [exact Hc|]. eapply visit_levels_le; eauto.
  - split; [exact Hwf|split; [|apply levels_le_refl]].
    intros s. destruct (dict_get levels0 s) as [l|] eqn:E.
    + left. apply Hq. eapply dict_get_Some_key; eauto.
    + right. intros ls t Hls. congruence.
  - split; [exact H1|split; [|exact H3]].
    intros s. destruct (H2 s) as [[]|Hs]. exact Hs.
Qed.

Lemma assign_layers_spec fuel out :
  _assign_layers fuel plan = Return out ->
  NoDup (dict_keys out) /\
  (forall id, In id (node_ids plan) -> In id (dict_keys out)) /\
  (forall id, In id (dict_keys out) -> In id (universe plan)) /\
  (forall id l, dict_get out id = Some l -> (0 <= l)%Z).
Proof.
  intros Ha. apply assign_layers_Return in Ha.
  destruct Ha as (levels0 & queue0 & reached & E0 & E1 & ->).
  destruct (loop_exit _ E0 E1) as ([H1 H2 H3 H4] & _ & _).
  split; [|split; [|split]].
  - now apply default_levels_NoDup.
  - intros id Hid.
    destruct (dict_get reached id) as [l|] eqn:E.
    + eapply dict_get_Some_key. apply default_levels_get. left. exact E.
    + eapply dict_get_Some_key. apply default_levels_get. right. eauto.
  - intros id Hid. apply dict_key_get in Hid. destruct Hid as (l & Hl).
    apply default_levels_get in Hl. destruct Hl as [Hl|(_ & Hin & _)].
    + apply H4. eapply dict_get_Some_key; eauto.
    + now apply node_ids_universe.
  - intros id l Hl. apply default_levels_get in Hl.
    destruct Hl as [Hl|(_ & _ & ->)]; [eauto|lia].
Qed.
End AssignLayers.

(** ** [compute_layout] as a whole *)

Lemma node_map_fold ns : forall m id node,
  (forall id node, dict_get m id = Some node -> identifier node = id) ->
  dict_get (fold_left (fun m node => dict_set m (identifier node) node) ns m) id
  = Some node ->
  identifier node = id /\ (dict_get m id = Some node \/ In node ns).
Proof.
  induction ns as [|n ns IH]; intros m id node Hm; simpl.
  - intros Hg. split; [eapply Hm; eauto|auto].
  - intros Hg. apply IH in Hg.
    + destruct Hg as [Hid Hg]. split; [exact Hid|].
      destruct Hg as [Hg|Hin]; [|auto].
      rewrite dict_get_set in Hg. destruct (key_eqb id (identifier n)).
      * injection Hg as ->. auto.
      * auto.
    + intros id' node'. rewrite dict_get_set.
      destruct (key_eqb id' (identifier n)) eqn:E.
      * intros [= <-]. symmetry. now apply key_eqb_eq.
      * apply Hm.
Qed.

Lemma node_map_keys_fold ns : forall (m : dict string FigureNode) id,
  In id (dict_keys (fold_left (fun m node => dict_set m (identifier node) node) ns m))
  <-> In id (dict_keys m) \/ In id (map identifier ns).
Proof.
  induction ns as [|n ns IH]; intros m id; simpl; [tauto|].
  rewrite IH, dict_keys_set_In. intuition.
Qed.

Section ComputeLayout.
Variable plan : FigurePlan.

Lemma node_map_get id node :
  dict_get (node_map plan) id = Some node ->
  identifier node = id /\ In node (nodes plan).
Proof.
  intros Hg. apply node_map_fold in Hg; [|discriminate].
  destruct Hg as [Hid [Hg|Hin]]; [discriminate|auto].
Qed.

Lemma node_map_keys id :
  In id (dict_keys (node_map plan)) <-> In id (node_ids plan).
Proof.
  unfold node_map. rewrite node_map_keys_fold. simpl. unfold node_ids. tauto.
Qed.

Lemma compute_layout_eq fuel cs :
  compute_layout fuel plan cs =
  (levels <- _assign_layers fuel plan ;;
   ns <- place_columns (node_map plan) (group_columns levels) (snd (canvas cs)) 0
           (py_sorted Z.ltb (dict_keys (group_columns levels))) [] ;;
   Return {| width := fst (canvas cs); height := snd (canvas cs);
             r_nodes := ns; r_edges := edges plan |}).
Proof.
  unfold compute_layout, canvas.
  destruct (match cs with Some c => c | None => DEFAULT_CANVAS_SIZE end).
  reflexivity.
Qed.

Lemma compute_layout_Return fuel cs res :
  compute_layout fuel plan cs = Return res ->
  exists levels,
    _assign_layers fuel plan = Return levels /\
    width res = fst (canvas cs) /\
    height res = snd (canvas cs) /\
    r_edges res = edges plan /\
    Forall2 (placed plan levels (height res)) (visit_order levels) (r_nodes res).
Proof.
  rewrite compute_layout_eq.
  destruct (_assign_layers fuel plan) as [levels|e|] eqn:Ea; simpl;
    try discriminate.
  destruct (place_columns _ _ _ _ _ _) as [ns|e|] eqn:Ep; simpl;
    try discriminate.
  intros [= <-]. exists levels. simpl. repeat split.
  apply place_columns_placed; [|exact Ep].
  now apply assign_layers_spec in Ea.
Qed.

Lemma compute_layout_Raise fuel cs e :
  compute_layout fuel plan cs = Raise e ->
  (e = IndexError /\ nodes plan = []) \/
  (exists id, e = KeyError id /\ ~ In id (node_ids plan) /\
              exists ed, In ed (edges plan) /\ target ed = id).
Proof.
  rewrite compute_layout_eq.
  destruct (_assign_layers fuel plan) as [levels|e'|] eqn:Ea; simpl;
    try discriminate.
  - destruct (place_columns _ _ _ _ _ _) as [ns|e'|] eqn:Ep; simpl;
      try discriminate.
    intros [= <-]. right. apply place_columns_Raise in Ep.
    destruct Ep as (lv & id & -> & _ & Hid & Hn).
    apply assign_layers_spec in Ea. destruct Ea as (Hnd & _ & Hu & _).
    apply sorted_column_In in Hid; [|exact Hnd].
    apply dict_get_Some_key in Hid. apply Hu in Hid.
    apply dict_get_None in Hn. rewrite node_map_keys in Hn.
    exists id. split; [reflexivity|split; [exact Hn|]].
    apply in_app_or in Hid. destruct Hid as [Hid|Hid]; [contradiction|].
    apply in_map_iff in Hid. destruct Hid as (ed & Ht & Hed). eauto.
  - intros [= <-]. left. eapply assign_layers_Raise; eauto.
Qed.

Lemma compute_layout_OutOfFuel fuel cs :
  compute_layout fuel plan cs = OutOfFuel <-> _assign_layers fuel plan = OutOfFuel.
Proof.
  rewrite compute_layout_eq.
  destruct (_assign_layers fuel plan) as [levels|e'|] eqn:Ea; simpl;
    try (split; congruence).
  destruct (place_columns _ _ _ _ _ _) as [ns|e'|] eqn:Ep; simpl;
    try (split; congruence).
  exfalso. exact (place_columns_fuel _ _ _ _ _ _ Ep).
Qed.

Lemma compute_layout_total fuel cs levels :
  _assign_layers fuel plan = Return levels ->
  (forall id, In id (dict_keys levels) -> In id (node_ids plan)) ->
  exists res, compute_layout fuel plan cs = Return res.
Proof.
  intros Ea Hk.
  destruct (compute_layout fuel plan cs) as [res|e|] eqn:Ec.
  - eauto.
  - destruct (compute_layout_Raise _ _ Ec)
      as [[-> Hn]|(id & -> & Hnin & ed & Hed & Ht)].
    + rewrite (assign_layers_empty plan fuel Hn) in Ea. discriminate.
    + exfalso. revert Ec. rewrite compute_layout_eq, Ea. simpl.
      destruct (place_columns _ _ _ _ _ _) as [ns|e'|] eqn:Ep; simpl;
        try discriminate.
      intros [= ->]. apply place_columns_Raise in Ep.
      destruct Ep as (lv & id' & [= <-] & _ & Hid & _).
      apply Hnin, Hk. apply assign_layers_spec in Ea.
      apply sorted_column_In in Hid; [|tauto].
      eapply dict_get_Some_key; eauto.
  - apply compute_layout_OutOfFuel in Ec. congruence.
Qed.

Lemma compute_layout_fuel_mono fuel fuel' cs res :
  compute_layout fuel plan cs = Return res -> fuel <= fuel' ->
  compute_layout fuel' plan cs = Return res.
Proof.
  rewrite !compute_layout_eq.
  destruct (_assign_layers fuel plan) as [levels|e|] eqn:Ea; simpl;
    try discriminate.
  intros Hr Hle. now rewrite (assign_layers_fuel_mono _ Ea Hle).
Qed.
End ComputeLayout.

(** ** Cycles that the loop reaches *)

Section Cycles.
Variable plan : FigurePlan.

Lemma settled_path reached :
  (forall s, settled plan reached s) ->
  forall s t, clos_trans string (edge_rel plan) s t ->
  forall ls, dict_get reached s = Some ls ->
  exists lt, dict_get reached t = Some lt /\ (ls + 1 <= lt)%Z.
Proof.
  intros Hset s t Hst. induction Hst as [s t He|s m t _ IH1 _ IH2]; intros ls Hls.
  - apply successors_edge in He. eapply Hset; eauto.
  - destruct (IH1 _ Hls) as (lm & Hlm & Hle).
    destruct (IH2 _ Hlm) as (lt & Hlt & Hle'). exists lt. split; [auto|lia].
Qed.

(** A cycle through an identifier the loop starts from keeps the queue
    from ever draining. *)
Lemma seeded_cycle_diverges levels0 queue0 s :
  initial_state plan = Return (levels0, queue0) ->
  In s (dict_keys levels0) ->
  clos_trans string (edge_rel plan) s s ->
  forall fuel, _assign_layers fuel plan = OutOfFuel.
Proof.
  intros E0 Hs Hcyc fuel.
  destruct (_assign_layers fuel plan) as [out|e|] eqn:Ea; [| |reflexivity].
  - exfalso. apply assign_layers_Return in Ea.
    destruct Ea as (l0 & q0 & reached & E0' & E1 & _).
    rewrite E0 in E0'. injection E0' as <- <-.
    destruct (@loop_exit plan fuel _ _ _ E0 E1) as (_ & Hset & Hle).
    apply dict_key_get in Hs. destruct Hs as (l & Hl).
    destruct (Hle _ _ Hl) as (l' & Hl' & _).
    destruct (settled_path Hset Hcyc Hl') as (l'' & Hl'' & Hlt).
    rewrite Hl' in Hl''. injection Hl'' as <-. lia.
  - exfalso. apply assign_layers_Raise in Ea. destruct Ea as [_ Hn].
    apply initial_state_Return in E0. destruct E0 as (_ & _ & _ & _ & Hq & Hne).
    destruct queue0 as [|q queue0]; [congruence|].
    specialize (Hq q (or_introl eq_refl)). unfold node_ids in Hq.
    rewrite Hn in Hq. destruct Hq.
Qed.
End Cycles.

(** ** Arithmetic of coordinates *)

Lemma py_max_cases a b :
  (b <= a /\ py_max a b = a)%Q \/ (a < b /\ py_max a b = b)%Q.
Proof.
  unfold py_max. destruct (Qle_bool b a) eqn:E.
  - left. split; [now apply Qle_bool_iff|reflexivity].
  - right. split; [|reflexivity]. apply Qnot_le_lt. intros H.
    apply Qle_bool_iff in H. congruence.
Qed.



Lemma float_of_nat_lt i j : i < j -> (float_of_nat i < float_of_nat j)%Q.
Proof.
  intros Hlt. unfold float_of_nat. rewrite <- Zlt_Qlt. lia.
Qed.

(** ** Ranks *)

Section Counting.
Context {A : Type} (ltb : A -> A -> bool).
Hypothesis ltb_irrefl : forall a, ltb a a = false.
Hypothesis ltb_trans :
  forall a b c, ltb a b = true -> ltb b c = true -> ltb a c = true.

Lemma filter_length_le (f g : A -> bool) (l : list A) :
  (forall z, f z = true -> g z = true) ->
  length (filter f l) <= length (filter g l).
Proof.
  intros Hfg. induction l as [|z l IH]; simpl; [lia|].
  destruct (f z) eqn:Ef.
  - rewrite (Hfg z Ef). simpl. lia.
  - destruct (g z); simpl; lia.
Qed.

Lemma filter_length_lt (f g : A -> bool) (l : list A) a :
  (forall z, f z = true -> g z = true) ->
  In a l -> f a = false -> g a = true ->
  length (filter f l) < length (filter g l).
Proof.
  intros Hfg Hin Hfa Hga. induction l as [|z l IH]; simpl; [destruct Hin|].
  destruct Hin as [->|Hin].
  - rewrite Hfa, Hga. simpl.
    pose proof (filter_length_le f g l Hfg). lia.
  - specialize (IH Hin). destruct (f z) eqn:Ef.
    + rewrite (Hfg z Ef). simpl. lia.
    + destruct (g z); simpl; lia.
Qed.

(** The number of smaller elements grows strictly along the order. *)
Lemma count_below_lt (l : list A) a b :
  In a l -> ltb a b = true ->
  length (filter (fun z => ltb z a) l) < length (filter (fun z => ltb z b) l).
Proof.
  intros Hin Hab. apply filter_length_lt with (a := a); auto.
  intros z Hz. eapply ltb_trans; eauto.
Qed.
End Counting.

Lemma row_rank_lt (levels : dict string Z) lv a b :
  In a (layer_members levels lv) -> str_ltb a b = true ->
  row_rank levels lv a < row_rank levels lv b.
Proof.
  intros Hin Hab. unfold row_rank. apply count_below_lt; auto.
  - exact str_ltb_irrefl.
  - exact @str_ltb_trans.
Qed.

Lemma occupied_levels_In (levels : dict string Z) id lv :
  dict_get levels id = Some lv -> In lv (occupied_levels levels).
Proof.
  intros Hg. unfold occupied_levels. apply nodup_In, dict_values_In.
  exists id. now apply dict_get_In.
Qed.

Lemma column_index_lt (levels : dict string Z) la lb :
  In la (occupied_levels levels) -> (la < lb)%Z ->
  column_index levels la < column_index levels lb.
Proof.
  intros Hin Hlt. unfold column_index. apply count_below_lt; auto.
  - exact Z.ltb_irrefl.
  - exact @Z_ltb_trans.
  - now apply Z.ltb_lt.
Qed.

(** ** What a returned layout looks like *)

Section ResultView.
Variable plan : FigurePlan.
Variable levels : dict string Z.
Variable h : Q.

Lemma placed_identifier id pn : placed plan levels h id pn -> p_identifier pn = id.
Proof.
  intros (lv & node & _ & Hn & ->). simpl. now apply node_map_get in Hn.
Qed.

Lemma placed_identifiers ids out :
  Forall2 (placed plan levels h) ids out -> map p_identifier out = ids.
Proof.
  induction 1 as [|id pn ids out Hp _ IH]; simpl; [reflexivity|].
  now rewrite IH, (placed_identifier Hp).
Qed.

Lemma placed_In ids out pn :
  Forall2 (placed plan levels h) ids out -> In pn out ->
  placed plan levels h (p_identifier pn) pn.
Proof.
  intros HF Hin. destruct (@Forall2_In_r _ _ _ _ _ pn HF Hin) as (id & _ & Hp).
  now rewrite (placed_identifier Hp).
Qed.

Lemma placed_sorted ids out :
  Forall2 (placed plan levels h) ids out ->
  StronglySorted (layout_lt levels) ids ->
  StronglySorted (output_lt levels) out.
Proof.
  intros HF. eapply StronglySorted_Forall2; [|exact HF].
  intros a b pa pb Ha Hb (la & lb & Hla & Hlb & Hlt).
  rewrite <- (placed_identifier Ha) in Hla.
  rewrite <- (placed_identifier Hb) in Hlb.
  exists la, lb. split; [exact Hla|split; [exact Hlb|]].
  destruct Hlt as [Hlt|[-> Hlt]].
  - left. apply column_index_lt; [|exact Hlt].
    eapply occupied_levels_In; eauto.
  - right. split; [reflexivity|].
    now rewrite (placed_identifier Ha), (placed_identifier Hb).
Qed.
End ResultView.

Lemma layout_view fuel plan canvas_size res :
  compute_layout fuel plan canvas_size = Return res ->
  exists levels,
    _assign_layers fuel plan = Return levels /\
    NoDup (dict_keys levels) /\
    (forall pn, In pn (r_nodes res) ->
                placed plan levels (height res) (p_identifier pn) pn) /\
    (forall id, In id (dict_keys levels) ->
                exists pn, In pn (r_nodes res) /\ p_identifier pn = id) /\
    Permutation (map p_identifier (r_nodes res)) (dict_keys levels) /\
    StronglySorted (output_lt levels) (r_nodes res).
Proof.
  intros Hc. apply compute_layout_Return in Hc.
  destruct Hc as (levels & Ha & _ & _ & _ & HF).
  assert (Hnd : NoDup (dict_keys levels)) by now apply assign_layers_spec in Ha.
  exists levels. split; [exact Ha|split; [exact Hnd|]].
  split; [|split; [|split]].
  - intros pn Hin. eapply placed_In; eauto.
  - intros id Hid. apply (proj2 (@visit_order_In levels Hnd id)) in Hid.
    destruct (@Forall2_In_l _ _ _ _ _ id HF Hid) as (pn & Hpn & Hp).
    exists pn. split; [exact Hpn|]. eapply placed_identifier; eauto.
  - rewrite (placed_identifiers HF). exact (@visit_order_Permutation levels Hnd).
  - eapply placed_sorted; [exact HF|]. exact (@visit_order_sorted levels Hnd).
Qed.

Lemma placed_y plan levels h pn lv :
  placed plan levels h (p_identifier pn) pn ->
  dict_get levels (p_identifier pn) = Some lv ->
  y pn = (column_y_offset h (layer_size levels lv)
          + float_of_nat (row_rank levels lv (p_identifier pn))
            * snd NODE_SPACING)%Q.
Proof.
  intros (lv' & node & Hlv & _ & Hpn) Hg.
  rewrite Hg in Hlv. injection Hlv as <-. rewrite Hpn at 1. reflexivity.
Qed.

Lemma placed_x plan levels h pn lv :
  placed plan levels h (p_identifier pn) pn ->
  dict_get levels (p_identifier pn) = Some lv ->
  x pn = column_x (column_index levels lv).
Proof.
  intros (lv' & node & Hlv & _ & Hpn) Hg.
  rewrite Hg in Hlv. injection Hlv as <-. rewrite Hpn at 1. reflexivity.
Qed.

Lemma placed_level plan levels h id pn :
  placed plan levels h id pn -> exists lv, dict_get levels id = Some lv.
Proof. intros (lv & _ & Hlv & _). eauto. Qed.

Lemma placed_node plan levels h pn :
  placed plan levels h (p_identifier pn) pn ->
  exists node,
    In node (nodes plan) /\
    dict_get (node_map plan) (p_identifier pn) = Some node /\
    p_identifier pn = identifier node /\ p_label pn = label node /\
    p_node_type pn = node_type node /\ p_metadata pn = metadata node.
Proof.
  intros (lv & node & _ & Hn & Hpn). exists node.
  destruct (node_map_get _ _ Hn) as [Hid Hin].
  split; [exact Hin|split; [exact Hn|]]. rewrite Hpn. simpl. auto.
Qed.

(** ** Acyclic plans have a ranking *)

Lemma list_max_In l : l <> [] -> In (list_max l) l.
Proof.
  induction l as [|a l IH]; [congruence|]. intros _. simpl.
  destruct l as [|b l].
  - left. simpl. lia.
  - destruct (Nat.max_spec a (list_max (b :: l))) as [[_ ->]|[_ ->]].
    + right. apply IH. discriminate.
    + now left.
Qed.

Lemma list_max_ge l a : In a l -> a <= list_max l.
Proof.
  intros Hin. assert (H : Forall (fun k => k <= list_max l) l)
    by now apply list_max_le.
  rewrite Forall_forall in H. now apply H.
Qed.

Lemma FigureEdge_eq_decidable : decidable_eq FigureEdge.
Proof.
  intros [s t l] [s' t' l'].
  destruct (string_dec s s') as [->|Hs]; [|right; congruence].
  destruct (string_dec t t') as [->|Ht]; [|right; congruence].
  destruct l as [l|], l' as [l'|]; try (right; congruence).
  - destruct (string_dec l l') as [->|Hl]; [left|right]; congruence.
  - now left.
Qed.

Section Walks.
Variable plan : FigurePlan.
Local Abbreviation es := (edges plan).

Lemma walk_incl m n w : walk es m n w -> incl w es.
Proof.
  induction 1 as [|e w He _ IH]; intros a Ha; [destruct Ha|].
  destruct Ha as [<-|Ha]; auto.
Qed.

Lemma walk_app_inv m n l1 : forall l2,
  walk es m n (l1 ++ l2) -> exists p, walk es m p l2 /\ walk es p n l1.
Proof.
  revert n. induction l1 as [|e l1 IH]; intros n l2 Hw; simpl in Hw.
  - exists n. split; [exact Hw|constructor].
  - inversion Hw as [|e' w' He Hw' Heq]; subst.
    destruct (IH _ _ Hw') as (p & H1 & H2).
    exists p. split; [exact H1|]. now constructor.
Qed.

Lemma walk_clos m n w :
  walk es m n w -> w <> [] -> clos_trans string (edge_rel plan) m n.
Proof.
  induction 1 as [|e w He Hw IH]; [congruence|]. intros _.
  assert (Hstep : edge_rel plan (source e) (target e)) by (exists e; auto).
  destruct w as [|e' w'].
  - inversion Hw; subst. now apply t_step.
  - eapply t_trans; [apply IH; discriminate|]. now apply t_step.
Qed.

(** A walk that repeats an edge closes a cycle. *)
Lemma walk_repeat_cycle m n e l1 l2 l3 :
  walk es m n (l1 ++ e :: l2 ++ e :: l3) ->
  clos_trans string (edge_rel plan) (source e) (source e).
Proof.
  intros Hw. apply walk_app_inv in Hw. destruct Hw as (p & Hw & _).
  inversion Hw as [|e' w' He Hw' Heq]; subst.
  apply walk_app_inv in Hw'. destruct Hw' as (q & Hq & Hl2).
  inversion Hq as [|e'' w'' He' Hq' Heq']; subst.
  assert (Hstep : edge_rel plan (source e) (target e)) by (exists e; auto).
  destruct l2 as [|e2 l2].
  - assert (Heq : target e = source e) by (inversion Hl2; auto).
    pose proof (t_step _ _ _ _ Hstep) as Hc. now rewrite Heq in Hc.
  - eapply t_trans; [apply t_step; exact Hstep|].
    eapply walk_clos; [exact Hl2|discriminate].
Qed.

Lemma acyclic_walk_length m n w :
  acyclic plan -> walk es m n w -> length w <= length es.
Proof.
  intros Hacyc Hw.
  destruct (NoDup_decidable FigureEdge_eq_decidable w) as [Hnd|Hdup].
  - apply NoDup_incl_length; [exact Hnd|]. eapply walk_incl; eauto.
  - exfalso. apply (not_NoDup FigureEdge_eq_decidable) in Hdup.
    destruct Hdup as (e & l1 & l2 & l3 & ->).
    eapply Hacyc, walk_repeat_cycle; eauto.
Qed.

Lemma depth_walk k : forall n,
  exists m w, walk es m n w /\ length w = depth es k n.
Proof.
  induction k as [|k IH]; intros n.
  - exists n, []. split; [constructor|reflexivity].
  - simpl.
    set (f := fun e => if String.eqb (target e) n
                       then S (depth es k (source e)) else 0).
    destruct (map f es) as [|a l] eqn:Em.
    + exists n, []. split; [constructor|reflexivity].
    + assert (Hin : In (list_max (a :: l)) (a :: l))
        by (apply list_max_In; discriminate).
      rewrite <- Em in *.
      apply in_map_iff in Hin. destruct Hin as (e & He & Hein).
      rewrite <- He. unfold f at 1. unfold f in He.
      destruct (String.eqb (target e) n) eqn:Et.
      * apply String.eqb_eq in Et. subst n.
        destruct (IH (source e)) as (m & w & Hw & Hlen).
        exists m, (e :: w). split; [now constructor|]. simpl. now rewrite Hlen.
      * exists n, []. split; [constructor|reflexivity].
Qed.

Lemma walk_depth m n w :
  walk es m n w -> forall k, length w <= k -> length w <= depth es k n.
Proof.
  induction 1 as [|e w He Hw IH]; intros k Hk; simpl; [lia|].
  destruct k as [|k]; [simpl in Hk; lia|]. simpl in Hk.
  specialize (IH k (le_S_n _ _ Hk)). simpl.
  apply Nat.le_trans with (m := S (depth es k (source e))); [lia|].
  apply list_max_ge. apply in_map_iff. exists e.
  split; [now rewrite String.eqb_refl|exact He].
Qed.

Lemma rank_bound n : acyclic plan -> rank plan n <= length es.
Proof.
  intros Hacyc. unfold rank.
  destruct (depth_walk (length es) n) as (m & w & Hw & <-).
  eapply acyclic_walk_length; eauto.
Qed.

Lemma rank_edge s t : acyclic plan -> edge_rel plan s t -> rank plan s < rank plan t.
Proof.
  intros Hacyc (e & He & <- & <-). unfold rank.
  destruct (depth_walk (length es) (source e)) as (m & w & Hw & Hlen).
  assert (Hw' : walk es m (target e) (e :: w)) by now constructor.
  pose proof (acyclic_walk_length Hacyc Hw') as Hle.
  pose proof (walk_depth Hw' Hle) as Hd. simpl in Hle, Hd. lia.
Qed.
End Walks.

(** ** Termination on acyclic plans *)

Lemma list_sum_map_le {A : Type} (f g : A -> nat) (l : list A) :
  (forall z, In z l -> f z <= g z) ->
  list_sum (map f l) <= list_sum (map g l).
Proof.
  induction l as [|z l IH]; simpl; intros H; [lia|].
  pose proof (H z (or_introl eq_refl)).
  assert (list_sum (map f l) <= list_sum (map g l)) by (apply IH; auto).
  lia.
Qed.

Lemma list_sum_map_lt {A : Type} (f g : A -> nat) (l : list A) a :
  (forall z, In z l -> f z <= g z) -> In a l -> f a < g a ->
  list_sum (map f l) < list_sum (map g l).
Proof.
  induction l as [|z l IH]; simpl; intros H Hin Hlt; [destruct Hin|].
  pose proof (H z (or_introl eq_refl)).
  assert (Hle : list_sum (map f l) <= list_sum (map g l))
    by (apply list_sum_map_le; auto).
  destruct Hin as [->|Hin]; [lia|].
  assert (list_sum (map f l) < list_sum (map g l)) by (apply IH; auto).
  lia.
Qed.

Lemma seed_fold_length inc ns : forall levels queue,
  length (snd (fold_left (seed_step inc) ns (levels, queue)))
  <= length queue + length ns.
Proof.
  induction ns as [|node ns IH]; intros levels queue; cbn [fold_left]; [simpl; lia|].
  change (seed_step inc (levels, queue) node)
    with (if dict_mem inc (identifier node) then (levels, queue)
          else (dict_set levels (identifier node) 0%Z,
                queue ++ [identifier node])).
  destruct (dict_mem inc (identifier node)).
  - specialize (IH levels queue). simpl. lia.
  - specialize (IH (dict_set levels (identifier node) 0%Z)
                   (queue ++ [identifier node])).
    rewrite length_app in IH. simpl in *. lia.
Qed.

Lemma initial_state_length plan levels queue :
  initial_state plan = Return (levels, queue) ->
  length queue <= length (nodes plan).
Proof.
  unfold initial_state, fallback_seed.
  pose proof (seed_fold_length (incoming plan) (nodes plan) [] []) as Hlen.
  rewrite <- seed_sources_fold in Hlen. revert Hlen.
  destruct (seed_sources (incoming plan) (nodes plan)) as [levels0 queue0].
  simpl. intros Hlen.
  destruct queue0 as [|q queue0].
  - destruct (nodes plan) as [|first ns]; [discriminate|].
    intros [= <- <-]. simpl. lia.
  - intros [= <- <-]. exact Hlen.
Qed.

Section Termination.
Variable plan : FigurePlan.
Hypothesis plan_acyclic : acyclic plan.

Local Abbreviation B := (length (edges plan)).

Lemma potential_bound levels : potential plan levels <= length (universe plan) * S B.
Proof.
  unfold potential. induction (universe plan) as [|id l IH]; simpl; [lia|].
  unfold slack at 1. lia.
Qed.

Lemma potential_set levels n v :
  In n (universe plan) ->
  (forall l, dict_get levels n = Some l -> (0 <= l < v)%Z) ->
  (0 <= v <= Z.of_nat B)%Z ->
  potential plan (dict_set levels n v) < potential plan levels.
Proof.
  intros Hn Hold Hv. unfold potential.
  assert (Hh : forall id, height_of (dict_set levels n v) id =
                          if String.eqb id n then S (Z.to_nat v)
                          else height_of levels id).
  { intros id. unfold height_of. rewrite dict_get_set. simpl.
    destruct (String.eqb id n); reflexivity. }
  assert (Hhn : height_of levels n <= Z.to_nat v).
  { unfold height_of. destruct (dict_get levels n) as [l|] eqn:E; [|lia].
    specialize (Hold l eq_refl). lia. }
  apply list_sum_map_lt with (a := n); [|exact Hn|].
  - intros id _. unfold slack. rewrite Hh.
    destruct (String.eqb id n) eqn:E; [|lia].
    apply String.eqb_eq in E. subst. lia.
  - unfold slack. rewrite Hh, String.eqb_refl. lia.
Qed.

Lemma visit_decreases levels current rest :
  well_formed plan levels (current :: rest) -> bounded plan levels ->
  exists levels' queue',
    visit (outgoing plan) levels current rest = Return (levels', queue') /\
    (well_formed plan levels' queue' /\ bounded plan levels') /\
    measure plan levels' queue' < measure plan levels (current :: rest).
Proof.
  intros Hwf Hb.
  destruct (visit (outgoing plan) levels current rest) as [[levels' queue']|e|] eqn:Ev.
  - exists levels', queue'. split; [reflexivity|].
    pose proof (visit_well_formed Hwf Ev) as Hwf'.
    apply visit_Return in Ev. destruct Ev as (cl & Hcl & Hf).
    assert (Hcl0 : (0 <= cl)%Z) by exact (wf_nonneg Hwf _ Hcl).
    assert (Hclr : (cl <= Z.of_nat (rank plan current))%Z) by exact (Hb _ _ Hcl).
    set (P := fun (lv : dict string Z) (q : list string) =>
                (forall id l, dict_get lv id = Some l -> (0 <= l)%Z) /\
                bounded plan lv /\
                2 * potential plan lv + length q <= 2 * potential plan levels + length rest).
    assert (HP : P levels' queue').
    { assert (Hind := @fold_relax_ind cl P (successors plan current)).
      specialize (fun H H0 => Hind H levels rest H0). rewrite Hf in Hind.
      apply Hind.
      - intros lv q n Hn (Hnn & Hbd & Hmu) Hlt.
        assert (Hrk : rank plan current < rank plan n).
        { apply rank_edge; [exact plan_acyclic|]. now apply successors_edge. }
        pose proof (rank_bound n plan_acyclic) as HB.
        assert (Hpot : potential plan (dict_set lv n (cl + 1)%Z) < potential plan lv).
        { apply potential_set.
          - eapply successors_universe; eauto.
          - intros l Hl. split; [eapply Hnn; eauto|now apply Hlt].
          - lia. }
        split; [|split].
        + intros id l. rewrite dict_get_set. destruct (key_eqb id n).
          * intros [= <-]. lia.
          * apply Hnn.
        + intros id l. rewrite dict_get_set. destruct (key_eqb id n) eqn:E.
          * apply key_eqb_eq in E. subst id. intros [= <-]. lia.
          * apply Hbd.
        + rewrite length_app. simpl. lia.
      - split; [|split; [exact Hb|lia]].
        intros id l. exact (wf_nonneg Hwf id (l:=l)). }
    destruct HP as (_ & Hb' & Hmu). split; [split; assumption|].
    unfold measure. simpl. lia.
  - exfalso. eapply visit_safe; eauto.
  - exfalso. unfold visit in Ev.
    destruct (dict_get levels current); discriminate.
Qed.

Lemma acyclic_loop_returns fuel levels0 queue0 :
  initial_state plan = Return (levels0, queue0) ->
  fuel_bound plan <= fuel ->
  exists reached, relax_loop fuel (outgoing plan) levels0 queue0 = Return reached.
Proof.
  intros E0 Hfuel.
  pose proof (initial_state_length _ E0) as Hlen.
  apply initial_state_Return in E0. destruct E0 as (Hwf & _ & Hzero & _).
  apply relax_loop_terminates
    with (P := fun l q => well_formed plan l q /\ bounded plan l) (mu := measure plan).
  - intros levels current rest [H1 H2]. now apply visit_decreases.
  - split; [exact Hwf|]. intros id l Hl. apply Hzero in Hl. lia.
  - unfold measure, fuel_bound in *.
    pose proof (potential_bound levels0). lia.
Qed.
End Termination.

(** ** Acyclic plans with all endpoints present *)

Section AcyclicLayout.
Variable plan : FigurePlan.
Hypothesis plan_acyclic : acyclic plan.
Hypothesis plan_endpoints : endpoints_present plan.

Lemma universe_node_ids id : In id (universe plan) -> In id (node_ids plan).
Proof.
  intros Hin. apply in_app_or in Hin. destruct Hin as [Hin|Hin]; [exact Hin|].
  apply in_map_iff in Hin. destruct Hin as (e & <- & He).
  now apply plan_endpoints.
Qed.

(** Every node is given a level by the loop itself. *)
Lemma acyclic_all_reached fuel levels0 queue0 reached :
  initial_state plan = Return (levels0, queue0) ->
  relax_loop fuel (outgoing plan) levels0 queue0 = Return reached ->
  forall id, In id (node_ids plan) -> In id (dict_keys reached).
Proof.
  intros E0 E1.
  destruct (@loop_exit plan fuel _ _ _ E0 E1) as (_ & Hset & Hle).
  apply initial_state_Return in E0. destruct E0 as (_ & _ & _ & Hsrc & _).
  assert (H : forall k id, rank plan id < k -> In id (node_ids plan) ->
                           In id (dict_keys reached)).
  { induction k as [|k IH]; intros id Hk Hid; [lia|].
    destruct (dict_mem (incoming plan) id) eqn:Em.
    - apply incoming_mem in Em. destruct Em as (e & He & Ht).
      assert (Hs : In (source e) (dict_keys reached)).
      { apply IH.
        - assert (rank plan (source e) < rank plan id); [|lia].
          apply rank_edge; [exact plan_acyclic|]. exists e. auto.
        - now apply plan_endpoints. }
      apply dict_key_get in Hs. destruct Hs as (ls & Hls).
      destruct (Hset (source e) ls id Hls) as (lt & Hlt & _).
      + apply successors_edge. exists e. auto.
      + eapply dict_get_Some_key; eauto.
    - assert (Hin : In id (dict_keys levels0)) by (apply Hsrc; split; assumption).
      apply dict_key_get in Hin. destruct Hin as (l & Hl).
      destruct (Hle _ _ Hl) as (l' & Hl' & _).
      eapply dict_get_Some_key; eauto. }
  intros id Hid. apply (H (S (rank plan id))); [lia|exact Hid].
Qed.

Lemma acyclic_assign_layers fuel :
  nodes plan <> [] -> fuel_bound plan <= fuel ->
  exists levels,
    _assign_layers fuel plan = Return levels /\
    (forall id, In id (dict_keys levels) <-> In id (node_ids plan)) /\
    (forall s t, edge_rel plan s t ->
       exists ls lt,
         dict_get levels s = Some ls /\ dict_get levels t = Some lt /\
         (ls + 1 <= lt)%Z).
Proof.
  intros Hne Hfuel.
  destruct (@initial_state_nonempty plan Hne) as ([levels0 queue0] & E0).
  destruct (@acyclic_loop_returns plan plan_acyclic fuel _ _ E0 Hfuel)
    as (reached & E1).
  exists (default_levels (nodes plan) reached).
  assert (Ha : _assign_layers fuel plan =
               Return (default_levels (nodes plan) reached)).
  { rewrite assign_layers_eq, E0. simpl. now rewrite E1. }
  split; [exact Ha|].
  destruct (@assign_layers_spec plan fuel _ Ha) as (_ & Hn & Hu & _).
  split.
  - intros id. split; [|apply Hn].
    intros Hid. apply universe_node_ids. now apply Hu.
  - intros s t Hst.
    destruct (@loop_exit plan fuel _ _ _ E0 E1) as (_ & Hset & _).
    assert (Hs : In s (dict_keys reached)).
    { apply (@acyclic_all_reached fuel _ _ _ E0 E1).
      destruct Hst as (e & He & <- & _). now apply plan_endpoints. }
    apply dict_key_get in Hs. destruct Hs as (ls & Hls).
    destruct (Hset s ls t Hls) as (lt & Hlt & Hle);
      [now apply successors_edge|].
    exists ls, lt. split; [|split; [|exact Hle]];
      apply default_levels_get; now left.
Qed.
End AcyclicLayout.

(** A plan whose edges all climb some ranking has no cycle. *)
Lemma ranked_acyclic plan (r : string -> nat) :
  (forall e, In e (edges plan) -> r (source e) < r (target e)) ->
  acyclic plan.
Proof.
  intros Hr.
  assert (H : forall s t, clos_trans string (edge_rel plan) s t -> r s < r t).
  { induction 1 as [s t (e & He & <- & <-)|s m t _ IH1 _ IH2]; [auto|lia]. }
  intros n Hn. apply H in Hn. lia.
Qed.

Lemma column_x_lt c d : c < d -> (column_x c < column_x d)%Q.
Proof.
  intros Hlt. apply float_of_nat_lt in Hlt. unfold column_x, NODE_SPACING.
  simpl fst. lra.
Qed.


(** ** Every node exactly once *)

Lemma NoDup_map_In_inj {A B : Type} (f : A -> B) (l : list A) a b :
  NoDup (map f l) -> In a l -> In b l -> f a = f b -> a = b.
Proof.
  induction l as [|c l IH]; simpl; intros Hnd Ha Hb Hf; [destruct Ha|].
  inversion Hnd as [|? ? Hnin Hnd']; subst.
  destruct Ha as [->|Ha], Hb as [->|Hb]; auto.
  - exfalso. apply Hnin. rewrite Hf. now apply in_map.
  - exfalso. apply Hnin. rewrite <- Hf. now apply in_map.
Qed.

Section Coverage.
Variable plan : FigurePlan.
Hypothesis ids_unique : NoDup (node_ids plan).
Hypothesis plan_endpoints : endpoints_present plan.

Lemma node_map_lookup node :
  In node (nodes plan) ->
  dict_get (node_map plan) (identifier node) = Some node.
Proof.
  intros Hin.
  assert (Hk : In (identifier node) (dict_keys (node_map plan))).
  { apply node_map_keys. unfold node_ids. now apply in_map. }
  apply dict_key_get in Hk. destruct Hk as (node' & Hg).
  destruct (node_map_get _ _ Hg) as [Hid Hin'].
  rewrite Hg. f_equal.
  eapply NoDup_map_In_inj; eauto.
Qed.

Lemma layout_covers_nodes fuel canvas_size res :
  compute_layout fuel plan canvas_size = Return res ->
  Permutation (map underlying (r_nodes res)) (nodes plan) /\
  NoDup (map p_identifier (r_nodes res)) /\
  r_edges res = edges plan.
Proof.
  intros Hc.
  destruct (layout_view _ _ _ Hc) as (levels & Ha & Hnd & Hpl & _ & Hperm & _).
  destruct (@assign_layers_spec plan fuel _ Ha) as (_ & Hn & Hu & _).
  assert (Hids : Permutation (map p_identifier (r_nodes res)) (node_ids plan)).
  { rewrite Hperm. apply NoDup_Permutation; auto.
    intros id. split; [|apply Hn].
    intros Hid. now apply universe_node_ids, Hu. }
  split; [|split].
  - set (g := fun id => match dict_get (node_map plan) id with
                        | Some n => n
                        | None => mk_node id
                        end).
    assert (H1 : map underlying (r_nodes res) = map g (map p_identifier (r_nodes res))).
    { rewrite map_map. apply map_ext_in. intros pn Hin.
      destruct (placed_node (Hpl pn Hin))
        as (node & _ & Hg & Hi & Hl & Ht & Hm).
      unfold g. rewrite Hg. unfold underlying. rewrite Hi, Hl, Ht, Hm.
      now destruct node. }
    assert (H2 : nodes plan = map g (node_ids plan)).
    { unfold node_ids. rewrite map_map. rewrite <- (map_id (nodes plan)) at 1.
      apply map_ext_in. intros node Hin. unfold g.
      now rewrite (node_map_lookup node Hin). }
    rewrite H1, H2. now apply Permutation_map.
  - eapply Permutation_NoDup; [symmetry; exact Hids|exact ids_unique].
  - apply compute_layout_Return in Hc.
    destruct Hc as (l & _ & _ & _ & He & _). exact He.
Qed.
End Coverage.

(** ** The sample plans *)

Lemma two_cycle_diverges fuel : _assign_layers fuel two_cycle_plan = OutOfFuel.
Proof.
  apply seeded_cycle_diverges
    with (levels0 := [("a"%string, 0%Z)]) (queue0 := ["a"%string]) (s := "a"%string).
  - reflexivity.
  - now left.
  - apply t_trans with (y := "b"%string); apply t_step.
    + exists (mk_edge "a" "b"). simpl. auto.
    + exists (mk_edge "b" "a"). simpl. auto.
Qed.

Lemma self_loop_diverges fuel : _assign_layers fuel self_loop_plan = OutOfFuel.
Proof.
  apply seeded_cycle_diverges
    with (levels0 := [("a"%string, 0%Z)]) (queue0 := ["a"%string]) (s := "a"%string).
  - reflexivity.
  - now left.
  - apply t_step. exists (mk_edge "a" "a"). simpl. auto.
Qed.

Lemma chain_plan_acyclic : acyclic chain_plan.
Proof.
  apply ranked_acyclic with (r := chain_rank).
  intros e [<-|[<-|[]]]; vm_compute; lia.
Qed.

Lemma chain_plan_endpoints : endpoints_present chain_plan.
Proof.
  intros e [<-|[<-|[]]]; simpl; auto.
Qed.


(** * The placement in binary64 *)

Lemma place_rows64_Return node_lookup x0 y_offset column :
  forall row_index acc out,
    Binary64.place_rows node_lookup x0 y_offset row_index column acc
    = Return out ->
    exists new,
      out = acc ++ new /\
      Forall2i (Binary64.row_placed node_lookup x0 y_offset)
        row_index column new.
Proof.
  induction column as [|id column IH]; intros r acc out; simpl.
  - intros [= <-]. exists []. split; [now rewrite app_nil_r|constructor].
  - destruct (dict_get node_lookup id) as [node|] eqn:E; [|discriminate].
    intros Hp. apply IH in Hp. destruct Hp as (new & -> & Hnew).
    eexists (_ :: new). split; [now rewrite <- app_assoc|].
    constructor; [|exact Hnew].
    exists node. split; [exact E|reflexivity].
Qed.

Lemma place_columns64_Return node_lookup columns h sorted_levels :
  forall level_index acc out,
    Binary64.place_columns node_lookup columns h level_index sorted_levels acc
    = Return out ->
    exists news,
      out = acc ++ concat news /\
      Forall2i (Binary64.column_placed node_lookup columns h)
        level_index sorted_levels news.
Proof.
  induction sorted_levels as [|lv sl IH]; intros c acc out; simpl.
  - intros [= <-]. exists []. split; [now rewrite app_nil_r|constructor].
  - fold (sorted_column columns lv).
    destruct (Binary64.place_rows node_lookup (Binary64.column_x c)
                (Binary64.column_y_offset h (length (sorted_column columns lv)))
                0 (sorted_column columns lv) acc) as [acc'|e|] eqn:E; simpl;
      try discriminate.
    intros Hp. apply IH in Hp. destruct Hp as (news & -> & Hnews).
    apply place_rows64_Return in E. destruct E as (new & -> & Hnew).
    exists (new :: news). split; [simpl; now rewrite <- app_assoc|].
    constructor; assumption.
Qed.

Lemma place_columns64_placed plan levels h out :
  NoDup (dict_keys levels) ->
  Binary64.place_columns (node_map plan) (group_columns levels) h 0
    (py_sorted Z.ltb (dict_keys (group_columns levels))) [] = Return out ->
  Forall2 (Binary64.placed plan levels h) (visit_order levels) out.
Proof.
  intros Hnd Hp. apply place_columns64_Return in Hp.
  destruct Hp as (news & -> & Hnews). simpl.
  apply Forall2_concat, Forall2_map_l.
  eapply Forall2i_Forall2; [|exact Hnews].
  intros c lv new Hc Hcol. simpl in Hcol.
  unfold Binary64.column_placed in Hcol.
  eapply Forall2i_Forall2; [|exact Hcol].
  intros i id pn Hi (node & Hnode & ->). simpl.
  assert (Hg : dict_get levels id = Some lv).
  { apply (@sorted_column_In levels Hnd). eapply nth_error_In; eauto. }
  exists lv, node. repeat split; auto.
  rewrite (@sorted_levels_index levels c lv Hc), sorted_column_length,
    (@sorted_column_index levels Hnd lv i id Hi).
  reflexivity.
Qed.

(** The two readings of the placement take the same steps. *)
Lemma place_rows_agree node_lookup x0 y0 x1 y1 column :
  forall row_index acc acc64,
    map underlying acc = map Binary64.underlying acc64 ->
    match place_rows node_lookup x0 y0 row_index column acc,
          Binary64.place_rows node_lookup x1 y1 row_index column acc64 with
    | Return out, Return out64 =>
        map underlying out = map Binary64.underlying out64
    | Raise e, Raise e64 => e = e64
    | _, _ => False
    end.
Proof.
  induction column as [|id column IH]; intros r acc acc64 Hacc; simpl.
  - exact Hacc.
  - destruct (dict_get node_lookup id) as [node|]; [|reflexivity].
    apply IH. rewrite !map_app, Hacc. reflexivity.
Qed.

Lemma place_columns_agree node_lookup columns h h64 sorted_levels :
  forall level_index acc acc64,
    map underlying acc = map Binary64.underlying acc64 ->
    match place_columns node_lookup columns h level_index sorted_levels acc,
          Binary64.place_columns node_lookup columns h64 level_index
            sorted_levels acc64 with
    | Return out, Return out64 =>
        map underlying out = map Binary64.underlying out64
    | Raise e, Raise e64 => e = e64
    | _, _ => False
    end.
Proof.
  induction sorted_levels as [|lv sl IH]; intros c acc acc64 Hacc; simpl.
  - exact Hacc.
  - fold (sorted_column columns lv).
    pose proof (@place_rows_agree node_lookup (column_x c)
                  (column_y_offset h (length (sorted_column columns lv)))
                  (Binary64.column_x c)
                  (Binary64.column_y_offset h64
                     (length (sorted_column columns lv)))
                  (sorted_column columns lv) 0 acc acc64 Hacc) as Hrows.
    destruct (place_rows node_lookup _ _ 0 _ acc) as [acc'|e|];
      destruct (Binary64.place_rows node_lookup _ _ 0 _ acc64) as [acc64'|e64|];
      simpl; try contradiction.
    + now apply IH.
    + exact Hrows.
Qed.

Lemma compute_layout64_eq plan fuel cs :
  Binary64.compute_layout fuel plan cs =
  (levels <- _assign_layers fuel plan ;;
   ns <- Binary64.place_columns (node_map plan) (group_columns levels)
           (snd match cs with Some c => c
                | None => Binary64.DEFAULT_CANVAS_SIZE end) 0
           (py_sorted Z.ltb (dict_keys (group_columns levels))) [] ;;
   Return {| Binary64.width :=
               fst match cs with Some c => c
                   | None => Binary64.DEFAULT_CANVAS_SIZE end;
             Binary64.height :=
               snd match cs with Some c => c
                   | None => Binary64.DEFAULT_CANVAS_SIZE end;
             Binary64.r_nodes := ns; Binary64.r_edges := edges plan |}).
Proof.
  unfold Binary64.compute_layout.
  destruct (match cs with Some c => c | None => Binary64.DEFAULT_CANVAS_SIZE end).
  reflexivity.
Qed.

(** The binary64 reading and the exact reading of [compute_layout] return,
    raise and run out of iterations together, and return the same nodes in
    the same order with the same edges; only coordinates can differ. *)
Lemma compute_layout_agree fuel plan cs cs64 :
  match compute_layout fuel plan cs, Binary64.compute_layout fuel plan cs64 with
  | Return res, Return res64 =>
      map underlying (r_nodes res)
      = map Binary64.underlying (Binary64.r_nodes res64) /\
      r_edges res = Binary64.r_edges res64
  | Raise e, Raise e64 => e = e64
  | OutOfFuel, OutOfFuel => True
  | _, _ => False
  end.
Proof.
  rewrite compute_layout_eq, compute_layout64_eq.
  destruct (_assign_layers fuel plan) as [levels|e|]; simpl; auto.
  pose proof (@place_columns_agree (node_map plan) (group_columns levels)
                (snd (canvas cs))
                (snd match cs64 with Some c => c
                     | None => Binary64.DEFAULT_CANVAS_SIZE end)
                (py_sorted Z.ltb (dict_keys (group_columns levels)))
                0 [] [] eq_refl) as Hcols.
  destruct (place_columns _ _ _ 0 _ []) as [ns|e|];
    destruct (Binary64.place_columns _ _ _ 0 _ []) as [ns64|e64|];
    simpl; try contradiction; auto.
Qed.

Lemma compute_layout64_Return plan fuel cs res :
  Binary64.compute_layout fuel plan cs = Return res ->
  exists levels,
    _assign_layers fuel plan = Return levels /\
    (Binary64.width res, Binary64.height res) =
      match cs with Some c => c | None => Binary64.DEFAULT_CANVAS_SIZE end /\
    Binary64.r_edges res = edges plan /\
    Forall2 (Binary64.placed plan levels (Binary64.height res))
      (visit_order levels) (Binary64.r_nodes res).
Proof.
  rewrite compute_layout64_eq.
  destruct (_assign_layers fuel plan) as [levels|e|] eqn:Ea; simpl;
    try discriminate.
  destruct (Binary64.place_columns _ _ _ _ _ _) as [ns|e|] eqn:Ep; simpl;
    try discriminate.
  intros [= <-]. exists levels. simpl.
  split; [reflexivity|]. split; [now destruct cs as [[? ?]|]|].
  split; [reflexivity|].
  apply place_columns64_placed; [|exact Ep].
  now apply assign_layers_spec in Ea.
Qed.

Lemma placed64_identifiers plan levels h ids out :
  Forall2 (Binary64.placed plan levels h) ids out ->
  map Binary64.p_identifier out = ids.
Proof.
  induction 1 as [|id pn ids out (lv & node & _ & Hn & ->) _ IH]; simpl;
    [reflexivity|].
  rewrite IH. f_equal. now destruct (node_map_get _ _ Hn).
Qed.

Lemma placed64_In plan levels h ids out pn :
  Forall2 (Binary64.placed plan levels h) ids out ->
  In pn out -> Binary64.placed plan levels h (Binary64.p_identifier pn) pn.
Proof.
  induction 1 as [|id pn' ids out Hp _ IH]; simpl; [tauto|].
  intros [<-|Hin]; [|auto].
  assert (Hid : Binary64.p_identifier pn' = id).
  { destruct Hp as (lv & node & _ & Hn & ->). simpl.
    now destruct (node_map_get _ _ Hn). }
  now rewrite Hid.
Qed.

(** * The store: what a run reads, writes and makes *)

Section StoreRuns.
#[local] Arguments Nat.add : simpl never.

(** ** Reading and writing behind the objects of the caller *)

Lemma nth_error_old (s c : Machine.store) l o :
  nth_error s l = Some o -> nth_error (s ++ c) l = Some o.
Proof.
  intros Hl. rewrite nth_error_app1; [exact Hl|].
  apply nth_error_Some. congruence.
Qed.

Lemma nth_error_new (s c : Machine.store) k :
  nth_error (s ++ c) (k + length s) = nth_error c k.
Proof. rewrite nth_error_app2 by lia. f_equal. lia. Qed.

Lemma ltb_new (s c : Machine.store) k :
  (k + length s <? length (s ++ c))%nat = (k <? length c)%nat.
Proof.
  rewrite length_app.
  destruct (Nat.ltb_spec k (length c)); [apply Nat.ltb_lt|apply Nat.ltb_ge]; lia.
Qed.

Lemma update_new (s c : Machine.store) k o :
  Machine.update (s ++ c) (k + length s) o = s ++ Machine.update c k o.
Proof.
  induction s as [|a s IH]; simpl.
  - now rewrite Nat.add_0_r.
  - rewrite Nat.add_succ_r. simpl. now rewrite IH.
Qed.

Lemma new_app (s c : Machine.store) o :
  Machine.new o (s ++ c) = Machine.Returned (length c + length s) (s ++ (c ++ [o])).
Proof.
  unfold Machine.new. rewrite length_app, <- app_assoc. f_equal. lia.
Qed.

(** ** What the values read from a store say of its objects *)

Lemma read_all_cons A (read : Machine.loc -> option A) l ls v :
  Machine.read_all read (l :: ls) = Some v ->
  exists a r, read l = Some a /\ Machine.read_all read ls = Some r /\ v = a :: r.
Proof.
  simpl. destruct (read l) as [a|]; [|discriminate].
  destruct (Machine.read_all read ls) as [r|]; [|discriminate].
  intros [= <-]. eauto.
Qed.

Lemma read_all_nil A (read : Machine.loc -> option A) v :
  Machine.read_all read [] = Some v -> v = [].
Proof. simpl. congruence. Qed.

Lemma read_all_mono A (read read' : Machine.loc -> option A) ls :
  (forall l a, read l = Some a -> read' l = Some a) ->
  forall v, Machine.read_all read ls = Some v ->
            Machine.read_all read' ls = Some v.
Proof.
  intros Hm. induction ls as [|l ls IH]; intros v; simpl; [auto|].
  destruct (read l) as [a|] eqn:El; [|discriminate].
  destruct (Machine.read_all read ls) as [r|]; [|discriminate].
  intros [= <-]. now rewrite (Hm l a El), (IH r eq_refl).
Qed.

Lemma read_edge_inv s l e :
  Machine.read_edge s l = Some e ->
  nth_error s l
  = Some (Machine.FigureEdge_object (source e) (target e) (edge_label e)).
Proof.
  unfold Machine.read_edge. destruct (nth_error s l) as [[]|]; try discriminate.
  now intros [= <-].
Qed.

Lemma read_node_inv s l node :
  Machine.read_node s l = Some node ->
  exists m,
    nth_error s l
    = Some (Machine.FigureNode_object (identifier node) (label node)
              (node_type node) m) /\
    nth_error s m = Some (Machine.metadata_object (metadata node)).
Proof.
  unfold Machine.read_node. destruct (nth_error s l) as [[]|]; try discriminate.
  match goal with |- context [nth_error s ?m] =>
    destruct (nth_error s m) as [[]|] eqn:Em end; try discriminate.
  intros [= <-]. eauto.
Qed.

Lemma read_plan_inv s l P :
  Machine.read_plan s l = Some P ->
  exists ns es nls els,
    nth_error s l
    = Some (Machine.FigurePlan_object ns es (title P) (description P)) /\
    nth_error s ns = Some (Machine.list_object nls) /\
    Machine.read_all (Machine.read_node s) nls = Some (nodes P) /\
    nth_error s es = Some (Machine.list_object els) /\
    Machine.read_all (Machine.read_edge s) els = Some (edges P).
Proof.
  unfold Machine.read_plan, Machine.read_list.
  destruct (nth_error s l) as [[]|]; try discriminate.
  match goal with |- context [nth_error s ?ns] =>
    destruct (nth_error s ns) as [[]|] eqn:En end; try discriminate.
  match goal with |- context [Machine.read_all (Machine.read_node s) ?ls] =>
    destruct (Machine.read_all (Machine.read_node s) ls) as [N|] eqn:EN end;
    try discriminate.
  match goal with |- context [nth_error s ?es] =>
    destruct (nth_error s es) as [[]|] eqn:Ee end; try discriminate.
  match goal with |- context [Machine.read_all (Machine.read_edge s) ?ls] =>
    destruct (Machine.read_all (Machine.read_edge s) ls) as [E|] eqn:EE end;
    try discriminate.
  intros [= <-]. simpl. eauto 10.
Qed.

(** ** Objects made before a call are as they were after it *)

Lemma read_edge_old s c l e :
  Machine.read_edge s l = Some e -> Machine.read_edge (s ++ c) l = Some e.
Proof.
  intros He. pose proof (@read_edge_inv s l e He) as Hl.
  unfold Machine.read_edge. rewrite (@nth_error_old s c _ _ Hl).
  now destruct e.
Qed.

Lemma read_node_old s c l node :
  Machine.read_node s l = Some node -> Machine.read_node (s ++ c) l = Some node.
Proof.
  intros Hn. destruct (@read_node_inv s l node Hn) as (m & Hl & Hm).
  unfold Machine.read_node. rewrite (@nth_error_old s c _ _ Hl), (@nth_error_old s c _ _ Hm).
  now destruct node.
Qed.

Lemma read_positioned_old s c l pn :
  Machine.read_positioned s l = Some pn ->
  Machine.read_positioned (s ++ c) l = Some pn.
Proof.
  unfold Machine.read_positioned.
  destruct (nth_error s l) as [[]|] eqn:El; try discriminate.
  match goal with |- context [nth_error s ?m] =>
    destruct (nth_error s m) as [[]|] eqn:Em end; try discriminate.
  intros [= <-]. now rewrite (@nth_error_old s c _ _ El), (@nth_error_old s c _ _ Em).
Qed.

Lemma read_list_old A (read read' : Machine.loc -> option A) s c l v :
  (forall l a, read l = Some a -> read' l = Some a) ->
  Machine.read_list read s l = Some v ->
  Machine.read_list read' (s ++ c) l = Some v.
Proof.
  intros Hm. unfold Machine.read_list.
  destruct (nth_error s l) as [[]|] eqn:El; try discriminate.
  rewrite (@nth_error_old s c _ _ El). now apply read_all_mono.
Qed.

Lemma read_plan_old s c l P :
  Machine.read_plan s l = Some P -> Machine.read_plan (s ++ c) l = Some P.
Proof.
  unfold Machine.read_plan.
  destruct (nth_error s l) as [[]|] eqn:El; try discriminate.
  rewrite (@nth_error_old s c _ _ El).
  match goal with |- context [Machine.read_list (Machine.read_node s) s ?ns] =>
    destruct (Machine.read_list (Machine.read_node s) s ns) as [N|] eqn:EN end;
    [|discriminate].
  match goal with |- context [Machine.read_list (Machine.read_edge s) s ?es] =>
    destruct (Machine.read_list (Machine.read_edge s) s es) as [E|] eqn:EE end;
    [|discriminate].
  intros [= <-].
  rewrite (@read_list_old _ (Machine.read_node s) (Machine.read_node (s ++ c))
             s c _ N (@read_node_old s c) EN).
  now rewrite (@read_list_old _ (Machine.read_edge s) (Machine.read_edge (s ++ c))
                 s c _ E (@read_edge_old s c) EE).
Qed.

Lemma read_result_old s c l R :
  Machine.read_result s l = Some R -> Machine.read_result (s ++ c) l = Some R.
Proof.
  unfold Machine.read_result.
  destruct (nth_error s l) as [[]|] eqn:El; try discriminate.
  rewrite (@nth_error_old s c _ _ El).
  match goal with
  | |- context [Machine.read_list (Machine.read_positioned s) s ?ns] =>
    destruct (Machine.read_list (Machine.read_positioned s) s ns)
      as [N|] eqn:EN end;
    [|discriminate].
  match goal with |- context [Machine.read_list (Machine.read_edge s) s ?es] =>
    destruct (Machine.read_list (Machine.read_edge s) s es) as [E|] eqn:EE end;
    [|discriminate].
  intros [= <-].
  rewrite (@read_list_old _ (Machine.read_positioned s)
             (Machine.read_positioned (s ++ c))
             s c _ N (@read_positioned_old s c) EN).
  now rewrite (@read_list_old _ (Machine.read_edge s) (Machine.read_edge (s ++ c))
                 s c _ E (@read_edge_old s c) EE).
Qed.

(** ** The layering, run in a store (lines 55-87) *)

Lemma get_old (s c : Machine.store) l o :
  nth_error s l = Some o ->
  Machine.get l (s ++ c) = Machine.Returned o (s ++ c).
Proof. intros Hl. unfold Machine.get. now rewrite (@nth_error_old s c l o Hl). Qed.

Lemma get_new (s c : Machine.store) k :
  Machine.get (k + length s) (s ++ c)
  = match nth_error c k with
    | Some o => Machine.Returned o (s ++ c)
    | None => Machine.Raised Machine.BadObject
    end.
Proof. unfold Machine.get. now rewrite nth_error_new. Qed.

Lemma put_new (s c : Machine.store) k o :
  (k <? length c)%nat = true ->
  Machine.put (k + length s) o (s ++ c)
  = Machine.Returned tt (s ++ Machine.update c k o).
Proof.
  intros Hk. unfold Machine.put. now rewrite ltb_new, Hk, update_new.
Qed.

Ltac store_step :=
  first
    [ rewrite get_new
    | rewrite put_new by reflexivity
    | rewrite new_app
    | progress cbn [nth_error Machine.update length app] ].

Ltac run_open :=
  unfold Machine.get_node, Machine.get_edge, Machine.get_plan,
    Machine.get_list, Machine.get_metadata, Machine.get_adjacency,
    Machine.get_levels, Machine.get_deque, Machine.get_columns,
    Machine.get_lookup, Machine.bind, Machine.ret, Machine.raise.

Lemma add_edges_run s els : forall E,
  Machine.read_all (Machine.read_edge s) els = Some E ->
  forall I O rest,
    Machine.for_each els (Machine.add_edge (0 + length s) (1 + length s))
      (s ++ Machine.adjacency_object I :: Machine.adjacency_object O :: rest)
    = Machine.Returned tt
        (s ++ Machine.adjacency_object (incoming_of E I)
           :: Machine.adjacency_object (outgoing_of E O) :: rest).
Proof.
  induction els as [|l els IH]; intros E HE I O rest.
  - apply read_all_nil in HE. subst E. reflexivity.
  - apply read_all_cons in HE. destruct HE as (e & E' & He & HE' & ->).
    apply read_edge_inv in He.
    cbn [Machine.for_each]. unfold Machine.bind at 1.
    assert (Hstep :
      Machine.add_edge (0 + length s) (1 + length s) l
        (s ++ Machine.adjacency_object I :: Machine.adjacency_object O :: rest)
      = Machine.Returned tt
          (s ++ Machine.adjacency_object (dict_append I (target e) (source e))
             :: Machine.adjacency_object (dict_append O (source e) (target e))
             :: rest)).
    { unfold Machine.add_edge. run_open.
      rewrite (@get_old s _ l _ He). cbn [source target edge_label].
      repeat store_step. reflexivity. }
    rewrite Hstep. apply (IH E' HE').
Qed.

Lemma seed_nodes_run s nls : forall N,
  Machine.read_all (Machine.read_node s) nls = Some N ->
  forall I O L Q rest L' Q',
    fold_left (seed_step I) N (L, Q) = (L', Q') ->
    Machine.for_each nls
      (Machine.seed_node (0 + length s) (2 + length s) (3 + length s))
      (s ++ Machine.adjacency_object I :: O :: Machine.levels_object L
         :: Machine.deque_object Q :: rest)
    = Machine.Returned tt
        (s ++ Machine.adjacency_object I :: O :: Machine.levels_object L'
           :: Machine.deque_object Q' :: rest).
Proof.
  induction nls as [|l nls IH]; intros N HN I O L Q rest L' Q' Hf.
  - apply read_all_nil in HN. subst N. simpl in Hf.
    injection Hf as <- <-. reflexivity.
  - apply read_all_cons in HN. destruct HN as (node & N' & Hn & HN' & ->).
    apply read_node_inv in Hn. destruct Hn as (m & Hl & _).
    cbn [fold_left] in Hf.
    destruct (seed_step I (L, Q) node) as [L1 Q1] eqn:Es.
    cbn [Machine.for_each]. unfold Machine.bind at 1.
    assert (Hstep :
      Machine.seed_node (0 + length s) (2 + length s) (3 + length s) l
        (s ++ Machine.adjacency_object I :: O :: Machine.levels_object L
           :: Machine.deque_object Q :: rest)
      = Machine.Returned tt
          (s ++ Machine.adjacency_object I :: O :: Machine.levels_object L1
             :: Machine.deque_object Q1 :: rest)).
    { unfold seed_step in Es. unfold Machine.seed_node. run_open.
      rewrite (@get_old s _ l _ Hl).
      repeat store_step.
      destruct (dict_mem I (identifier node)); injection Es as <- <-;
        [reflexivity|].
      repeat store_step. reflexivity. }
    rewrite Hstep. apply (IH N' HN' I O L1 Q1 rest L' Q' Hf).
Qed.

Lemma seed_sources_run s nls N I O L Q rest :
  Machine.read_all (Machine.read_node s) nls = Some N ->
  seed_sources I N = (L, Q) ->
  Machine.for_each nls
    (Machine.seed_node (0 + length s) (2 + length s) (3 + length s))
    (s ++ Machine.adjacency_object I :: O :: Machine.levels_object []
       :: Machine.deque_object [] :: rest)
  = Machine.Returned tt
      (s ++ Machine.adjacency_object I :: O :: Machine.levels_object L
         :: Machine.deque_object Q :: rest).
Proof.
  intros HN Hs. rewrite seed_sources_fold in Hs.
  exact (@seed_nodes_run s nls N HN I O [] [] rest L Q Hs).
Qed.

Lemma fallback_seed_run s plan ns es t d nls N :
  nth_error s plan = Some (Machine.FigurePlan_object ns es t d) ->
  nth_error s ns = Some (Machine.list_object nls) ->
  Machine.read_all (Machine.read_node s) nls = Some N ->
  forall I O L Q rest,
    Machine.fallback_seed plan (2 + length s) (3 + length s)
      (s ++ I :: O :: Machine.levels_object L :: Machine.deque_object Q :: rest)
    = match fallback_seed N (L, Q) with
      | Return (L', Q') =>
          Machine.Returned tt
            (s ++ I :: O :: Machine.levels_object L'
               :: Machine.deque_object Q' :: rest)
      | Raise e => Machine.Raised (Machine.Python e)
      | OutOfFuel => Machine.OutOfIterations
      end.
Proof.
  intros Hp Hns HN I O L Q rest.
  unfold Machine.fallback_seed, fallback_seed. run_open.
  repeat store_step.
  destruct Q as [|q Q]; [|reflexivity].
  rewrite (@get_old s _ plan _ Hp). rewrite (@get_old s _ ns _ Hns).
  destruct nls as [|l nls].
  - apply read_all_nil in HN. subst N. reflexivity.
  - apply read_all_cons in HN. destruct HN as (node & N' & Hn & _ & ->).
    apply read_node_inv in Hn. destruct Hn as (m & Hl & _).
    rewrite (@get_old s _ l _ Hl).
    repeat store_step. reflexivity.
Qed.

Lemma relax_neighbors_run s current_level nbrs : forall I O L Q rest,
  Machine.for_each nbrs
    (Machine.relax_neighbor (2 + length s) (3 + length s) current_level)
    (s ++ I :: O :: Machine.levels_object L :: Machine.deque_object Q :: rest)
  = Machine.Returned tt
      (s ++ I :: O
         :: Machine.levels_object
              (fst (fold_left (relax current_level) nbrs (L, Q)))
         :: Machine.deque_object
              (snd (fold_left (relax current_level) nbrs (L, Q)))
         :: rest).
Proof.
  induction nbrs as [|nb nbrs IH]; intros I O L Q rest; [reflexivity|].
  cbn [Machine.for_each fold_left]. unfold Machine.bind at 1.
  assert (Hstep :
    Machine.relax_neighbor (2 + length s) (3 + length s) current_level nb
      (s ++ I :: O :: Machine.levels_object L :: Machine.deque_object Q :: rest)
    = Machine.Returned tt
        (s ++ I :: O
           :: Machine.levels_object (fst (relax current_level (L, Q) nb))
           :: Machine.deque_object (snd (relax current_level (L, Q) nb))
           :: rest)).
  { unfold Machine.relax_neighbor, relax. run_open.
    repeat store_step.
    destruct (dict_get L nb) as [l|].
    - destruct (current_level + 1 >? l)%Z; repeat store_step; reflexivity.
    - repeat store_step. reflexivity. }
  rewrite Hstep.
  destruct (relax current_level (L, Q) nb) as [L1 Q1]. apply IH.
Qed.

Lemma relax_loop_run s fuel : forall I O L Q rest,
  Machine.relax_loop fuel (1 + length s) (2 + length s) (3 + length s)
    (s ++ I :: Machine.adjacency_object O :: Machine.levels_object L
       :: Machine.deque_object Q :: rest)
  = match relax_loop fuel O L Q with
    | Return L' =>
        Machine.Returned tt
          (s ++ I :: Machine.adjacency_object O :: Machine.levels_object L'
             :: Machine.deque_object [] :: rest)
    | Raise e => Machine.Raised (Machine.Python e)
    | OutOfFuel => Machine.OutOfIterations
    end.
Proof.
  induction fuel as [|fuel IH]; intros I O L Q rest.
  - cbn [Machine.relax_loop relax_loop]. run_open. repeat store_step.
    destruct Q; reflexivity.
  - cbn [Machine.relax_loop relax_loop]. unfold Machine.bind at 1.
    unfold Machine.get_deque at 1. run_open. repeat store_step.
    destruct Q as [|current rest_q]; [reflexivity|].
    repeat store_step. unfold visit.
    destruct (dict_get L current) as [current_level|]; [|reflexivity].
    repeat store_step.
    rewrite relax_neighbors_run. cbn [bind].
    destruct (fold_left (relax current_level) (dict_get_default O current [])
                (L, rest_q)) as [L1 Q1].
    apply IH.
Qed.

Lemma default_nodes_run s nls : forall N,
  Machine.read_all (Machine.read_node s) nls = Some N ->
  forall I O L rest,
    Machine.for_each nls (Machine.default_node (2 + length s))
      (s ++ I :: O :: Machine.levels_object L :: rest)
    = Machine.Returned tt
        (s ++ I :: O :: Machine.levels_object (default_levels N L) :: rest).
Proof.
  induction nls as [|l nls IH]; intros N HN I O L rest.
  - apply read_all_nil in HN. subst N. reflexivity.
  - apply read_all_cons in HN. destruct HN as (node & N' & Hn & HN' & ->).
    apply read_node_inv in Hn. destruct Hn as (m & Hl & _).
    cbn [Machine.for_each]. unfold Machine.bind at 1.
    assert (Hstep :
      Machine.default_node (2 + length s) l
        (s ++ I :: O :: Machine.levels_object L :: rest)
      = Machine.Returned tt
          (s ++ I :: O
             :: Machine.levels_object (dict_setdefault L (identifier node) 0%Z)
             :: rest)).
    { unfold Machine.default_node. run_open.
      rewrite (@get_old s _ l _ Hl).
      repeat store_step. reflexivity. }
    rewrite Hstep. apply (IH N' HN').
Qed.

(** [_assign_layers] leaves the objects of its caller as they were, makes
    four of its own and returns the third, which holds the layers that the
    function [_assign_layers] computes from the value of the plan. *)
Lemma assign_layers_run s plan P fuel :
  Machine.read_plan s plan = Some P ->
  Machine._assign_layers fuel plan s
  = match _assign_layers fuel P with
    | Return levels =>
        Machine.Returned (2 + length s)
          (s ++ [Machine.adjacency_object (incoming P);
                 Machine.adjacency_object (outgoing P);
                 Machine.levels_object levels;
                 Machine.deque_object []])
    | Raise e => Machine.Raised (Machine.Python e)
    | OutOfFuel => Machine.OutOfIterations
    end.
Proof.
  intros HP. destruct (read_plan_inv _ _ HP)
    as (ns & es & nls & els & Hp & Hns & HN & Hes & HE).
  rewrite assign_layers_eq. unfold initial_state.
  unfold Machine._assign_layers.
  rewrite <- (app_nil_r s) at 1.
  unfold Machine.bind at 1. rewrite new_app.
  unfold Machine.bind at 1. rewrite new_app.
  cbn [length app].
  unfold Machine.bind at 1. unfold Machine.get_plan at 1.
  unfold Machine.bind at 1. rewrite (@get_old s _ plan _ Hp).
  unfold Machine.ret at 1.
  unfold Machine.bind at 1. unfold Machine.get_list at 1.
  unfold Machine.bind at 1. rewrite (@get_old s _ es _ Hes).
  unfold Machine.ret at 1.
  unfold Machine.bind at 1.
  rewrite (@add_edges_run s els (edges P) HE).
  unfold Machine.bind at 1. rewrite new_app.
  unfold Machine.bind at 1. rewrite new_app.
  cbn [length app].
  unfold Machine.bind at 1. unfold Machine.get_plan at 1.
  unfold Machine.bind at 1. rewrite (@get_old s _ plan _ Hp).
  unfold Machine.ret at 1.
  unfold Machine.bind at 1. unfold Machine.get_list at 1.
  unfold Machine.bind at 1. rewrite (@get_old s _ ns _ Hns).
  unfold Machine.ret at 1.
  unfold Machine.bind at 1.
  fold (incoming P). fold (outgoing P).
  destruct (seed_sources (incoming P) (nodes P)) as [L0 Q0] eqn:E0.
  rewrite (@seed_sources_run s nls (nodes P) _ _ L0 Q0 _ HN E0).
  unfold Machine.bind at 1.
  rewrite (@fallback_seed_run s plan ns es _ _ nls (nodes P) Hp Hns HN).
  destruct (fallback_seed (nodes P) (L0, Q0)) as [[L1 Q1]|e|];
    cbn [bind]; [|reflexivity|reflexivity].
  unfold Machine.bind at 1. rewrite relax_loop_run.
  destruct (relax_loop fuel (outgoing P) L1 Q1) as [L2|e|];
    cbn [bind]; [|reflexivity|reflexivity].
  unfold Machine.bind at 1. unfold Machine.get_plan at 1.
  unfold Machine.bind at 1. rewrite (@get_old s _ plan _ Hp).
  unfold Machine.ret at 1.
  unfold Machine.bind at 1. unfold Machine.get_list at 1.
  unfold Machine.bind at 1. rewrite (@get_old s _ ns _ Hns).
  unfold Machine.ret at 1.
  unfold Machine.bind at 1.
  rewrite (@default_nodes_run s nls (nodes P) HN).
  reflexivity.
Qed.

(** ** The placement, run in a store (lines 20-52) *)

Lemma group_nodes_run s lv : forall a0 a1 a2 a3 C rest,
  Machine.for_each lv (Machine.group_node (4 + length s))
    (s ++ a0 :: a1 :: a2 :: a3 :: Machine.columns_object C :: rest)
  = Machine.Returned tt
      (s ++ a0 :: a1 :: a2 :: a3
         :: Machine.columns_object (fold_left group_step lv C) :: rest).
Proof.
  induction lv as [|[node_id level] lv IH]; intros a0 a1 a2 a3 C rest;
    [reflexivity|].
  cbn [Machine.for_each fold_left]. unfold Machine.bind at 1.
  assert (Hstep :
    Machine.group_node (4 + length s) (node_id, level)
      (s ++ a0 :: a1 :: a2 :: a3 :: Machine.columns_object C :: rest)
    = Machine.Returned tt
        (s ++ a0 :: a1 :: a2 :: a3
           :: Machine.columns_object (group_step C (node_id, level)) :: rest)).
  { unfold Machine.group_node, group_step. run_open.
    repeat store_step. reflexivity. }
  rewrite Hstep. apply IH.
Qed.

Lemma lookup_reads_set s K Kv id n node :
  Machine.lookup_reads s K Kv ->
  Machine.read_node s n = Some node ->
  Machine.lookup_reads s (dict_set K id n) (dict_set Kv id node).
Proof.
  intros HK Hn. unfold Machine.lookup_reads in *.
  induction HK as [|[k l] [k' v] K Kv [Hk Hl] HK IH]; cbn [dict_set].
  - constructor; [|constructor]. simpl. auto.
  - simpl in Hk, Hl. subst k'.
    destruct (key_eqb id k); constructor; simpl; auto.
Qed.

Lemma lookup_reads_get s K Kv id :
  Machine.lookup_reads s K Kv ->
  match dict_get K id, dict_get Kv id with
  | Some n, Some node => Machine.read_node s n = Some node
  | None, None => True
  | _, _ => False
  end.
Proof.
  intros HK. induction HK as [|[k l] [k' v] K Kv [Hk Hl] HK IH]; cbn [dict_get].
  - exact Logic.I.
  - simpl in Hk, Hl. subst k'. destruct (key_eqb id k); [exact Hl|exact IH].
Qed.

Lemma map_nodes_run s nls : forall N,
  Machine.read_all (Machine.read_node s) nls = Some N ->
  forall a0 a1 a2 a3 a4 a5 K Kv rest,
    Machine.lookup_reads s K Kv ->
    exists K',
      Machine.for_each nls (Machine.map_node (6 + length s))
        (s ++ a0 :: a1 :: a2 :: a3 :: a4 :: a5 :: Machine.lookup_object K :: rest)
      = Machine.Returned tt
          (s ++ a0 :: a1 :: a2 :: a3 :: a4 :: a5
             :: Machine.lookup_object K' :: rest) /\
      Machine.lookup_reads s K'
        (fold_left (fun m node => dict_set m (identifier node) node) N Kv).
Proof.
  induction nls as [|l nls IH]; intros N HN a0 a1 a2 a3 a4 a5 K Kv rest HK.
  - apply read_all_nil in HN. subst N. exists K. split; [reflexivity|exact HK].
  - apply read_all_cons in HN. destruct HN as (node & N' & Hn & HN' & ->).
    destruct (@read_node_inv s l node Hn) as (m & Hl & _).
    cbn [Machine.for_each fold_left]. unfold Machine.bind at 1.
    assert (Hstep :
      Machine.map_node (6 + length s) l
        (s ++ a0 :: a1 :: a2 :: a3 :: a4 :: a5 :: Machine.lookup_object K :: rest)
      = Machine.Returned tt
          (s ++ a0 :: a1 :: a2 :: a3 :: a4 :: a5
             :: Machine.lookup_object (dict_set K (identifier node) l) :: rest)).
    { unfold Machine.map_node. run_open.
      rewrite (@get_old s _ l _ Hl).
      repeat store_step. reflexivity. }
    rewrite Hstep.
    apply (IH N' HN'). now apply lookup_reads_set.
Qed.

Lemma placed_objects_length base acc :
  length (Machine.placed_objects base acc) = 2 * length acc.
Proof.
  revert base. induction acc as [|pn acc IH]; intros base; simpl; [reflexivity|].
  rewrite IH. lia.
Qed.

Lemma placed_objects_app acc : forall base pn,
  Machine.placed_objects base (acc ++ [pn])
  = Machine.placed_objects base acc
    ++ [Machine.metadata_object (Binary64.p_metadata pn);
        Machine.PositionedNode_object (Binary64.p_identifier pn)
          (Binary64.p_label pn) (Binary64.p_node_type pn)
          (base + 2 * length acc) (Binary64.x pn) (Binary64.y pn)].
Proof.
  induction acc as [|a acc IH]; intros base pn;
    cbn [Machine.placed_objects app].
  - now rewrite Nat.add_0_r.
  - rewrite IH.
    replace (S (S base) + 2 * length acc) with (base + 2 * length (a :: acc));
      [reflexivity|cbn [length]; lia].
Qed.

Lemma placed_refs_app acc : forall base pn,
  Machine.placed_refs base (acc ++ [pn])
  = Machine.placed_refs base acc ++ [S (base + 2 * length acc)].
Proof.
  induction acc as [|a acc IH]; intros base pn;
    cbn [Machine.placed_refs app].
  - now rewrite Nat.add_0_r.
  - rewrite IH.
    replace (S (S base) + 2 * length acc) with (base + 2 * length (a :: acc));
      [reflexivity|cbn [length]; lia].
Qed.

Lemma place_rows_run s K Kv x0 y_offset column :
  Machine.lookup_reads s K Kv ->
  forall row_index acc a0 a1 a2 a3 a4,
    Machine.place_rows (6 + length s) (5 + length s) x0 y_offset row_index column
      (s ++ a0 :: a1 :: a2 :: a3 :: a4
         :: Machine.list_object (Machine.placed_refs (7 + length s) acc)
         :: Machine.lookup_object K
         :: Machine.placed_objects (7 + length s) acc)
    = match Binary64.place_rows Kv x0 y_offset row_index column acc with
      | Return acc' =>
          Machine.Returned tt
            (s ++ a0 :: a1 :: a2 :: a3 :: a4
               :: Machine.list_object (Machine.placed_refs (7 + length s) acc')
               :: Machine.lookup_object K
               :: Machine.placed_objects (7 + length s) acc')
      | Raise e => Machine.Raised (Machine.Python e)
      | OutOfFuel => Machine.OutOfIterations
      end.
Proof.
  intros HK. induction column as [|node_id column IH];
    intros row_index acc a0 a1 a2 a3 a4; [reflexivity|].
  cbn [Machine.place_rows Binary64.place_rows].
  unfold Machine.bind at 1. unfold Machine.get_lookup at 1.
  unfold Machine.bind at 1. rewrite get_new. cbn [nth_error].
  unfold Machine.ret at 1.
  pose proof (@lookup_reads_get s K Kv node_id HK) as Hg.
  destruct (dict_get K node_id) as [n|], (dict_get Kv node_id) as [node|];
    try contradiction; [|reflexivity].
  destruct (@read_node_inv s n node Hg) as (m & Hl & Hm).
  run_open.
  rewrite (@get_old s _ n _ Hl). rewrite (@get_old s _ m _ Hm).
  repeat store_step.
  rewrite <- IH. f_equal.
  rewrite placed_refs_app, placed_objects_app.
  rewrite length_app, !placed_objects_length.
  cbn [Binary64.positioned Binary64.p_metadata Binary64.p_identifier
         Binary64.p_label Binary64.p_node_type Binary64.x Binary64.y length].
  rewrite <- app_assoc. cbn [app].
  replace (S (S (S (S (S (S (S (2 * length acc + 1)))))))  + length s)
    with (S (7 + length s + 2 * length acc)) by lia.
  replace (S (S (S (S (S (S (S (2 * length acc))))))) + length s)
    with (7 + length s + 2 * length acc) by lia.
  reflexivity.
Qed.

Lemma place_columns_run s K Kv h C sorted_levels :
  Machine.lookup_reads s K Kv ->
  forall level_index acc C' a0 a1 a2 a3,
    NoDup sorted_levels ->
    (forall lv, In lv sorted_levels ->
       dict_get_default C' lv [] = dict_get_default C lv []) ->
    Machine.place_columns (6 + length s) (4 + length s) (5 + length s) h
      level_index sorted_levels
      (s ++ a0 :: a1 :: a2 :: a3 :: Machine.columns_object C'
         :: Machine.list_object (Machine.placed_refs (7 + length s) acc)
         :: Machine.lookup_object K
         :: Machine.placed_objects (7 + length s) acc)
    = match Binary64.place_columns Kv C h level_index sorted_levels acc with
      | Return acc' =>
          Machine.Returned tt
            (s ++ a0 :: a1 :: a2 :: a3
               :: Machine.columns_object
                    (Machine.sorted_columns sorted_levels C')
               :: Machine.list_object (Machine.placed_refs (7 + length s) acc')
               :: Machine.lookup_object K
               :: Machine.placed_objects (7 + length s) acc')
      | Raise e => Machine.Raised (Machine.Python e)
      | OutOfFuel => Machine.OutOfIterations
      end.
Proof.
  intros HK. induction sorted_levels as [|level rest IH];
    intros level_index acc C' a0 a1 a2 a3 Hnd Heq; [reflexivity|].
  cbn [Machine.place_columns Binary64.place_columns].
  unfold Machine.sorted_columns. cbn [fold_left].
  fold (Machine.sorted_columns rest
          (dict_set C' level (py_sorted str_ltb (dict_get_default C' level [])))).
  rewrite (Heq level (or_introl eq_refl)).
  unfold Machine.bind at 1. unfold Machine.get_columns at 1.
  unfold Machine.bind at 1. rewrite get_new. cbn [nth_error].
  unfold Machine.ret at 1. cbv zeta.
  rewrite (Heq level (or_introl eq_refl)).
  unfold Machine.bind at 1. rewrite put_new by reflexivity.
  cbn [Machine.update].
  unfold Machine.bind at 1.
  rewrite (@place_rows_run s K Kv _ _ _ HK).
  destruct (Binary64.place_rows Kv (Binary64.column_x level_index)
              (Binary64.column_y_offset h
                 (length (py_sorted str_ltb (dict_get_default C level []))))
              0 (py_sorted str_ltb (dict_get_default C level [])) acc)
    as [acc'|e|]; cbn [bind]; [|reflexivity|reflexivity].
  inversion Hnd as [|? ? Hnotin Hnd']; subst.
  apply IH; [exact Hnd'|].
  intros lv Hin. rewrite dict_get_default_set.
  rewrite key_eqb_neq; [now apply Heq; right|].
  intros ->. contradiction.
Qed.

(** The nodes that the placement made read back as they were placed. *)
Lemma placed_objects_read acc : forall pre post,
  Machine.read_all
    (Machine.read_positioned
       (pre ++ Machine.placed_objects (length pre) acc ++ post))
    (Machine.placed_refs (length pre) acc)
  = Some acc.
Proof.
  induction acc as [|pn acc IH]; intros pre post; [reflexivity|].
  cbn [Machine.placed_objects Machine.placed_refs Machine.read_all app].
  set (md := Machine.metadata_object (Binary64.p_metadata pn)).
  set (po := Machine.PositionedNode_object (Binary64.p_identifier pn)
               (Binary64.p_label pn) (Binary64.p_node_type pn) (length pre)
               (Binary64.x pn) (Binary64.y pn)).
  assert (Hhead :
    Machine.read_positioned
      (pre ++ md :: po :: Machine.placed_objects (S (S (length pre))) acc ++ post)
      (S (length pre)) = Some pn).
  { unfold Machine.read_positioned.
    rewrite (nth_error_new pre (md :: po :: _) 1 : nth_error _ (S (length pre)) = _).
    cbn [nth_error]. unfold po.
    rewrite (nth_error_new pre (md :: _) 0 : nth_error _ (length pre) = _).
    cbn [nth_error]. unfold md.
    now destruct pn. }
  rewrite Hhead.
  assert (Hlen : S (S (length pre)) = length (pre ++ [md; po])).
  { rewrite length_app. cbn [length]. lia. }
  replace (pre ++ md :: po
             :: Machine.placed_objects (S (S (length pre))) acc ++ post)
    with ((pre ++ [md; po])
            ++ Machine.placed_objects (S (S (length pre))) acc ++ post)
    by (rewrite <- app_assoc; reflexivity).
  rewrite Hlen. now rewrite IH.
Qed.

Lemma compute_layout64_fuel_mono plan fuel fuel' cs R :
  Binary64.compute_layout fuel plan cs = Return R -> fuel <= fuel' ->
  Binary64.compute_layout fuel' plan cs = Return R.
Proof.
  rewrite !compute_layout64_eq.
  destruct (_assign_layers fuel plan) as [levels|e|] eqn:Ea; cbn [bind];
    try discriminate.
  intros HR Hle. now rewrite (@assign_layers_fuel_mono plan fuel fuel' levels Ea Hle).
Qed.

(** [compute_layout] run on a reference to a plan of value [P] ends as the
    function [Binary64.compute_layout] on [P] does.  When it returns, the
    store is the one it was given with new objects behind it, the reference
    returned is to one of these, a [LayoutResult] whose value is the result
    of the function and whose [edges] is the list of the plan itself. *)
Lemma compute_layout_run s plan P fuel cs :
  Machine.read_plan s plan = Some P ->
  match Binary64.compute_layout fuel P cs with
  | Return R =>
      exists r new es,
        Machine.compute_layout fuel plan cs s = Machine.Returned r (s ++ new) /\
        length s <= r /\
        nth_error (s ++ new) r
        = Some (Machine.LayoutResult_object (Binary64.width R)
                  (Binary64.height R) (5 + length s) es) /\
        (exists pn t d,
           nth_error s plan = Some (Machine.FigurePlan_object pn es t d)) /\
        Machine.read_result (s ++ new) r = Some R
  | Raise e =>
      Machine.compute_layout fuel plan cs s = Machine.Raised (Machine.Python e)
  | OutOfFuel =>
      Machine.compute_layout fuel plan cs s = Machine.OutOfIterations
  end.
Proof.
  intros HP. destruct (read_plan_inv _ _ HP)
    as (ns & es & nls & els & Hp & Hns & HN & Hes & HE).
  rewrite compute_layout64_eq. unfold Machine.compute_layout.
  destruct (match cs with Some c => c | None => Binary64.DEFAULT_CANVAS_SIZE end)
    as [w h]. cbn [fst snd].
  pose proof (@assign_layers_run s plan P fuel HP) as Ha.
  destruct (_assign_layers fuel P) as [levels|e|]; cbn [bind];
    [|unfold Machine.bind at 1; now rewrite Ha
     |unfold Machine.bind at 1; now rewrite Ha].
  set (a0 := Machine.adjacency_object (incoming P)) in *.
  set (a1 := Machine.adjacency_object (outgoing P)) in *.
  set (a2 := Machine.levels_object levels) in *.
  set (a3 := Machine.deque_object []) in *.
  set (C := group_columns levels).
  set (sorted_levels := py_sorted Z.ltb (dict_keys C)).
  destruct (@map_nodes_run s nls (nodes P) HN a0 a1 a2 a3
              (Machine.columns_object C) (Machine.list_object []) [] [] []
              (Forall2_nil _)) as (K & Hmap & HK).
  fold (node_map P) in HK.
  assert (Hnd : NoDup sorted_levels).
  { eapply Permutation_NoDup.
    - symmetry. apply py_sorted_Permutation.
    - apply group_columns_NoDup. }
  pose proof (@place_columns_run s K (node_map P) h C sorted_levels HK 0 [] C
                a0 a1 a2 a3 Hnd (fun lv _ => eq_refl)) as Hpc.
  cbn [Machine.placed_refs Machine.placed_objects] in Hpc.
  assert (Hrun :
    Machine.bind (Machine._assign_layers fuel plan)
      (fun levels : Machine.loc =>
       Machine.bind (Machine.new (Machine.columns_object []))
         (fun columns : Machine.loc =>
          Machine.bind (Machine.get_levels levels)
            (fun lv : dict string Z =>
             Machine.bind (Machine.for_each lv (Machine.group_node columns))
               (fun _ : unit =>
                Machine.bind (Machine.get_columns columns)
                  (fun c : dict Z (list string) =>
                   Machine.bind (Machine.new (Machine.list_object []))
                     (fun nodes : Machine.loc =>
                      Machine.bind (Machine.node_map plan)
                        (fun node_lookup : Machine.loc =>
                         Machine.bind
                           (Machine.place_columns node_lookup columns nodes h 0
                              (py_sorted Z.ltb (dict_keys c)))
                           (fun _ : unit =>
                            Machine.bind (Machine.get_plan plan)
                              (fun '(_, edges) =>
                               Machine.new
                                 (Machine.LayoutResult_object w h nodes edges))))))))))
      s
    = match Binary64.place_columns (node_map P) C h 0 sorted_levels [] with
      | Return acc =>
          Machine.new (Machine.LayoutResult_object w h (5 + length s) es)
            (s ++ a0 :: a1 :: a2 :: a3
               :: Machine.columns_object (Machine.sorted_columns sorted_levels C)
               :: Machine.list_object (Machine.placed_refs (7 + length s) acc)
               :: Machine.lookup_object K
               :: Machine.placed_objects (7 + length s) acc)
      | Raise e => Machine.Raised (Machine.Python e)
      | OutOfFuel => Machine.OutOfIterations
      end).
  { unfold Machine.bind at 1. rewrite Ha.
    unfold Machine.bind at 1. rewrite new_app. cbn [length app].
    unfold Machine.bind at 1. unfold Machine.get_levels at 1.
    unfold Machine.bind at 1. rewrite get_new. cbn [nth_error].
    unfold a2 at 1. unfold Machine.ret at 1.
    unfold Machine.bind at 1. rewrite group_nodes_run.
    change (fold_left group_step levels []) with C.
    unfold Machine.bind at 1. unfold Machine.get_columns at 1.
    unfold Machine.bind at 1. rewrite get_new. cbn [nth_error].
    unfold Machine.ret at 1.
    unfold Machine.bind at 1. rewrite new_app. cbn [length app].
    unfold Machine.bind at 1. unfold Machine.node_map.
    unfold Machine.bind at 1. rewrite new_app. cbn [length app].
    unfold Machine.bind at 1. unfold Machine.get_plan at 1.
    unfold Machine.bind at 1. rewrite (@get_old s _ plan _ Hp).
    unfold Machine.ret at 1.
    unfold Machine.bind at 1. unfold Machine.get_list at 1.
    unfold Machine.bind at 1. rewrite (@get_old s _ ns _ Hns).
    unfold Machine.ret at 1.
    unfold Machine.bind at 1. rewrite Hmap.
    unfold Machine.ret at 1.
    unfold Machine.bind at 1. fold sorted_levels. rewrite Hpc.
    destruct (Binary64.place_columns (node_map P) C h 0 sorted_levels [])
      as [acc|e|]; [|reflexivity|reflexivity].
    unfold Machine.bind at 1. unfold Machine.get_plan at 1.
    unfold Machine.bind at 1. rewrite (@get_old s _ plan _ Hp).
    reflexivity. }
  rewrite Hrun. clear Hrun Hpc Ha.
  fold C. fold sorted_levels.
  destruct (Binary64.place_columns (node_map P) C h 0 sorted_levels [])
    as [acc|e|]; cbn [bind]; [|reflexivity|reflexivity].
  unfold Machine.new. rewrite <- app_assoc.
  set (made := (a0 :: a1 :: a2 :: a3
                  :: Machine.columns_object (Machine.sorted_columns sorted_levels C)
                  :: Machine.list_object (Machine.placed_refs (7 + length s) acc)
                  :: Machine.lookup_object K
                  :: Machine.placed_objects (7 + length s) acc)).
  set (res := Machine.LayoutResult_object w h (5 + length s) es).
  assert (Hres : nth_error (s ++ made ++ [res]) (length (s ++ made)) = Some res).
  { rewrite app_assoc. rewrite nth_error_app2 by lia.
    now rewrite Nat.sub_diag. }
  exists (length (s ++ made)), (made ++ [res]), es.
  split; [reflexivity|].
  split; [rewrite length_app; lia|].
  split; [exact Hres|].
  split; [eauto|].
  unfold Machine.read_result. rewrite Hres.
  cbv beta iota delta [res]. fold res.
  assert (Hnodes :
    Machine.read_list (Machine.read_positioned (s ++ made ++ [res]))
      (s ++ made ++ [res]) (5 + length s) = Some acc).
  { unfold Machine.read_list. rewrite nth_error_new. unfold made at 1.
    cbn [nth_error app].
    pose proof (@placed_objects_read acc
                  (s ++ [a0; a1; a2; a3;
                         Machine.columns_object
                           (Machine.sorted_columns sorted_levels C);
                         Machine.list_object
                           (Machine.placed_refs (7 + length s) acc);
                         Machine.lookup_object K]) [res]) as Hread.
    replace (length (s ++ [a0; a1; a2; a3;
                         Machine.columns_object
                           (Machine.sorted_columns sorted_levels C);
                         Machine.list_object
                           (Machine.placed_refs (7 + length s) acc);
                         Machine.lookup_object K]))
      with (7 + length s) in Hread
      by (rewrite length_app; cbn [length]; lia).
    rewrite <- app_assoc in Hread. exact Hread. }
  rewrite Hnodes.
  assert (Hedges :
    Machine.read_list (Machine.read_edge (s ++ made ++ [res]))
      (s ++ made ++ [res]) es = Some (edges P)).
  { apply (@read_list_old _ (Machine.read_edge s)
             (Machine.read_edge (s ++ made ++ [res])) s (made ++ [res]) es
             (edges P) (@read_edge_old s (made ++ [res]))).
    unfold Machine.read_list. now rewrite Hes. }
  now rewrite Hedges.
Qed.
End StoreRuns.

(** A run that returns: the function returns too, and the run is the one
    that [compute_layout_run] describes. *)
Lemma compute_layout_returned s plan P fuel cs r s1 :
  Machine.read_plan s plan = Some P ->
  Machine.compute_layout fuel plan cs s = Machine.Returned r s1 ->
  exists R new es,
    Binary64.compute_layout fuel P cs = Return R /\
    s1 = s ++ new /\
    length s <= r /\
    nth_error s1 r
    = Some (Machine.LayoutResult_object (Binary64.width R) (Binary64.height R)
              (5 + length s) es) /\
    (exists pn t d,
       nth_error s plan = Some (Machine.FigurePlan_object pn es t d)) /\
    Machine.read_result s1 r = Some R.
Proof.
  intros HP Hrun. pose proof (@compute_layout_run s plan P fuel cs HP) as Hsim.
  destruct (Binary64.compute_layout fuel P cs) as [R|e|];
    [|rewrite Hsim in Hrun; discriminate|rewrite Hsim in Hrun; discriminate].
  destruct Hsim as (r' & new & es & Hrun' & Hle & Hres & Hplan & Hread).
  rewrite Hrun' in Hrun. injection Hrun as <- <-.
  exists R, new, es. auto 10.
Qed.

Lemma read_result_Some_lt s r R :
  Machine.read_result s r = Some R -> r < length s.
Proof.
  unfold Machine.read_result. intros Hr. apply nth_error_Some.
  destruct (nth_error s r); [discriminate|discriminate Hr].
Qed.
(** * The claims *)

(** C1. On the plan with the 2-cycle a->b, b->a and no other node, and on
    the plan with the single self-loop a->a, [compute_layout] does not
    terminate: whatever the number of iterations granted to the
    [while queue:] loop, the queue has not drained, so no layer assignment
    is ever returned. *)
Theorem C1_cycle_never_returns :
  forall fuel canvas_size,
    compute_layout fuel two_cycle_plan canvas_size = OutOfFuel /\
    compute_layout fuel self_loop_plan canvas_size = OutOfFuel.
Proof.
  intros fuel cs. split; apply compute_layout_OutOfFuel.
  - apply two_cycle_diverges.
  - apply self_loop_diverges.
Qed.

(** C2. A plan with an empty node list makes [compute_layout] raise
    [IndexError] (from [plan.nodes[0]] on line 71) instead of returning an
    empty result, whatever its edges, title, description and canvas. *)
Theorem C2_empty_plan_raises :
  forall fuel es t d canvas_size,
    compute_layout fuel
      {| nodes := []; edges := es; title := t; description := d |} canvas_size
    = Raise IndexError.
Proof.
  intros fuel es t d cs. rewrite compute_layout_eq.
  rewrite assign_layers_empty; reflexivity.
Qed.

(** C3, as stated, fails: an edge whose source names no node is accepted
    and returned in the result, and an edge whose target names no node
    makes the placement lookup raise [KeyError]. *)
Lemma C3_dangling_edge_not_rejected :
  (In (mk_edge "z" "a") (edges dangling_source_plan) /\
   ~ In "z"%string (node_ids dangling_source_plan) /\
   compute_layout 1 dangling_source_plan None =
   Return {| width := 800; height := 600;
             r_nodes := [positioned (mk_node "a") 60 (460 # 2)];
             r_edges := [mk_edge "z" "a"] |}) /\
  (In (mk_edge "a" "z") (edges dangling_target_plan) /\
   ~ In "z"%string (node_ids dangling_target_plan) /\
   compute_layout 2 dangling_target_plan None = Raise (KeyError "z")).
Proof.
  repeat split; try reflexivity; simpl; auto; intros [H|[]]; discriminate.
Qed.

(** C3, amended. [compute_layout] does not validate edge endpoints.  When
    it returns, the edges of the result are the edges of the plan,
    unchanged; the only [KeyError] it raises names an identifier that is
    absent from the node set and is the target of an edge; the only other
    exception is the [IndexError] of an empty node list. *)
Theorem C3_no_endpoint_validation :
  forall fuel plan canvas_size,
    match compute_layout fuel plan canvas_size with
    | Return res => r_edges res = edges plan
    | Raise (KeyError id) =>
        ~ In id (node_ids plan) /\
        exists e, In e (edges plan) /\ target e = id
    | Raise IndexError => nodes plan = []
    | OutOfFuel => True
    end.
Proof.
  intros fuel plan cs.
  destruct (compute_layout fuel plan cs) as [res|e|] eqn:E; [| |exact I].
  - apply compute_layout_Return in E. destruct E as (levels & _ & _ & _ & He & _).
    exact He.
  - apply compute_layout_Raise in E.
    destruct E as [[-> Hn]|(id & -> & Hnin & Hed)]; auto.
Qed.




(** C5. For an acyclic plan whose edge endpoints all name nodes, the
    layout returns once the loop is granted [fuel_bound plan] iterations,
    and for every edge s->t the layers satisfy layer(t) >= layer(s) + 1
    and the positioned nodes of s and t satisfy x(t) > x(s). *)
Theorem C5_edges_point_right :
  forall plan canvas_size e fuel,
    acyclic plan -> endpoints_present plan ->
    In e (edges plan) -> fuel_bound plan <= fuel ->
    exists levels res ls lt,
      _assign_layers fuel plan = Return levels /\
      compute_layout fuel plan canvas_size = Return res /\
      dict_get levels (source e) = Some ls /\
      dict_get levels (target e) = Some lt /\
      (lt >= ls + 1)%Z /\
      (exists ps pt,
         In ps (r_nodes res) /\ p_identifier ps = source e /\
         In pt (r_nodes res) /\ p_identifier pt = target e) /\
      (forall ps pt,
         In ps (r_nodes res) -> p_identifier ps = source e ->
         In pt (r_nodes res) -> p_identifier pt = target e ->
         (x pt > x ps)%Q).
Proof.
  intros plan cs e fuel Hacyc Hend He Hfuel.
  assert (Hne : nodes plan <> []).
  { destruct (Hend e He) as [Hs _]. unfold node_ids in Hs.
    intros Hn. rewrite Hn in Hs. destruct Hs. }
  destruct (@acyclic_assign_layers plan Hacyc Hend fuel Hne Hfuel)
    as (levels & Ha & Hkeys & Hedges).
  destruct (@compute_layout_total plan fuel cs levels Ha) as (res & Hc).
  { intros id. apply Hkeys. }
  destruct (Hedges (source e) (target e)) as (ls & lt & Hls & Hlt & Hle).
  { exists e. auto. }
  exists levels, res, ls, lt.
  destruct (layout_view _ _ _ Hc) as (levels' & Ha' & Hnd & Hpl & Hex & _).
  rewrite Ha in Ha'. injection Ha' as <-.
  repeat (split; [assumption || lia|]). split.
  - destruct (Hex (source e)) as (ps & Hps & Hids);
      [eapply dict_get_Some_key; eauto|].
    destruct (Hex (target e)) as (pt & Hpt & Hidt);
      [eapply dict_get_Some_key; eauto|].
    exists ps, pt. auto.
  - intros ps pt Hps Hids Hpt Hidt.
    rewrite <- Hids in Hls. rewrite <- Hidt in Hlt.
    rewrite (placed_x (Hpl ps Hps) Hls), (placed_x (Hpl pt Hpt) Hlt).
    apply column_x_lt, column_index_lt; [|lia].
    eapply occupied_levels_In; eauto.
Qed.

Lemma C5_edges_point_right_witness :
  exists levels res ls lt,
    _assign_layers 33 chain_plan = Return levels /\
    compute_layout 33 chain_plan None = Return res /\
    dict_get levels "a"%string = Some ls /\
    dict_get levels "b"%string = Some lt /\
    (lt >= ls + 1)%Z /\
    (exists ps pt,
       In ps (r_nodes res) /\ p_identifier ps = "a"%string /\
       In pt (r_nodes res) /\ p_identifier pt = "b"%string) /\
    (forall ps pt,
       In ps (r_nodes res) -> p_identifier ps = "a"%string ->
       In pt (r_nodes res) -> p_identifier pt = "b"%string ->
       (x pt > x ps)%Q).
Proof.
  apply (@C5_edges_point_right chain_plan None (mk_edge "a" "b") 33).
  - exact chain_plan_acyclic.
  - exact chain_plan_endpoints.
  - simpl. auto.
  - vm_compute. lia.
Defined.

Section RowsBinary64.
Import PrimFloat.

(** C6. In a returned layout, computed in binary64 as the program
    computes it, a node of a layer with [k] nodes whose identifier has rank
    [i] in ascending lexicographic order among them is at
    y = max(60, (canvasHeight - 140 * max(1, k - 1)) / 2) + i * 140, each
    operation rounded to the nearest float.  Of two nodes of one layer the
    one with the smaller identifier has the smaller rank, and the result
    lists it first. *)
Theorem C6_rows_stacked :
  forall fuel plan canvas_size res,
    Binary64.compute_layout fuel plan canvas_size = Return res ->
    exists levels,
      _assign_layers fuel plan = Return levels /\
      (forall pn, In pn (Binary64.r_nodes res) ->
         exists lv,
           dict_get levels (Binary64.p_identifier pn) = Some lv /\
           Binary64.y pn =
           (Binary64.py_max 60
              ((Binary64.height res
                - 140 * Binary64.float_of_Z
                          (Z.max 1 (Z.of_nat (layer_size levels lv) - 1)))
               / 2)
            + Binary64.float_of_nat
                (row_rank levels lv (Binary64.p_identifier pn)) * 140)%float) /\
      (forall a b lv,
         dict_get levels a = Some lv -> dict_get levels b = Some lv ->
         str_ltb a b = true ->
         row_rank levels lv a < row_rank levels lv b) /\
      StronglySorted
        (fun p q =>
           forall lv,
             dict_get levels (Binary64.p_identifier p) = Some lv ->
             dict_get levels (Binary64.p_identifier q) = Some lv ->
             str_ltb (Binary64.p_identifier p) (Binary64.p_identifier q) = true)
        (Binary64.r_nodes res).
Proof.
  intros fuel plan cs res Hc.
  destruct (@compute_layout64_Return plan fuel cs res Hc)
    as (levels & Ha & _ & _ & HF).
  assert (Hnd : NoDup (dict_keys levels)) by now apply assign_layers_spec in Ha.
  exists levels. split; [exact Ha|]. split; [|split].
  - intros pn Hin.
    destruct (placed64_In pn HF Hin) as (lv & node & Hlv & _ & Hpn).
    exists lv. split; [exact Hlv|]. rewrite Hpn at 1. reflexivity.
  - intros a b lv Ha' _ Hab. apply row_rank_lt; [|exact Hab].
    now apply layer_members_In.
  - eapply StronglySorted_Forall2;
      [|exact HF|exact (@visit_order_sorted levels Hnd)].
    intros a b pa pb Hpa Hpb (la & lb & Hla & Hlb & Hlt) lv Hlva Hlvb.
    assert (Ea : Binary64.p_identifier pa = a).
    { destruct Hpa as (? & node & _ & Hn & ->). simpl.
      now destruct (node_map_get _ _ Hn). }
    assert (Eb : Binary64.p_identifier pb = b).
    { destruct Hpb as (? & node & _ & Hn & ->). simpl.
      now destruct (node_map_get _ _ Hn). }
    rewrite Ea in *. rewrite Eb in *.
    destruct Hlt as [Hlt|[_ Hlt]]; [|exact Hlt].
    rewrite Hla in Hlva. rewrite Hlb in Hlvb.
    injection Hlva as <-. injection Hlvb as <-. lia.
Qed.

Lemma C6_rows_stacked_witness :
  exists levels,
    _assign_layers 3 fan_plan = Return levels /\
    (forall pn, In pn (Binary64.r_nodes Binary64.fan_result) ->
       exists lv,
         dict_get levels (Binary64.p_identifier pn) = Some lv /\
         Binary64.y pn =
         (Binary64.py_max 60
            ((Binary64.height Binary64.fan_result
              - 140 * Binary64.float_of_Z
                        (Z.max 1 (Z.of_nat (layer_size levels lv) - 1)))
             / 2)
          + Binary64.float_of_nat
              (row_rank levels lv (Binary64.p_identifier pn)) * 140)%float) /\
    (forall a b lv,
       dict_get levels a = Some lv -> dict_get levels b = Some lv ->
       str_ltb a b = true ->
       row_rank levels lv a < row_rank levels lv b) /\
    StronglySorted
      (fun p q =>
         forall lv,
           dict_get levels (Binary64.p_identifier p) = Some lv ->
           dict_get levels (Binary64.p_identifier q) = Some lv ->
           str_ltb (Binary64.p_identifier p) (Binary64.p_identifier q) = true)
      (Binary64.r_nodes Binary64.fan_result).
Proof.
  exact (@C6_rows_stacked 3 fan_plan None Binary64.fan_result eq_refl).
Defined.

(** C6, the part that fails.  The nodes "b" and "c" of [fan_plan] share
    layer 1 with ranks 0 and 1.  On a canvas of height 372.2 they are put
    at the floats nearest to 116.1 and 256.1, which lie 140 + 2^-45 apart,
    not 140.  On a canvas of height 1e19 both are put at 5e18: two nodes of
    one layer with one y. *)
Lemma C6_rows_gap_not_exact :
  (Binary64.compute_layout 3 fan_plan (Some (800%float, Binary64.h372))
   = Return (Binary64.fan_layout 800 Binary64.h372
               Binary64.y116 Binary64.y116 Binary64.y256) /\
   Binary64.to_Q Binary64.y116
   = Some (8169811199026790 # 70368744177664)%Q /\
   Binary64.to_Q Binary64.y256
   = Some (4505358845974938 # 17592186044416)%Q /\
   ((4505358845974938 # 17592186044416) - (8169811199026790 # 70368744177664)
    == 140 + (1 # 35184372088832))%Q /\
   ~ ((4505358845974938 # 17592186044416) - (8169811199026790 # 70368744177664)
      == 140)%Q) /\
  Binary64.compute_layout 3 fan_plan (Some (800%float, Binary64.h1e19))
  = Return (Binary64.fan_layout 800 Binary64.h1e19
              Binary64.y5e18 Binary64.y5e18 Binary64.y5e18).
Proof.
  split; [|reflexivity].
  split; [reflexivity|]. split; [reflexivity|]. split; [reflexivity|].
  split; [reflexivity|]. intros H. vm_compute in H. discriminate.
Qed.

End RowsBinary64.

(** C7. In a returned layout, let [sl] be the distinct layer values in
    use, in ascending order.  Every node whose layer is the entry of [sl]
    at position [c] is at x = 60 + c * 200, and every position of [sl]
    has such a node: the columns are numbered 0, 1, 2, ... with no gap,
    whatever gaps the layer values have.  The canvas of the result is the
    one requested, or 800 x 600 when none is. *)
Theorem C7_columns_consecutive :
  forall fuel plan canvas_size res,
    compute_layout fuel plan canvas_size = Return res ->
    exists levels sl,
      _assign_layers fuel plan = Return levels /\
      (width res, height res) =
        match canvas_size with Some c => c | None => (800, 600)%Q end /\
      StronglySorted Z.lt sl /\
      (forall lv, In lv sl <-> exists id, dict_get levels id = Some lv) /\
      (forall pn, In pn (r_nodes res) ->
         exists lv c,
           dict_get levels (p_identifier pn) = Some lv /\
           nth_error sl c = Some lv /\
           (x pn == 60 + float_of_nat c * 200)%Q) /\
      (forall c lv, nth_error sl c = Some lv ->
         exists pn,
           In pn (r_nodes res) /\
           dict_get levels (p_identifier pn) = Some lv /\
           (x pn == 60 + float_of_nat c * 200)%Q).
Proof.
  intros fuel plan cs res Hc.
  destruct (layout_view _ _ _ Hc) as (levels & Ha & Hnd & Hpl & Hex & _).
  set (sl := py_sorted Z.ltb (dict_keys (group_columns levels))).
  assert (Hsl : forall lv, In lv sl <-> exists id, dict_get levels id = Some lv).
  { intros lv. unfold sl. rewrite sorted_levels_In, dict_values_In. split.
    - intros (id & Hin). exists id. now apply dict_In_get.
    - intros (id & Hg). exists id. now apply dict_get_In. }
  exists levels, sl. split; [exact Ha|].
  split; [|split; [|split; [exact Hsl|split]]].
  - apply compute_layout_Return in Hc.
    destruct Hc as (_ & _ & Hw & Hh & _). rewrite Hw, Hh.
    unfold canvas. now destruct cs as [[w h]|].
  - generalize (sorted_levels_sorted levels). fold sl.
    apply StronglySorted_Forall2 with (T := eq).
    + intros a b a' b' <- <-. apply Z.ltb_lt.
    + clear. induction sl; constructor; auto.
  - intros pn Hin. destruct (placed_level (Hpl pn Hin)) as (lv & Hlv).
    assert (Hlv' : In lv sl) by (apply Hsl; eauto).
    apply In_nth_error in Hlv'. destruct Hlv' as (c & Hc').
    exists lv, c. split; [exact Hlv|split; [exact Hc'|]].
    rewrite (placed_x (Hpl pn Hin) Hlv), (sorted_levels_index levels _ Hc').
    reflexivity.
  - intros c lv Hc'.
    assert (Hlv : In lv sl) by (eapply nth_error_In; eauto).
    apply Hsl in Hlv. destruct Hlv as (id & Hid).
    destruct (Hex id) as (pn & Hin & Hpn); [eapply dict_get_Some_key; eauto|].
    subst id. exists pn. split; [exact Hin|split; [exact Hid|]].
    rewrite (placed_x (Hpl pn Hin) Hid), (sorted_levels_index levels _ Hc').
    reflexivity.
Qed.

Lemma C7_columns_consecutive_witness :
  exists levels sl,
    _assign_layers 3 fan_plan = Return levels /\
    (width fan_result, height fan_result) = (800, 600)%Q /\
    StronglySorted Z.lt sl /\
    (forall lv, In lv sl <-> exists id, dict_get levels id = Some lv) /\
    (forall pn, In pn (r_nodes fan_result) ->
       exists lv c,
         dict_get levels (p_identifier pn) = Some lv /\
         nth_error sl c = Some lv /\
         (x pn == 60 + float_of_nat c * 200)%Q) /\
    (forall c lv, nth_error sl c = Some lv ->
       exists pn,
         In pn (r_nodes fan_result) /\
         dict_get levels (p_identifier pn) = Some lv /\
         (x pn == 60 + float_of_nat c * 200)%Q).
Proof.
  exact (@C7_columns_consecutive 3 fan_plan None fan_result eq_refl).
Defined.

(** C8. Two plans with unique identifiers and every edge endpoint present
    for which no [LayoutResult] comes back, so that no node of theirs is
    covered: the empty plan, on which [compute_layout] raises [IndexError],
    and the 2-cycle, on which the loop never exits. *)
Theorem C8_totality_fails :
  (NoDup (node_ids empty_plan) /\ endpoints_present empty_plan /\
   forall fuel canvas_size res,
     compute_layout fuel empty_plan canvas_size <> Return res) /\
  (NoDup (node_ids two_cycle_plan) /\ endpoints_present two_cycle_plan /\
   forall fuel canvas_size res,
     compute_layout fuel two_cycle_plan canvas_size <> Return res).
Proof.
  split; (split; [|split]).
  - constructor.
  - intros e [].
  - intros fuel cs res. rewrite compute_layout_eq.
    rewrite assign_layers_empty by reflexivity. discriminate.
  - repeat constructor; simpl; intuition discriminate.
  - intros e [<-|[<-|[]]]; simpl; auto.
  - intros fuel cs res Hc.
    assert (H : compute_layout fuel two_cycle_plan cs = OutOfFuel)
      by apply compute_layout_OutOfFuel, two_cycle_diverges.
    congruence.
Qed.

(** C9. Two invocations of [compute_layout] with equal inputs return
    identical results.  The statement is over the store: the plan is an
    object, the engine reads it, makes objects and writes to them.  Let a
    reference [plan] have the value [P] in a store [s], and let a run on it
    return [r1] and leave the store [s1]; let a second run, with the same
    canvas size, in any store [s'] and on any reference [plan'] whose value
    there is [P], return [r2] and leave [s2].  Then the two references read
    as one [LayoutResult], field for field and float for float, and this is
    the value of the function [Binary64.compute_layout] at [(P, cs)]; each
    run left every object it was given as it was and only added objects;
    and when the second run starts where the first ended, or later with
    more objects made in between, the first result still reads the same
    after it, the two results are distinct objects, and [plan] still has
    the value [P].  The number of iterations allowed to each run plays no
    part. *)
Theorem C9_deterministic :
  forall fuel1 fuel2 cs s plan P r1 s1 s' plan' r2 s2,
    Machine.read_plan s plan = Some P ->
    Machine.compute_layout fuel1 plan cs s = Machine.Returned r1 s1 ->
    Machine.read_plan s' plan' = Some P ->
    Machine.compute_layout fuel2 plan' cs s' = Machine.Returned r2 s2 ->
    exists R,
      Binary64.compute_layout fuel1 P cs = Return R /\
      Machine.read_result s1 r1 = Some R /\
      Machine.read_result s2 r2 = Some R /\
      (exists new, s1 = s ++ new) /\
      (exists new, s2 = s' ++ new) /\
      (forall between, s' = s1 ++ between ->
         Machine.read_result s2 r1 = Some R /\
         r1 <> r2 /\
         Machine.read_plan s2 plan = Some P).
Proof.
  intros fuel1 fuel2 cs s plan P r1 s1 s' plan' r2 s2 HP Hrun1 HP' Hrun2.
  destruct (@compute_layout_returned s plan P fuel1 cs r1 s1 HP Hrun1)
    as (R1 & new1 & es1 & HR1 & Hs1 & Hle1 & _ & _ & Hread1).
  destruct (@compute_layout_returned s' plan' P fuel2 cs r2 s2 HP' Hrun2)
    as (R2 & new2 & es2 & HR2 & Hs2 & Hle2 & _ & _ & Hread2).
  assert (HR : R2 = R1).
  { pose proof (@compute_layout64_fuel_mono P fuel1 (Nat.max fuel1 fuel2) cs R1
                  HR1 (Nat.le_max_l _ _)) as H1.
    pose proof (@compute_layout64_fuel_mono P fuel2 (Nat.max fuel1 fuel2) cs R2
                  HR2 (Nat.le_max_r _ _)) as H2.
    congruence. }
  subst R2. exists R1.
  split; [exact HR1|]. split; [exact Hread1|]. split; [exact Hread2|].
  split; [now exists new1|]. split; [now exists new2|].
  intros between Hs'. subst s' s2.
  split; [|split].
  - rewrite <- app_assoc. now apply read_result_old.
  - apply read_result_Some_lt in Hread1. rewrite length_app in Hle2. lia.
  - rewrite <- app_assoc. apply read_plan_old. subst s1.
    now apply read_plan_old.
Qed.

Lemma C9_deterministic_witness :
  exists R,
    Binary64.compute_layout 3 fan_plan None = Return R /\
    Machine.read_result Machine.fan_store_once 24 = Some R /\
    Machine.read_result Machine.fan_store_twice 38 = Some R /\
    (exists new, Machine.fan_store_once = Machine.fan_store ++ new) /\
    (exists new, Machine.fan_store_twice = Machine.fan_store_once ++ new) /\
    (forall between,
       Machine.fan_store_once = Machine.fan_store_once ++ between ->
       Machine.read_result Machine.fan_store_twice 24 = Some R /\
       24 <> 38 /\
       Machine.read_plan Machine.fan_store_twice 0 = Some fan_plan).
Proof.
  exact (@C9_deterministic 3 3 None Machine.fan_store 0 fan_plan
           24 Machine.fan_store_once Machine.fan_store_once 0
           38 Machine.fan_store_twice eq_refl eq_refl eq_refl eq_refl).
Defined.

(** C10. The nodes of a returned layout are listed in ascending order of
    the column index of their layer and, within a column, in ascending
    lexicographic order of their identifiers. *)
Theorem C10_output_sorted :
  forall fuel plan canvas_size res,
    compute_layout fuel plan canvas_size = Return res ->
    exists levels,
      _assign_layers fuel plan = Return levels /\
      StronglySorted (output_lt levels) (r_nodes res).
Proof.
  intros fuel plan cs res Hc.
  destruct (layout_view _ _ _ Hc) as (levels & Ha & _ & _ & _ & _ & Hs).
  exists levels. split; assumption.
Qed.

Lemma C10_output_sorted_witness :
  exists levels,
    _assign_layers 3 fan_plan = Return levels /\
    StronglySorted (output_lt levels) (r_nodes fan_result).
Proof.
  exact (@C10_output_sorted 3 fan_plan None fan_result eq_refl).
Defined.

(** * Further properties of the layering and the placement *)

(** ** Where a level comes from *)

Section Support.
Variable plan : FigurePlan.

Lemma visit_supported levels current rest levels' queue' :
  supported plan levels ->
  visit (outgoing plan) levels current rest = Return (levels', queue') ->
  supported plan levels'.
Proof.
  intros Hsup Hv. apply visit_Return in Hv. destruct Hv as (cl & Hcl & Hf).
  set (P := fun (lv : dict string Z) (q : list string) =>
              supported plan lv /\
              exists l', dict_get lv current = Some l' /\ (cl <= l')%Z).
  assert (HP : P levels' queue').
  { assert (Hind := @fold_relax_ind cl P (successors plan current)).
    specialize (fun H H0 => Hind H levels rest H0). rewrite Hf in Hind.
    apply Hind.
    - intros lv q n Hn (Hs & l' & Hl' & Hle) Hlt. split.
      + intros t lt. rewrite dict_get_set.
        destruct (key_eqb t n) eqn:E.
        * apply key_eqb_eq in E. subst t. intros [= <-] _.
          exists current. rewrite dict_get_set.
          destruct (key_eqb current n).
          -- exists (cl + 1)%Z. split; [now apply successors_edge|].
             split; [reflexivity|lia].
          -- exists l'. split; [now apply successors_edge|].
             split; [exact Hl'|lia].
        * intros Hlt' Hpos. destruct (Hs _ _ Hlt' Hpos) as (s & ls & He & Hls & Hge).
          exists s. rewrite dict_get_set. destruct (key_eqb s n) eqn:Es.
          -- apply key_eqb_eq in Es. subst s. exists (cl + 1)%Z.
             split; [exact He|split; [reflexivity|]].
             specialize (Hlt _ Hls). lia.
          -- exists ls. auto.
      + rewrite dict_get_set. destruct (key_eqb current n).
        * exists (cl + 1)%Z. split; [reflexivity|lia].
        * exists l'. auto.
    - split; [exact Hsup|]. exists cl. split; [exact Hcl|lia]. }
  exact (proj1 HP).
Qed.

Lemma loop_exit_supported fuel levels0 queue0 reached :
  initial_state plan = Return (levels0, queue0) ->
  relax_loop fuel (outgoing plan) levels0 queue0 = Return reached ->
  supported plan reached.
Proof.
  intros E0 E1. apply initial_state_Return in E0.
  destruct E0 as (_ & _ & Hzero & _).
  apply (@relax_loop_invariant (outgoing plan) (fun l _ => supported plan l))
    with (fuel := fuel) (levels := levels0) (queue := queue0); auto.
  - intros levels current rest levels' queue' Hs Hv.
    eapply visit_supported; eauto.
  - intros t lt Hlt Hpos. apply Hzero in Hlt. lia.
Qed.

(** At the exit of [_assign_layers] a positive level is exactly one above
    the level of some predecessor. *)
Lemma assign_layers_tight fuel levels t lt :
  _assign_layers fuel plan = Return levels ->
  dict_get levels t = Some lt -> (0 < lt)%Z ->
  exists s, edge_rel plan s t /\ dict_get levels s = Some (lt - 1)%Z.
Proof.
  intros Ha Hlt Hpos. apply assign_layers_Return in Ha.
  destruct Ha as (levels0 & queue0 & reached & E0 & E1 & ->).
  pose proof (loop_exit_supported _ E0 E1) as Hsup.
  destruct (@loop_exit plan fuel _ _ _ E0 E1) as (_ & Hset & _).
  apply default_levels_get in Hlt. destruct Hlt as [Hlt|(_ & _ & ->)]; [|lia].
  destruct (Hsup _ _ Hlt Hpos) as (s & ls & He & Hls & Hge).
  destruct (Hset s ls t Hls) as (lt' & Hlt' & Hle);
    [now apply successors_edge|].
  rewrite Hlt in Hlt'. injection Hlt' as <-.
  exists s. split; [exact He|]. apply default_levels_get. left.
  rewrite Hls. f_equal. lia.
Qed.
End Support.

(** X1. Whenever [_assign_layers] returns, every node of the plan has a
    layer, every layer is at least 0, and an identifier with a layer is a
    node or the target of an edge. *)
Theorem X1_layers_total_nonneg :
  forall fuel plan levels,
    _assign_layers fuel plan = Return levels ->
    (forall node, In node (nodes plan) ->
       exists l, dict_get levels (identifier node) = Some l) /\
    (forall id l, dict_get levels id = Some l ->
       (0 <= l)%Z /\
       (In id (node_ids plan) \/ exists e, In e (edges plan) /\ target e = id)).
Proof.
  intros fuel plan levels Ha.
  destruct (@assign_layers_spec plan fuel _ Ha) as (_ & Hn & Hu & Hnn).
  split.
  - intros node Hin. apply dict_key_get, Hn. unfold node_ids. now apply in_map.
  - intros id l Hl. split; [eauto|].
    apply dict_get_Some_key in Hl. apply Hu in Hl.
    apply in_app_or in Hl. destruct Hl as [Hl|Hl]; [now left|right].
    apply in_map_iff in Hl. destruct Hl as (e & Ht & He). eauto.
Qed.

Lemma X1_layers_total_nonneg_witness :
  (forall node, In node (nodes fan_plan) ->
     exists l, dict_get fan_levels (identifier node)
               = Some l) /\
  (forall id l, dict_get fan_levels id = Some l ->
     (0 <= l)%Z /\
     (In id (node_ids fan_plan) \/ exists e, In e (edges fan_plan) /\ target e = id)).
Proof.
  exact (@X1_layers_total_nonneg 3 fan_plan _ eq_refl).
Defined.

(** X2. Whenever [_assign_layers] returns, an identifier at a layer
    [l > 0] has an incoming edge from an identifier at layer [l - 1], and
    an identifier without any incoming edge is at layer 0. *)
Theorem X2_layers_tight :
  forall fuel plan levels t lt,
    _assign_layers fuel plan = Return levels ->
    dict_get levels t = Some lt ->
    ((0 < lt)%Z ->
     exists s, edge_rel plan s t /\ dict_get levels s = Some (lt - 1)%Z) /\
    ((forall e, In e (edges plan) -> target e <> t) -> lt = 0%Z).
Proof.
  intros fuel plan levels t lt Ha Hlt. split.
  - intros Hpos. eapply assign_layers_tight; eauto.
  - intros Hno.
    destruct (@assign_layers_spec plan fuel _ Ha) as (_ & _ & _ & Hnn).
    specialize (Hnn _ _ Hlt).
    destruct (Z.eq_dec lt 0) as [->|Hne]; [reflexivity|].
    destruct (@assign_layers_tight plan fuel levels t lt Ha Hlt) as (s & He & _);
      [lia|].
    destruct He as (e & He & _ & Ht). exfalso. exact (Hno e He Ht).
Qed.

Lemma X2_layers_tight_witness :
  ((0 < 2)%Z ->
   exists s, edge_rel chain_plan s "c" /\ dict_get chain_levels s = Some (2 - 1)%Z)
  /\
  ((forall e, In e (edges chain_plan) -> target e <> "c"%string) -> 2%Z = 0%Z).
Proof.
  exact (@X2_layers_tight 3 chain_plan chain_levels "c" 2 eq_refl eq_refl).
Defined.

(** ** Layers without gaps *)

Lemma levels_contiguous fuel plan levels :
  _assign_layers fuel plan = Return levels ->
  forall n id lv,
    dict_get levels id = Some lv -> (Z.of_nat n <= lv)%Z ->
    exists id', dict_get levels id' = Some (lv - Z.of_nat n)%Z.
Proof.
  intros Ha. induction n as [|n IH]; intros id lv Hlv Hle.
  - exists id. rewrite Hlv. f_equal. lia.
  - destruct (IH id lv Hlv) as (id' & Hid'); [lia|].
    destruct (@assign_layers_tight plan fuel levels id' _ Ha Hid') as (s & _ & Hs);
      [lia|].
    exists s. rewrite Hs. f_equal. lia.
Qed.

Lemma NoDup_map_injective {A B : Type} (f : A -> B) (l : list A) :
  (forall a b, f a = f b -> a = b) -> NoDup l -> NoDup (map f l).
Proof.
  intros Hinj. induction 1 as [|a l Hnin Hnd IH]; simpl; constructor; auto.
  intros Hin. apply in_map_iff in Hin. destruct Hin as (b & Hb & Hin).
  apply Hinj in Hb. now subst.
Qed.

Lemma occupied_levels_spec (levels : dict string Z) lv :
  NoDup (dict_keys levels) ->
  In lv (occupied_levels levels) <-> exists id, dict_get levels id = Some lv.
Proof.
  intros Hnd. unfold occupied_levels. rewrite nodup_In, dict_values_In. split.
  - intros (id & Hin). exists id. now apply dict_In_get.
  - intros (id & Hg). exists id. now apply dict_get_In.
Qed.

(** With no gap below it, a layer is its own column index. *)
Lemma column_index_level fuel plan levels id lv :
  _assign_layers fuel plan = Return levels ->
  dict_get levels id = Some lv ->
  column_index levels lv = Z.to_nat lv.
Proof.
  intros Ha Hlv.
  destruct (@assign_layers_spec plan fuel _ Ha) as (Hnd & _ & _ & Hnn).
  unfold column_index.
  assert (Hperm : Permutation
                    (filter (fun l => Z.ltb l lv) (occupied_levels levels))
                    (map Z.of_nat (seq 0 (Z.to_nat lv)))).
  { apply NoDup_Permutation.
    - apply NoDup_filter, NoDup_nodup.
    - apply NoDup_map_injective; [|apply seq_NoDup].
      intros a b Hab. lia.
    - intros z. rewrite filter_In, (@occupied_levels_spec levels z Hnd), in_map_iff.
      rewrite Z.ltb_lt. split.
      + intros [(id' & Hz) Hlt]. exists (Z.to_nat z).
        pose proof (Hnn _ _ Hz). split; [lia|]. apply in_seq. lia.
      + intros (k & <- & Hk). apply in_seq in Hk. split; [|lia].
        destruct (@levels_contiguous fuel plan levels Ha
                    (Z.to_nat lv - k) id lv Hlv) as (id' & Hid'); [lia|].
        exists id'. rewrite Hid'. f_equal. lia. }
  rewrite (Permutation_length Hperm), length_map, length_seq. reflexivity.
Qed.

(** X3. In a returned layout the layers in use are 0, 1, ..., up to the
    largest one, with no gap, and a node at layer [l] is at
    x = 60 + 200 * l, whatever the canvas. *)
Theorem X3_x_is_layer :
  forall fuel plan canvas_size res,
    compute_layout fuel plan canvas_size = Return res ->
    exists levels,
      _assign_layers fuel plan = Return levels /\
      forall pn, In pn (r_nodes res) ->
        exists lv,
          dict_get levels (p_identifier pn) = Some lv /\
          (0 <= lv)%Z /\
          (x pn == 60 + 200 * inject_Z lv)%Q /\
          (forall k, (0 <= k <= lv)%Z ->
             exists qn, In qn (r_nodes res) /\
                        dict_get levels (p_identifier qn) = Some k).
Proof.
  intros fuel plan cs res Hc.
  destruct (layout_view _ _ _ Hc) as (levels & Ha & Hnd & Hpl & Hex & _).
  exists levels. split; [exact Ha|].
  intros pn Hin. destruct (placed_level (Hpl pn Hin)) as (lv & Hlv).
  destruct (@assign_layers_spec plan fuel _ Ha) as (_ & _ & _ & Hnn).
  pose proof (Hnn _ _ Hlv) as H0.
  exists lv. split; [exact Hlv|split; [exact H0|split]].
  - rewrite (placed_x (Hpl pn Hin) Hlv),
      (@column_index_level fuel plan levels _ lv Ha Hlv).
    unfold column_x, MARGIN, NODE_SPACING, float_of_nat. simpl fst.
    rewrite Z2Nat.id by exact H0. ring.
  - intros k Hk.
    destruct (@levels_contiguous fuel plan levels Ha (Z.to_nat (lv - k))
                (p_identifier pn) lv Hlv) as (id' & Hid'); [lia|].
    rewrite Z2Nat.id in Hid' by lia.
    replace (lv - (lv - k))%Z with k in Hid' by lia.
    destruct (Hex id') as (qn & Hqn & Hq); [eapply dict_get_Some_key; eauto|].
    exists qn. split; [exact Hqn|]. now rewrite Hq.
Qed.

Lemma X3_x_is_layer_witness :
  exists levels,
    _assign_layers 3 fan_plan = Return levels /\
    forall pn, In pn (r_nodes fan_result) ->
      exists lv,
        dict_get levels (p_identifier pn) = Some lv /\
        (0 <= lv)%Z /\
        (x pn == 60 + 200 * inject_Z lv)%Q /\
        (forall k, (0 <= k <= lv)%Z ->
           exists qn, In qn (r_nodes fan_result) /\
                      dict_get levels (p_identifier qn) = Some k).
Proof.
  exact (@X3_x_is_layer 3 fan_plan None fan_result eq_refl).
Defined.

(** ** Layers of an acyclic plan are longest-walk lengths *)

Section LongestWalk.
Variable plan : FigurePlan.
Hypothesis plan_acyclic : acyclic plan.
Hypothesis plan_endpoints : endpoints_present plan.

Lemma loop_exit_bounded fuel levels0 queue0 reached :
  initial_state plan = Return (levels0, queue0) ->
  relax_loop fuel (outgoing plan) levels0 queue0 = Return reached ->
  bounded plan reached.
Proof.
  intros E0 E1. apply initial_state_Return in E0.
  destruct E0 as (Hwf & _ & Hzero & _).
  assert (H := @relax_loop_invariant (outgoing plan)
    (fun l q => well_formed plan l q /\ bounded plan l)).
  specialize (fun Hs => H Hs fuel levels0 queue0 reached).
  destruct H as (_ & Hb); auto.
  - intros levels current rest levels' queue' (Ha & Hb) Hv.
    destruct (@visit_decreases plan plan_acyclic levels current rest Ha Hb)
      as (l' & q' & Hv' & Hinv & _).
    rewrite Hv in Hv'. injection Hv' as <- <-. exact Hinv.
  - split; [exact Hwf|]. intros id l Hl. apply Hzero in Hl. lia.
Qed.

Lemma walk_start m n w :
  walk (edges plan) m n w -> w <> [] ->
  exists e, In e (edges plan) /\ source e = m.
Proof.
  induction 1 as [|e w He Hw IH]; [congruence|]. intros _.
  destruct w as [|e' w'].
  - inversion Hw; subst. eauto.
  - apply IH. discriminate.
Qed.

Lemma walk_climbs reached m n w :
  (forall s, settled plan reached s) ->
  walk (edges plan) m n w ->
  forall lm, dict_get reached m = Some lm ->
  exists ln, dict_get reached n = Some ln /\ (lm + Z.of_nat (length w) <= ln)%Z.
Proof.
  intros Hset. induction 1 as [|e w He Hw IH]; intros lm Hlm.
  - exists lm. split; [exact Hlm|simpl; lia].
  - destruct (IH _ Hlm) as (ls & Hls & Hle).
    destruct (Hset (source e) ls (target e) Hls) as (lt & Hlt & Hle').
    + apply successors_edge. exists e. auto.
    + exists lt. split; [exact Hlt|]. simpl length. lia.
Qed.

Lemma acyclic_levels_rank fuel levels id :
  _assign_layers fuel plan = Return levels ->
  In id (node_ids plan) ->
  dict_get levels id = Some (Z.of_nat (rank plan id)).
Proof.
  intros Ha Hid. apply assign_layers_Return in Ha.
  destruct Ha as (levels0 & queue0 & reached & E0 & E1 & ->).
  pose proof (loop_exit_bounded _ E0 E1) as Hb.
  destruct (@loop_exit plan fuel _ _ _ E0 E1) as (Hwf & Hset & _).
  pose proof (@acyclic_all_reached plan plan_acyclic plan_endpoints
                fuel _ _ _ E0 E1) as Hall.
  destruct (dict_key_get _ _ (Hall id Hid)) as (l & Hl).
  apply default_levels_get. left. rewrite Hl. f_equal.
  pose proof (Hb _ _ Hl) as Hup.
  destruct (depth_walk plan (length (edges plan)) id) as (m & w & Hw & Hlen).
  fold (rank plan id) in Hlen.
  assert (Hm : In m (node_ids plan)).
  { destruct w as [|e w'].
    - inversion Hw; subst. exact Hid.
    - destruct (walk_start Hw) as (e0 & He0 & <-); [discriminate|].
      now apply plan_endpoints. }
  destruct (dict_key_get _ _ (Hall m Hm)) as (lm & Hlm).
  destruct (walk_climbs Hset Hw Hlm) as (ln & Hln & Hle).
  rewrite Hl in Hln. injection Hln as <-.
  pose proof (wf_nonneg Hwf _ Hlm). lia.
Qed.
End LongestWalk.

(** X4. For an acyclic plan whose edge endpoints all name nodes, the layer
    that [_assign_layers] gives a node is the number of edges of the
    longest walk that ends at it. *)
Theorem X4_layer_is_longest_walk :
  forall fuel plan levels node,
    acyclic plan -> endpoints_present plan ->
    _assign_layers fuel plan = Return levels ->
    In node (nodes plan) ->
    exists l,
      dict_get levels (identifier node) = Some (Z.of_nat l) /\
      (exists m w, walk (edges plan) m (identifier node) w /\ length w = l) /\
      (forall m w, walk (edges plan) m (identifier node) w -> length w <= l).
Proof.
  intros fuel plan levels node Hacyc Hend Ha Hin.
  exists (rank plan (identifier node)). split; [|split].
  - apply (@acyclic_levels_rank plan Hacyc Hend fuel); [exact Ha|].
    unfold node_ids. now apply in_map.
  - apply depth_walk.
  - intros m w Hw. unfold rank. apply (@walk_depth plan m _ w Hw).
    eapply acyclic_walk_length; eauto.
Qed.

Lemma X4_layer_is_longest_walk_witness :
  exists l,
    dict_get chain_levels "c"%string = Some (Z.of_nat l) /\
    (exists m w, walk (edges chain_plan) m "c"%string w /\ length w = l) /\
    (forall m w, walk (edges chain_plan) m "c"%string w -> length w <= l).
Proof.
  apply (@X4_layer_is_longest_walk 3 chain_plan chain_levels (mk_node "c")).
  - exact chain_plan_acyclic.
  - exact chain_plan_endpoints.
  - reflexivity.
  - simpl. auto.
Defined.

(** ** Cycles within reach of the queue *)

Section ReachedCycle.
Variable plan : FigurePlan.

Lemma seeded_initial id levels0 queue0 :
  seeded plan id ->
  initial_state plan = Return (levels0, queue0) ->
  In id (dict_keys levels0).
Proof.
  intros [[Hid Hno]|(Hall & first & rest & Hn & <-)] E0.
  - apply initial_state_Return in E0. destruct E0 as (_ & _ & _ & Hsrc & _).
    apply Hsrc. split; [exact Hid|].
    destruct (dict_mem (incoming plan) id) eqn:Em; [|reflexivity].
    apply incoming_mem in Em. destruct Em as (e & He & Ht).
    exfalso. exact (Hno e He Ht).
  - revert E0. unfold initial_state, fallback_seed.
    destruct (seed_sources (incoming plan) (nodes plan)) as [l0 q0] eqn:Es.
    apply seed_sources_spec in Es. destruct Es as (_ & Hq & _).
    destruct q0 as [|q q0].
    + rewrite Hn. intros [= <- <-]. apply dict_keys_set_In. now left.
    + exfalso. destruct (proj1 (Hq q) (or_introl eq_refl)) as [Hin Hm].
      destruct (Hall q Hin) as (e & He & Ht).
      assert (Hm' : dict_mem (incoming plan) q = true)
        by (apply incoming_mem; eauto).
      congruence.
Qed.

Lemma seeded_nonempty id : seeded plan id -> nodes plan <> [].
Proof.
  intros [[Hid _]|(_ & first & rest & Hn & _)] Hnil.
  - unfold node_ids in Hid. rewrite Hnil in Hid. destruct Hid.
  - congruence.
Qed.

Lemma settled_reach reached :
  (forall s, settled plan reached s) ->
  forall a b, clos_refl_trans string (edge_rel plan) a b ->
  forall la, dict_get reached a = Some la ->
  exists lb, dict_get reached b = Some lb.
Proof.
  intros Hset a b Hab.
  induction Hab as [a b He|a|a m b _ IH1 _ IH2]; intros la Hla.
  - apply successors_edge in He.
    destruct (Hset a la b Hla He) as (lb & Hlb & _). eauto.
  - eauto.
  - destruct (IH1 _ Hla) as (lm & Hlm). eauto.
Qed.

Lemma reached_cycle_diverges s0 s fuel :
  seeded plan s0 ->
  clos_refl_trans string (edge_rel plan) s0 s ->
  clos_trans string (edge_rel plan) s s ->
  _assign_layers fuel plan = OutOfFuel.
Proof.
  intros Hseed Hreach Hcyc.
  destruct (_assign_layers fuel plan) as [out|e|] eqn:Ea; [| |reflexivity].
  - exfalso. apply assign_layers_Return in Ea.
    destruct Ea as (l0 & q0 & reached & E0 & E1 & _).
    destruct (@loop_exit plan fuel _ _ _ E0 E1) as (_ & Hset & Hle).
    pose proof (seeded_initial Hseed E0) as Hs0.
    apply dict_key_get in Hs0. destruct Hs0 as (l & Hl).
    destruct (Hle _ _ Hl) as (l' & Hl' & _).
    destruct (settled_reach Hset Hreach Hl') as (ls & Hls).
    destruct (settled_path Hset Hcyc Hls) as (ls' & Hls' & Hlt).
    rewrite Hls in Hls'. injection Hls' as <-. lia.
  - exfalso. apply assign_layers_Raise in Ea. destruct Ea as [_ Hn].
    exact (seeded_nonempty Hseed Hn).
Qed.
End ReachedCycle.

(** X5. If a cycle can be reached along edges from an identifier the queue
    starts with (a node without incoming edge, or the first node when
    every node has one), the [while queue:] loop never drains: no number
    of iterations lets [compute_layout] return. *)
Theorem X5_reachable_cycle_never_returns :
  forall plan s0 s,
    seeded plan s0 ->
    clos_refl_trans string (edge_rel plan) s0 s ->
    clos_trans string (edge_rel plan) s s ->
    forall fuel canvas_size, compute_layout fuel plan canvas_size = OutOfFuel.
Proof.
  intros plan s0 s Hseed Hreach Hcyc fuel cs.
  apply compute_layout_OutOfFuel. eapply reached_cycle_diverges; eauto.
Qed.

Lemma X5_reachable_cycle_never_returns_witness :
  compute_layout 1000 lasso_plan None = OutOfFuel.
Proof.
  apply (@X5_reachable_cycle_never_returns lasso_plan "s" "a").
  - left. split; [simpl; auto|].
    intros e [<-|[<-|[<-|[]]]]; discriminate.
  - apply rt_step. exists (mk_edge "s" "a"). simpl. auto.
  - apply t_trans with (y := "b"%string); apply t_step.
    + exists (mk_edge "a" "b"). simpl. auto.
    + exists (mk_edge "b" "a"). simpl. auto.
Defined.

(** ** Geometry of a column *)

Lemma column_y_offset_ge h k : (60 <= column_y_offset h k)%Q.
Proof.
  unfold column_y_offset, MARGIN.
  match goal with |- (_ <= py_max ?a ?b)%Q =>
    destruct (py_max_cases a b) as [[H ->]|[H ->]] end; lra.
Qed.

Lemma float_of_nat_nonneg n : (0 <= float_of_nat n)%Q.
Proof.
  unfold float_of_nat. change 0%Q with (inject_Z 0). rewrite <- Zle_Qle. lia.
Qed.

(** X6. No node of a returned layout is placed left of or above the
    margin: x >= 60 and y >= 60, whatever the canvas. *)
Theorem X6_inside_margin :
  forall fuel plan canvas_size res pn,
    compute_layout fuel plan canvas_size = Return res ->
    In pn (r_nodes res) ->
    (60 <= x pn)%Q /\ (60 <= y pn)%Q.
Proof.
  intros fuel plan cs res pn Hc Hin.
  destruct (layout_view _ _ _ Hc) as (levels & _ & _ & Hpl & _).
  destruct (placed_level (Hpl pn Hin)) as (lv & Hlv).
  rewrite (placed_x (Hpl pn Hin) Hlv), (placed_y (Hpl pn Hin) Hlv).
  unfold column_x, MARGIN, NODE_SPACING. simpl fst. simpl snd.
  pose proof (float_of_nat_nonneg (column_index levels lv)).
  pose proof (float_of_nat_nonneg (row_rank levels lv (p_identifier pn))).
  pose proof (column_y_offset_ge (height res) (layer_size levels lv)).
  split; nra.
Qed.

Lemma X6_inside_margin_witness :
  (60 <= 260)%Q /\ (60 <= 740 # 2)%Q.
Proof.
  exact (@X6_inside_margin 3 fan_plan None fan_result
           (positioned (mk_node "c") 260 (740 # 2)) eq_refl
           (or_intror (or_intror (or_introl eq_refl)))).
Defined.

(** ** Nodes that share an identifier *)

Lemma find_app_last {A : Type} (f : A -> bool) (l : list A) (a : A) :
  find f (l ++ [a]) =
  match find f l with
  | Some x => Some x
  | None => if f a then Some a else None
  end.
Proof.
  induction l as [|b l IH]; simpl; [reflexivity|].
  destruct (f b); [reflexivity|exact IH].
Qed.

Lemma node_map_fold_last ns : forall (m : dict string FigureNode) id,
  dict_get (fold_left (fun m node => dict_set m (identifier node) node) ns m) id
  = match last_node_with id ns with
    | Some n => Some n
    | None => dict_get m id
    end.
Proof.
  unfold last_node_with.
  induction ns as [|n ns IH]; intros m id; simpl; [reflexivity|].
  rewrite IH, find_app_last, dict_get_set. simpl.
  destruct (find (fun n0 => String.eqb (identifier n0) id) (rev ns));
    [reflexivity|].
  rewrite (String.eqb_sym (identifier n) id).
  destruct (String.eqb id (identifier n)); reflexivity.
Qed.

(** [plan.node_map()[id]] is the last node declared with that identifier. *)
Lemma node_map_last plan id :
  dict_get (node_map plan) id = last_node_with id (nodes plan).
Proof.
  unfold node_map. rewrite node_map_fold_last.
  destruct (last_node_with id (nodes plan)); reflexivity.
Qed.

(** X8. A returned layout never holds two nodes with one identifier, even
    when the plan does: each identifier is positioned once, and the
    positioned node carries the label, type and metadata of the last node
    the plan declares with that identifier. *)
Theorem X8_last_duplicate_wins :
  forall fuel plan canvas_size res,
    compute_layout fuel plan canvas_size = Return res ->
    NoDup (map p_identifier (r_nodes res)) /\
    forall pn, In pn (r_nodes res) ->
      last_node_with (p_identifier pn) (nodes plan) = Some (underlying pn).
Proof.
  intros fuel plan cs res Hc.
  destruct (layout_view _ _ _ Hc) as (levels & _ & Hnd & Hpl & _ & Hperm & _).
  split.
  - eapply Permutation_NoDup; [symmetry; exact Hperm|exact Hnd].
  - intros pn Hin.
    destruct (placed_node (Hpl pn Hin)) as (node & _ & Hg & Hi & Hl & Ht & Hm).
    rewrite <- node_map_last, Hg. f_equal.
    unfold underlying. rewrite Hi, Hl, Ht, Hm. now destruct node.
Qed.

Lemma X8_last_duplicate_wins_witness :
  NoDup (map p_identifier (r_nodes shadow_result)) /\
  forall pn, In pn (r_nodes shadow_result) ->
    last_node_with (p_identifier pn) (nodes shadow_plan) = Some (underlying pn).
Proof.
  exact (@X8_last_duplicate_wins 3 shadow_plan None shadow_result eq_refl).
Defined.

(** ** Every node once *)

(** X9. For a plan with pairwise distinct node identifiers whose edge
    endpoints all name nodes, a returned layout holds each node of the
    plan exactly once, with identifier, label, type and metadata
    unchanged, and the plan's edges unchanged and in order. *)
Theorem X9_every_node_once :
  forall fuel plan canvas_size res,
    NoDup (node_ids plan) -> endpoints_present plan ->
    compute_layout fuel plan canvas_size = Return res ->
    Permutation (map underlying (r_nodes res)) (nodes plan) /\
    NoDup (map p_identifier (r_nodes res)) /\
    r_edges res = edges plan.
Proof.
  intros fuel plan cs res Hnd Hend Hc.
  exact (@layout_covers_nodes plan Hnd Hend fuel cs res Hc).
Qed.

Lemma fan_plan_unique : NoDup (node_ids fan_plan).
Proof. repeat constructor; simpl; intuition discriminate. Qed.

Lemma fan_plan_endpoints : endpoints_present fan_plan.
Proof. intros e [<-|[<-|[]]]; simpl; auto. Qed.

Lemma X9_every_node_once_witness :
  Permutation (map underlying (r_nodes fan_result)) (nodes fan_plan) /\
  NoDup (map p_identifier (r_nodes fan_result)) /\
  r_edges fan_result = edges fan_plan.
Proof.
  exact (@X9_every_node_once 3 fan_plan None fan_result
           fan_plan_unique fan_plan_endpoints eq_refl).
Defined.

(** * The renderer *)

(** ** Strings *)

Lemma py_len_append a b : py_len (a ++ b) = (py_len a + py_len b)%Z.
Proof.
  induction a as [|c a IH]; [reflexivity|].
  cbn [append py_len]. rewrite IH.
  destruct (is_continuation c); lia.
Qed.

Lemma py_len_nonneg s : (0 <= py_len s)%Z.
Proof.
  induction s as [|c s IH]; [reflexivity|].
  cbn [py_len]. destruct (is_continuation c); lia.
Qed.

Lemma py_join_cons sep a l :
  l <> [] -> py_join sep (a :: l) = (a ++ sep ++ py_join sep l)%string.
Proof. destruct l; [congruence|reflexivity]. Qed.

Lemma string_app_assoc (a b c : string) :
  ((a ++ b) ++ c = a ++ b ++ c)%string.
Proof. induction a; simpl; congruence. Qed.

Lemma py_join_app sep l1 l2 :
  l1 <> [] -> l2 <> [] ->
  py_join sep (l1 ++ l2) = (py_join sep l1 ++ sep ++ py_join sep l2)%string.
Proof.
  intros H1 H2. induction l1 as [|a l1 IH]; [congruence|].
  destruct l1 as [|b l1].
  - simpl app. now rewrite py_join_cons.
  - change ((a :: b :: l1) ++ l2) with (a :: ((b :: l1) ++ l2)).
    rewrite py_join_cons by discriminate.
    rewrite IH by discriminate.
    rewrite (@py_join_cons sep a (b :: l1)) by discriminate.
    now rewrite !string_app_assoc.
Qed.

Lemma concat_nonempty {A : Type} (g : list A) (gs : list (list A)) :
  g <> [] -> concat (g :: gs) <> [].
Proof. destruct g; simpl; congruence. Qed.

(** Joining the joined runs is joining all the words. *)
Lemma py_join_groups sep (groups : list (list string)) :
  Forall (fun g => g <> []) groups ->
  py_join sep (map (py_join sep) groups) = py_join sep (concat groups).
Proof.
  induction 1 as [|g gs Hg Hgs IH]; [reflexivity|].
  destruct gs as [|g' gs].
  - simpl. now rewrite app_nil_r.
  - change (map (py_join sep) (g :: g' :: gs))
      with (py_join sep g :: map (py_join sep) (g' :: gs)).
    rewrite py_join_cons by discriminate.
    rewrite IH. change (concat (g :: g' :: gs)) with (g ++ concat (g' :: gs)).
    rewrite py_join_app; auto.
    apply concat_nonempty. now inversion Hgs.
Qed.

(** ** [_wrap_label] *)

Lemma wrap_loop max_len words : forall lines current,
  (let '(lines', current') :=
     fold_left (wrap_step max_len) words (lines, current) in
   match current' with
   | _ :: _ => lines' ++ [py_join " "%string current']
   | [] => lines'
   end) = lines ++ wrap_rest max_len current words.
Proof.
  induction words as [|word rest IH]; intros lines current.
  - simpl. destruct current; [now rewrite app_nil_r|reflexivity].
  - cbn [fold_left wrap_rest]. unfold wrap_step at 2.
    destruct (py_len (py_join " "%string (current ++ [word])) <=? max_len)%Z.
    + apply IH.
    + destruct current as [|c current].
      * rewrite IH. now rewrite <- app_assoc.
      * rewrite IH. now rewrite <- app_assoc.
Qed.

Lemma wrap_words_rest words max_len :
  wrap_words words max_len = wrap_rest max_len [] words.
Proof. unfold wrap_words. now rewrite wrap_loop. Qed.

Lemma concat_head {A : Type} (groups : list (list A)) (w : A) (ws : list A) :
  Forall (fun g => g <> []) groups -> concat groups = w :: ws ->
  exists g rest, groups = (w :: g) :: rest.
Proof.
  intros Hne Hc. destruct groups as [|g groups]; [discriminate|].
  inversion Hne as [|? ? Hg _]; subst.
  destruct g as [|a g]; [congruence|].
  simpl in Hc. injection Hc as -> _. eauto.
Qed.

Lemma greedy_cons max_len g groups :
  greedy max_len groups ->
  (forall w g' rest, groups = (w :: g') :: rest ->
     (max_len < py_len (py_join " "%string (g ++ [w])))%Z) ->
  greedy max_len (g :: groups).
Proof.
  intros Hg Hw. destruct groups as [|[|w g'] rest]; simpl; auto.
  split; [eapply Hw; reflexivity|exact Hg].
Qed.

Lemma wrap_rest_spec max_len words : forall current,
  (current <> [] -> fits max_len current) ->
  exists groups,
    wrap_rest max_len current words = map (py_join " "%string) groups /\
    concat groups = current ++ words /\
    Forall (fun g => g <> []) groups /\
    greedy max_len groups /\
    Forall (fits max_len) groups.
Proof.
  induction words as [|word rest IH]; intros current Hfit.
  - destruct current as [|c current].
    + exists []. simpl. repeat split; constructor.
    + exists [c :: current]. simpl. rewrite !app_nil_r.
      split; [reflexivity|]. split; [reflexivity|].
      split; [repeat constructor; discriminate|].
      split; [exact I|]. constructor; [apply Hfit; discriminate|constructor].
  - cbn [wrap_rest].
    destruct (py_len (py_join " "%string (current ++ [word])) <=? max_len)%Z
      eqn:Efit.
    + destruct (IH (current ++ [word])) as (groups & H1 & H2 & H3 & H4 & H5).
      { intros _. left. now apply Z.leb_le. }
      exists groups. rewrite <- app_assoc in H2. auto.
    + apply Z.leb_gt in Efit. destruct current as [|c current].
      * destruct (IH []) as (groups & H1 & H2 & H3 & H4 & H5).
        { congruence. }
        exists ([word] :: groups).
        split; [simpl; now rewrite H1|].
        split; [simpl; now rewrite H2|].
        split; [constructor; [discriminate|exact H3]|].
        split; [|constructor; [right; eauto|exact H5]].
        apply greedy_cons; [exact H4|].
        intros w g' rest' ->. simpl in Efit.
        change ([word] ++ [w]) with [word; w].
        rewrite py_join_cons by discriminate.
        rewrite py_len_append.
        pose proof (py_len_nonneg (" " ++ py_join " " [w])%string). lia.
      * destruct (IH [word]) as (groups & H1 & H2 & H3 & H4 & H5).
        { intros _. right. eauto. }
        exists ((c :: current) :: groups).
        split; [simpl map; now rewrite H1|].
        split; [simpl concat; now rewrite H2|].
        split; [constructor; [discriminate|exact H3]|].
        split; [|constructor; [apply Hfit; discriminate|exact H5]].
        apply greedy_cons; [exact H4|].
        intros w g' rest' ->.
        destruct (concat_head H3 H2) as (g0 & rest0 & [= -> _ _]).
        exact Efit.
Qed.

Lemma wrap_label_groups label max_len :
  py_split label <> [] ->
  exists groups,
    _wrap_label label max_len = map (py_join " "%string) groups /\
    concat groups = py_split label /\
    Forall (fun g => g <> []) groups /\
    greedy max_len groups /\
    Forall (fits max_len) groups.
Proof.
  intros Hne.
  destruct (@wrap_rest_spec max_len (py_split label) [])
    as (groups & H1 & H2 & H3 & H4 & H5); [congruence|].
  exists groups. unfold _wrap_label.
  destruct (py_split label) as [|w ws] eqn:E; [congruence|].
  rewrite wrap_words_rest. auto.
Qed.

(** X10. [_wrap_label] cuts the words of the label, in their order, into
    consecutive runs and returns each run joined by single spaces: no word
    is dropped, repeated, reordered or broken.  The runs are non-empty when
    the label has a word, and they are cut greedily: the first word of a
    run did not fit at the end of the run before it. *)
Theorem X10_wrap_label_runs :
  forall label max_len,
    exists groups,
      _wrap_label label max_len = map (py_join " "%string) groups /\
      concat groups = py_split label /\
      (py_split label <> [] -> Forall (fun g => g <> []) groups) /\
      greedy max_len groups.
Proof.
  intros label max_len.
  destruct (py_split label) as [|w ws] eqn:E.
  - exists [[]]. unfold _wrap_label. rewrite E.
    repeat split; try reflexivity. congruence.
  - destruct (@wrap_label_groups label max_len)
      as (groups & H1 & H2 & H3 & H4 & _); [congruence|].
    exists groups. rewrite <- E. auto.
Qed.

(** X11. [_wrap_label] never returns an empty list, and joining its lines
    with single spaces gives the words of the label joined with single
    spaces, whatever the line length asked for. *)
Theorem X11_wrap_label_keeps_words :
  forall label max_len,
    _wrap_label label max_len <> [] /\
    py_join " "%string (_wrap_label label max_len) =
    py_join " "%string (py_split label).
Proof.
  intros label max_len.
  destruct (py_split label) as [|w ws] eqn:E.
  - unfold _wrap_label. rewrite E. split; [discriminate|reflexivity].
  - destruct (@wrap_label_groups label max_len)
      as (groups & H1 & H2 & H3 & _); [congruence|].
    rewrite H1, <- E, <- H2. split.
    + destruct groups; [rewrite E in H2; discriminate|discriminate].
    + now apply py_join_groups.
Qed.

(** X12. For a line length that is not negative, every line that
    [_wrap_label] returns has at most that many characters, or is a single
    word of the label that is longer by itself. *)
Theorem X12_wrap_label_line_length :
  forall label max_len line,
    (0 <= max_len)%Z ->
    In line (_wrap_label label max_len) ->
    (py_len line <= max_len)%Z \/
    (In line (py_split label) /\ (max_len < py_len line)%Z).
Proof.
  intros label max_len line Hm Hin.
  destruct (py_split label) as [|w ws] eqn:E.
  - unfold _wrap_label in Hin. rewrite E in Hin.
    destruct Hin as [<-|[]]. now left.
  - destruct (@wrap_label_groups label max_len)
      as (groups & H1 & H2 & _ & _ & H5); [congruence|].
    rewrite H1 in Hin. apply in_map_iff in Hin.
    destruct Hin as (g & <- & Hg).
    rewrite Forall_forall in H5.
    destruct (H5 g Hg) as [Hfit|(w0 & ->)]; [now left|].
    change (py_join " "%string [w0]) with w0.
    destruct (Z_le_gt_dec (py_len w0) max_len); [now left|].
    right. split; [|lia].
    rewrite <- E, <- H2. apply in_concat. exists [w0]. simpl. auto.
Qed.

Lemma X12_wrap_label_line_length_witness :
  (py_len "supercalifragilisticexpialidocious"%string <= 22)%Z \/
  (In "supercalifragilisticexpialidocious"%string (py_split long_label) /\
   (22 < py_len "supercalifragilisticexpialidocious"%string)%Z).
Proof.
  apply (@X12_wrap_label_line_length long_label 22
           "supercalifragilisticexpialidocious"%string).
  - lia.
  - vm_compute. auto.
Defined.

(** ** [build_svg_elements] *)

Lemma merge_get (s : dict string ShapeStyle) : forall m k,
  NoDup (dict_keys s) ->
  dict_get (fold_left (fun m '(k, v) => dict_set m k v) s m) k =
  match dict_get s k with Some v => Some v | None => dict_get m k end.
Proof.
  induction s as [|[k0 v0] s IH]; intros m k Hnd; [reflexivity|].
  inversion Hnd as [|? ? Hnin Hnd']; subst.
  cbn [fold_left dict_get]. rewrite IH by assumption.
  rewrite dict_get_set. change (@key_eqb string _) with String.eqb.
  destruct (String.eqb k k0) eqn:E; [|reflexivity].
  apply String.eqb_eq in E. subst k0.
  apply dict_get_None in Hnin. now rewrite Hnin.
Qed.

Lemma merge_keeps (s : dict string ShapeStyle) : forall m k,
  dict_get m k <> None ->
  dict_get (fold_left (fun m '(k, v) => dict_set m k v) s m) k <> None.
Proof.
  induction s as [|[k0 v0] s IH]; intros m k Hk; [exact Hk|].
  cbn [fold_left]. apply IH. rewrite dict_get_set.
  destruct (key_eqb k k0); [discriminate|exact Hk].
Qed.

Lemma merge_styles_process styles :
  exists s, dict_get (merge_styles styles) "process"%string = Some s.
Proof.
  unfold merge_styles.
  destruct (dict_get (fold_left _ _ DEFAULT_STYLES) "process"%string)
    as [s|] eqn:E; [eauto|].
  exfalso. revert E. apply merge_keeps. discriminate.
Qed.

Lemma next_node_Rendered layout id :
  In id (map p_identifier (r_nodes layout)) ->
  exists n, next_node layout id = Rendered n.
Proof.
  intros Hin. unfold next_node.
  destruct (find _ (r_nodes layout)) as [n|] eqn:E; [eauto|].
  exfalso. apply in_map_iff in Hin. destruct Hin as (n & Hn & Hin).
  apply (find_none _ _ E) in Hin. simpl in Hin.
  rewrite Hn, String.eqb_refl in Hin. discriminate.
Qed.

Lemma next_node_Failed layout id :
  ~ In id (map p_identifier (r_nodes layout)) ->
  next_node layout id = Failed StopIteration.
Proof.
  intros Hnin. unfold next_node.
  destruct (find _ (r_nodes layout)) as [n|] eqn:E; [|reflexivity].
  exfalso. apply find_some in E. destruct E as [Hin E].
  apply String.eqb_eq in E. apply Hnin, in_map_iff. eauto.
Qed.

(** An edge whose endpoints both name nodes of the layout. *)
Local Abbreviation drawable layout e :=
  (In (source e) (map p_identifier (r_nodes layout)) /\
   In (target e) (map p_identifier (r_nodes layout))).

Lemma drawable_dec layout e : {drawable layout e} + {~ drawable layout e}.
Proof.
  destruct (in_dec string_dec (source e) (map p_identifier (r_nodes layout)));
  destruct (in_dec string_dec (target e) (map p_identifier (r_nodes layout)));
  tauto.
Qed.

Section RenderFacts.
Variables (fmt2 fmt : Q -> string).

Lemma draw_nodes_length style_map ns : forall elements,
  (exists s, dict_get style_map "process"%string = Some s) ->
  exists out,
    draw_nodes fmt2 fmt style_map ns elements = Rendered out /\
    length out = length elements + 2 * length ns.
Proof.
  intros elements (s & Hs). revert elements.
  induction ns as [|node ns IH]; intros elements.
  - exists elements. simpl. split; [reflexivity|lia].
  - cbn [draw_nodes]. unfold node_style. rewrite Hs.
    destruct (IH (elements ++
                  [_node_rect fmt2 fmt node
                     (dict_get_default style_map (p_node_type node) s)] ++
                  [_node_label fmt2 node
                     (dict_get_default style_map (p_node_type node) s)]))
      as (out & E & Hl).
    exists out. split; [exact E|].
    rewrite Hl, !length_app. simpl. lia.
Qed.

Lemma edge_line_Rendered layout e :
  drawable layout e -> exists line, _edge_line fmt2 layout e = Rendered line.
Proof.
  intros [Hs Ht]. unfold _edge_line.
  destruct (next_node_Rendered layout _ Hs) as (s & ->).
  destruct (next_node_Rendered layout _ Ht) as (t & ->). eauto.
Qed.

Lemma edge_line_Failed layout e :
  ~ drawable layout e -> _edge_line fmt2 layout e = Failed StopIteration.
Proof.
  intros Hn. unfold _edge_line.
  destruct (in_dec string_dec (source e) (map p_identifier (r_nodes layout)))
    as [Hs|Hs].
  - destruct (next_node_Rendered layout _ Hs) as (s & ->).
    rewrite next_node_Failed; [reflexivity|tauto].
  - now rewrite next_node_Failed.
Qed.

Lemma draw_edges_Rendered layout es : forall elements,
  (forall e, In e es -> drawable layout e) ->
  exists out,
    draw_edges fmt2 layout es elements = Rendered out /\
    length out = length elements + length es.
Proof.
  induction es as [|e es IH]; intros elements Hall.
  - exists elements. simpl. split; [reflexivity|lia].
  - cbn [draw_edges].
    destruct (@edge_line_Rendered layout e) as (line & ->);
      [apply Hall; now left|].
    destruct (IH (elements ++ [line])) as (out & E & Hl).
    { intros e' He'. apply Hall. now right. }
    exists out. split; [exact E|]. rewrite Hl, length_app. simpl. lia.
Qed.

Lemma draw_edges_Failed layout es : forall elements,
  ~ (forall e, In e es -> drawable layout e) ->
  draw_edges fmt2 layout es elements = Failed StopIteration.
Proof.
  induction es as [|e es IH]; intros elements Hn.
  - exfalso. apply Hn. intros e [].
  - cbn [draw_edges]. destruct (drawable_dec layout e) as [Hd|Hd].
    + destruct (@edge_line_Rendered layout e Hd) as (line & ->).
      apply IH. intros Hall. apply Hn. intros e' [<-|He']; auto.
    + now rewrite edge_line_Failed.
Qed.

Lemma build_svg_elements_Rendered layout styles :
  edges_drawable layout ->
  exists elements,
    build_svg_elements fmt2 fmt layout styles = Rendered elements /\
    length elements = 2 * length (r_nodes layout) + length (r_edges layout).
Proof.
  intros Hd. unfold build_svg_elements.
  destruct (@draw_nodes_length (merge_styles styles) (r_nodes layout) [])
    as (out & -> & Hl); [apply merge_styles_process|].
  destruct (@draw_edges_Rendered layout (r_edges layout) out Hd)
    as (out' & E & Hl').
  exists out'. split; [exact E|]. rewrite Hl', Hl. simpl. lia.
Qed.

Lemma build_svg_elements_Failed layout styles :
  ~ edges_drawable layout ->
  build_svg_elements fmt2 fmt layout styles = Failed StopIteration.
Proof.
  intros Hd. unfold build_svg_elements.
  destruct (@draw_nodes_length (merge_styles styles) (r_nodes layout) [])
    as (out & -> & Hl); [apply merge_styles_process|].
  now apply draw_edges_Failed.
Qed.

Lemma render_svg_Rendered layout styles :
  edges_drawable layout ->
  exists svg, render_svg fmt2 fmt layout styles = Rendered svg.
Proof.
  intros Hd. unfold render_svg.
  destruct (@build_svg_elements_Rendered layout styles Hd) as (els & -> & _).
  eauto.
Qed.

Lemma render_svg_Failed layout styles :
  ~ edges_drawable layout ->
  render_svg fmt2 fmt layout styles = Failed StopIteration.
Proof.
  intros Hd. unfold render_svg. now rewrite build_svg_elements_Failed.
Qed.
End RenderFacts.

Lemma edges_drawable_dec layout :
  {edges_drawable layout} + {~ edges_drawable layout}.
Proof.
  unfold edges_drawable.
  induction (r_edges layout) as [|e es IH].
  - left. intros e [].
  - destruct (drawable_dec layout e) as [Hd|Hd].
    + destruct IH as [IH|IH].
      * left. intros e' [<-|He']; auto.
      * right. intros Hall. apply IH. intros e' He'. apply Hall. now right.
    + right. intros Hall. apply Hd, Hall. now left.
Qed.

(** X13. [build_svg_elements] returns two elements for each node of the
    layout and one for each edge when every edge endpoint names a node of
    the layout; otherwise it raises [StopIteration].  It raises nothing
    else, whatever styles are passed. *)
Theorem X13_build_svg_elements :
  forall fmt2 fmt layout styles,
    (edges_drawable layout ->
     exists elements,
       build_svg_elements fmt2 fmt layout styles = Rendered elements /\
       length elements =
         2 * length (r_nodes layout) + length (r_edges layout)) /\
    (~ edges_drawable layout ->
     build_svg_elements fmt2 fmt layout styles = Failed StopIteration).
Proof.
  intros fmt2 fmt layout styles. split.
  - apply build_svg_elements_Rendered.
  - apply build_svg_elements_Failed.
Qed.

(** ** Layout followed by rendering *)

(** A returned layout holds the identifiers of the plan's nodes and no
    other. *)
Lemma layout_identifiers fuel plan canvas_size res :
  compute_layout fuel plan canvas_size = Return res ->
  forall id, In id (map p_identifier (r_nodes res)) <-> In id (node_ids plan).
Proof.
  intros Hc id.
  destruct (layout_view _ _ _ Hc) as (levels & Ha & _ & Hpl & Hex & _).
  destruct (@assign_layers_spec plan fuel _ Ha) as (_ & Hn & _).
  split.
  - intros Hin. apply in_map_iff in Hin. destruct Hin as (pn & <- & Hpn).
    destruct (placed_node (Hpl pn Hpn)) as (node & Hnode & _ & -> & _).
    unfold node_ids. now apply in_map.
  - intros Hin. destruct (Hex id (Hn id Hin)) as (pn & Hpn & <-).
    now apply in_map.
Qed.

Lemma layout_drawable fuel plan canvas_size res :
  compute_layout fuel plan canvas_size = Return res ->
  edges_drawable res <-> endpoints_present plan.
Proof.
  intros Hc. pose proof (layout_identifiers _ _ _ Hc) as Hids.
  apply compute_layout_Return in Hc.
  destruct Hc as (levels & _ & _ & _ & He & _).
  unfold edges_drawable, endpoints_present. rewrite He.
  split; intros H e Hin; destruct (H e Hin); split; now apply Hids.
Qed.

Lemma render_after_layout fmt2 fmt fuel plan canvas_size styles res :
  compute_layout fuel plan canvas_size = Return res ->
  endpoints_present plan ->
  exists svg, render_svg fmt2 fmt res styles = Rendered svg.
Proof.
  intros Hc Hend. apply render_svg_Rendered.
  now apply (layout_drawable _ _ _ Hc).
Qed.

(** X14. A layout that [compute_layout] returned is rendered by
    [render_svg] when every edge endpoint of the plan names one of its
    nodes, and makes [render_svg] raise [StopIteration] otherwise: a plan
    with an edge from an unknown identifier is laid out and then fails in
    the renderer. *)
Theorem X14_render_after_layout :
  forall fmt2 fmt fuel plan canvas_size styles res,
    compute_layout fuel plan canvas_size = Return res ->
    (endpoints_present plan ->
     exists svg, render_svg fmt2 fmt res styles = Rendered svg) /\
    (~ endpoints_present plan ->
     render_svg fmt2 fmt res styles = Failed StopIteration).
Proof.
  intros fmt2 fmt fuel plan cs styles res Hc.
  pose proof (layout_drawable _ _ _ Hc) as Hd. split; intros H.
  - apply render_svg_Rendered. now apply Hd.
  - apply render_svg_Failed. now rewrite Hd.
Qed.

Lemma X14_render_after_layout_witness :
  (endpoints_present dangling_source_plan ->
   exists svg,
     render_svg sample_fmt2 sample_fmt dangling_source_result None
     = Rendered svg) /\
  (~ endpoints_present dangling_source_plan ->
   render_svg sample_fmt2 sample_fmt dangling_source_result None
   = Failed StopIteration).
Proof.
  exact (@X14_render_after_layout sample_fmt2 sample_fmt 1
           dangling_source_plan None None dangling_source_result eq_refl).
Defined.

Lemma acyclic_layout_returns fuel plan canvas_size :
  acyclic plan -> nodes plan <> [] -> fuel_bound plan <= fuel ->
  compute_layout fuel plan canvas_size <> OutOfFuel.
Proof.
  intros Hac Hne Hfuel Hc.
  apply compute_layout_OutOfFuel in Hc.
  destruct (@initial_state_nonempty plan Hne) as ([levels0 queue0] & E0).
  destruct (@acyclic_loop_returns plan Hac fuel _ _ E0 Hfuel) as (reached & E1).
  rewrite assign_layers_eq, E0 in Hc. simpl in Hc. rewrite E1 in Hc.
  discriminate.
Qed.

(** X15. For an acyclic plan with at least one node whose edge endpoints
    all name nodes, layout followed by rendering, as [FigureAgent.generate]
    runs them, returns an SVG document, for every configuration. *)
Theorem X15_generate_returns :
  forall fmt2 fmt fuel config plan,
    acyclic plan -> endpoints_present plan -> nodes plan <> [] ->
    fuel_bound plan <= fuel ->
    exists svg, generate_from_plan fmt2 fmt fuel config plan = Completed svg.
Proof.
  intros fmt2 fmt fuel config plan Hac Hend Hne Hfuel.
  unfold generate_from_plan, FigureAgent_layout, FigureAgent_render.
  destruct (compute_layout fuel plan _) as [res|e|] eqn:Hc.
  - destruct (@render_after_layout fmt2 fmt fuel plan _ None res Hc Hend)
      as (svg & ->). eauto.
  - exfalso.
    destruct (@compute_layout_Raise plan fuel _ e Hc)
      as [[_ Hn]|(id & _ & Hnin & ed & Hed & <-)]; [congruence|].
    apply Hnin. now apply Hend.
  - exfalso. revert Hc. now apply acyclic_layout_returns.
Qed.

Lemma X15_generate_returns_witness :
  exists svg,
    generate_from_plan sample_fmt2 sample_fmt (fuel_bound chain_plan)
      default_config chain_plan = Completed svg.
Proof.
  apply (@X15_generate_returns sample_fmt2 sample_fmt (fuel_bound chain_plan)
           default_config chain_plan chain_plan_acyclic chain_plan_endpoints).
  - discriminate.
  - apply Nat.le_refl.
Defined.

(** X16. How layout followed by rendering can end, for every plan and
    configuration.  It returns a document only for a plan with a node whose
    edge endpoints all name nodes.  A plan without nodes makes the layout
    raise [IndexError]; the only other exception of the layout is the
    [KeyError] for the target of an edge that names no node.  The renderer
    raises nothing but [StopIteration], and only when an edge endpoint
    names no node.  The layout runs forever only on a plan with a cycle. *)
Theorem X16_generate_outcomes :
  forall fmt2 fmt fuel config plan,
    match generate_from_plan fmt2 fmt fuel config plan with
    | Completed _ => nodes plan <> [] /\ endpoints_present plan
    | LayoutRaised e =>
        (e = IndexError /\ nodes plan = []) \/
        (exists id, e = KeyError id /\ nodes plan <> [] /\
                    ~ In id (node_ids plan) /\
                    exists ed, In ed (edges plan) /\ target ed = id)
    | RenderRaised e =>
        e = StopIteration /\ nodes plan <> [] /\ ~ endpoints_present plan
    | Unfinished =>
        nodes plan <> [] /\ (fuel_bound plan <= fuel -> ~ acyclic plan)
    end.
Proof.
  intros fmt2 fmt fuel config plan.
  unfold generate_from_plan, FigureAgent_layout, FigureAgent_render.
  destruct (compute_layout fuel plan _) as [res|e|] eqn:Hc.
  - assert (Hne : nodes plan <> []).
    { intros Hn. apply compute_layout_Return in Hc.
      destruct Hc as (levels & Ha & _).
      rewrite (assign_layers_empty plan fuel Hn) in Ha. discriminate. }
    pose proof (layout_drawable _ _ _ Hc) as Hd.
    destruct (edges_drawable_dec res) as [Hdr|Hdr].
    + destruct (@render_svg_Rendered fmt2 fmt res None Hdr) as (svg & ->).
      split; [exact Hne|]. now apply Hd.
    + rewrite (@render_svg_Failed fmt2 fmt res None Hdr).
      split; [reflexivity|]. split; [exact Hne|]. now rewrite <- Hd.
  - destruct (@compute_layout_Raise plan fuel _ e Hc)
      as [[-> Hn]|(id & -> & Hnin & ed & Hed & Ht)]; [now left|right].
    exists id. split; [reflexivity|]. split; [|eauto].
    intros Hn. unfold node_ids in *.
    pose proof (@compute_layout_eq plan fuel
                  (Some (canvas_width config, canvas_height config))) as E.
    rewrite (assign_layers_empty plan fuel Hn) in E. simpl in E.
    rewrite E in Hc. discriminate.
  - assert (Hne : nodes plan <> []).
    { intros Hn. apply compute_layout_OutOfFuel in Hc.
      rewrite (assign_layers_empty plan fuel Hn) in Hc. discriminate. }
    split; [exact Hne|]. intros Hfuel Hac.
    revert Hc. now apply acyclic_layout_returns.
Qed.

(** ** Styles *)

(** X17. The style [build_svg_elements] draws a node with: the caller's
    style for the node's type when the caller gives one, else the default
    style of that type, else, for a type that neither knows, the style of
    ["process"], again the caller's before the default one.  The lookup
    never raises [KeyError]. *)
Theorem X17_node_style :
  forall styles node,
    NoDup (dict_keys styles) ->
    let pick t := match dict_get styles t with
                  | Some s => Some s
                  | None => dict_get DEFAULT_STYLES t
                  end in
    node_style (merge_styles (Some styles)) node =
    Rendered match pick (p_node_type node) with
             | Some s => s
             | None =>
                 match pick "process"%string with
                 | Some s => s
                 | None => mk_style "#e0f2fe" "#0284c7"
                 end
             end.
Proof.
  intros styles node Hnd pick. unfold node_style, merge_styles.
  unfold dict_get_default. rewrite !merge_get by assumption.
  fold (pick "process"%string). fold (pick (p_node_type node)).
  destruct (pick "process"%string) as [s|] eqn:E.
  - reflexivity.
  - exfalso. unfold pick in E.
    destruct (dict_get styles "process"%string); discriminate.
Qed.

Lemma sample_styles_NoDup : NoDup (dict_keys sample_styles).
Proof. repeat constructor; simpl; intuition discriminate. Qed.

Lemma X17_node_style_witness :
  node_style (merge_styles (Some sample_styles))
    {| p_identifier := "n"; p_label := "n"; p_node_type := "unknown";
       p_metadata := []; x := 0; y := 0 |}
  = Rendered (mk_style "#e0f2fe" "#0284c7").
Proof.
  exact (@X17_node_style sample_styles
           {| p_identifier := "n"; p_label := "n"; p_node_type := "unknown";
              p_metadata := []; x := 0; y := 0 |} sample_styles_NoDup).
Defined.

(** ** The order of declaration *)

Lemma sorted_Permutation_eq {A : Type} (R1 R2 : A -> A -> Prop) :
  (forall a b, R1 a b -> R2 b a -> False) ->
  forall l1 l2,
    StronglySorted R1 l1 -> StronglySorted R2 l2 -> Permutation l1 l2 ->
    l1 = l2.
Proof.
  intros Hanti. induction l1 as [|a l1 IH]; intros l2 H1 H2 Hp.
  - apply Permutation_nil in Hp. now subst.
  - destruct l2 as [|b l2].
    + apply Permutation_sym, Permutation_nil in Hp. discriminate.
    + apply StronglySorted_inv in H1. destruct H1 as [H1 Ha].
      apply StronglySorted_inv in H2. destruct H2 as [H2 Hb].
      rewrite Forall_forall in Ha, Hb.
      assert (Hab : a = b).
      { destruct (Permutation_in a Hp (or_introl eq_refl)) as [->|Hin];
          [reflexivity|].
        destruct (Permutation_in b (Permutation_sym Hp) (or_introl eq_refl))
          as [->|Hin']; [reflexivity|].
        exfalso. eapply Hanti; eauto. }
      subst b. f_equal. apply IH; auto.
      eapply Permutation_cons_inv; eauto.
Qed.

Lemma walk_incl_edges es es' m n w :
  (forall e, In e es -> In e es') -> walk es m n w -> walk es' m n w.
Proof. intros Hin. induction 1; constructor; auto. Qed.

Lemma dict_ext_Permutation {V : Type} (d1 d2 : dict string V) :
  NoDup (dict_keys d1) -> NoDup (dict_keys d2) ->
  (forall k, dict_get d1 k = dict_get d2 k) ->
  Permutation d1 d2.
Proof.
  intros H1 H2 Hext. apply NoDup_Permutation.
  - eapply NoDup_map_inv; exact H1.
  - eapply NoDup_map_inv; exact H2.
  - intros [k v]. split; intros Hin.
    + apply dict_get_In. rewrite <- Hext. now apply dict_In_get.
    + apply dict_get_In. rewrite Hext. now apply dict_In_get.
Qed.

Lemma filter_Permutation {A : Type} (f : A -> bool) (l l' : list A) :
  Permutation l l' -> Permutation (filter f l) (filter f l').
Proof.
  induction 1 as [|a l l' _ IH|a b l|l l' l'' _ IH1 _ IH2]; simpl.
  - constructor.
  - destruct (f a); auto.
  - destruct (f a), (f b); auto. constructor.
  - now rewrite IH1.
Qed.

Section Extensional.
Variables levels1 levels2 : dict string Z.
Hypothesis nodup1 : NoDup (dict_keys levels1).
Hypothesis nodup2 : NoDup (dict_keys levels2).
Hypothesis levels_ext : forall id, dict_get levels1 id = dict_get levels2 id.

Lemma levels_Permutation : Permutation levels1 levels2.
Proof. now apply dict_ext_Permutation. Qed.

Lemma layer_members_ext lv :
  Permutation (layer_members levels1 lv) (layer_members levels2 lv).
Proof.
  unfold layer_members.
  apply Permutation_map, filter_Permutation, levels_Permutation.
Qed.

Lemma layer_size_ext lv : layer_size levels1 lv = layer_size levels2 lv.
Proof. apply Permutation_length, layer_members_ext. Qed.

Lemma row_rank_ext lv id : row_rank levels1 lv id = row_rank levels2 lv id.
Proof. apply filter_length_Permutation, layer_members_ext. Qed.

Lemma column_index_ext lv : column_index levels1 lv = column_index levels2 lv.
Proof.
  apply filter_length_Permutation. unfold occupied_levels.
  apply NoDup_Permutation; try apply NoDup_nodup.
  intros l. rewrite !nodup_In. unfold dict_values.
  split; apply Permutation_in, Permutation_map;
    [|symmetry]; apply levels_Permutation.
Qed.

Lemma output_lt_ext p q :
  output_lt levels1 p q -> output_lt levels2 q p -> False.
Proof.
  intros (lp & lq & Hp & Hq & H1) (lq' & lp' & Hq' & Hp' & H2).
  rewrite levels_ext in Hp, Hq.
  rewrite Hp in Hp'. rewrite Hq in Hq'.
  injection Hp' as <-. injection Hq' as <-.
  rewrite !column_index_ext in H1.
  destruct H1 as [H1|[H1 H1']]; destruct H2 as [H2|[H2 H2']]; try lia.
  pose proof (str_ltb_trans _ _ _ H1' H2') as Hc.
  rewrite str_ltb_irrefl in Hc. discriminate.
Qed.
End Extensional.

Section DeclarationOrder.
Variables plan1 plan2 : FigurePlan.
Hypothesis acyclic1 : acyclic plan1.
Hypothesis endpoints1 : endpoints_present plan1.
Hypothesis unique1 : NoDup (node_ids plan1).
Hypothesis same_nodes : Permutation (nodes plan1) (nodes plan2).
Hypothesis same_edges : Permutation (edges plan1) (edges plan2).

Lemma same_node_ids id : In id (node_ids plan1) <-> In id (node_ids plan2).
Proof.
  unfold node_ids.
  split; apply Permutation_in, Permutation_map; [|symmetry]; exact same_nodes.
Qed.

Lemma same_edge_rel s t : edge_rel plan2 s t -> edge_rel plan1 s t.
Proof.
  intros (e & He & Hs & Ht). exists e. split; [|auto].
  eapply Permutation_in; [symmetry; exact same_edges|exact He].
Qed.

Lemma acyclic2 : acyclic plan2.
Proof.
  assert (H : forall s t, clos_trans string (edge_rel plan2) s t ->
                          clos_trans string (edge_rel plan1) s t).
  { induction 1 as [s t H|s m t _ IH1 _ IH2].
    - apply t_step. now apply same_edge_rel.
    - eapply t_trans; eauto. }
  intros n Hn. apply (acyclic1 (n := n)). now apply H.
Qed.

Lemma endpoints2 : endpoints_present plan2.
Proof.
  intros e He.
  assert (He' : In e (edges plan1))
    by (eapply Permutation_in; [symmetry; exact same_edges|exact He]).
  destruct (endpoints1 e He'). split; now apply same_node_ids.
Qed.

Lemma unique2 : NoDup (node_ids plan2).
Proof.
  eapply Permutation_NoDup; [|exact unique1].
  unfold node_ids. apply Permutation_map, same_nodes.
Qed.

Lemma same_rank n : rank plan1 n = rank plan2 n.
Proof.
  apply Nat.le_antisymm.
  - destruct (depth_walk plan1 (length (edges plan1)) n)
      as (m & w & Hw & Hlen).
    fold (rank plan1 n) in Hlen. rewrite <- Hlen.
    assert (Hw2 : walk (edges plan2) m n w).
    { eapply walk_incl_edges; [|exact Hw].
      intros e. apply Permutation_in, same_edges. }
    unfold rank. apply (@walk_depth plan2 m _ w Hw2).
    eapply acyclic_walk_length; [exact acyclic2|exact Hw2].
  - destruct (depth_walk plan2 (length (edges plan2)) n)
      as (m & w & Hw & Hlen).
    fold (rank plan2 n) in Hlen. rewrite <- Hlen.
    assert (Hw1 : walk (edges plan1) m n w).
    { eapply walk_incl_edges; [|exact Hw].
      intros e. apply Permutation_in. symmetry. exact same_edges. }
    unfold rank. apply (@walk_depth plan1 m _ w Hw1).
    eapply acyclic_walk_length; [exact acyclic1|exact Hw1].
Qed.

Lemma same_levels fuel1 fuel2 levels1 levels2 :
  _assign_layers fuel1 plan1 = Return levels1 ->
  _assign_layers fuel2 plan2 = Return levels2 ->
  forall id, dict_get levels1 id = dict_get levels2 id.
Proof.
  intros H1 H2 id.
  destruct (in_dec string_dec id (node_ids plan1)) as [Hin|Hnin].
  - rewrite (@acyclic_levels_rank plan1 acyclic1 endpoints1 fuel1 _ _ H1 Hin).
    rewrite (@acyclic_levels_rank plan2 acyclic2 endpoints2 fuel2 _ _ H2);
      [now rewrite same_rank|now apply same_node_ids].
  - destruct (@assign_layers_spec plan1 fuel1 _ H1) as (_ & _ & Hu1 & _).
    destruct (@assign_layers_spec plan2 fuel2 _ H2) as (_ & _ & Hu2 & _).
    assert (E1 : dict_get levels1 id = None).
    { apply dict_get_None. intros Hk. apply Hnin.
      now apply (@universe_node_ids plan1 endpoints1), Hu1. }
    assert (E2 : dict_get levels2 id = None).
    { apply dict_get_None. intros Hk. apply Hnin, same_node_ids.
      now apply (@universe_node_ids plan2 endpoints2), Hu2. }
    now rewrite E1, E2.
Qed.

Lemma same_node_map id :
  dict_get (node_map plan1) id = dict_get (node_map plan2) id.
Proof.
  destruct (dict_get (node_map plan1) id) as [node|] eqn:E.
  - destruct (node_map_get _ _ E) as [<- Hin].
    symmetry. apply (@node_map_lookup plan2 unique2).
    eapply Permutation_in; [exact same_nodes|exact Hin].
  - symmetry. apply dict_get_None. rewrite node_map_keys.
    rewrite <- same_node_ids, <- node_map_keys. now apply dict_get_None.
Qed.

Lemma same_nodes_placed fuel1 fuel2 canvas_size res1 res2 :
  compute_layout fuel1 plan1 canvas_size = Return res1 ->
  compute_layout fuel2 plan2 canvas_size = Return res2 ->
  r_nodes res1 = r_nodes res2.
Proof.
  intros Hc1 Hc2.
  assert (Hh : height res1 = height res2).
  { destruct (@compute_layout_Return plan1 fuel1 canvas_size res1 Hc1)
      as (? & _ & _ & -> & _).
    destruct (@compute_layout_Return plan2 fuel2 canvas_size res2 Hc2)
      as (? & _ & _ & -> & _).
    reflexivity. }
  destruct (layout_view _ _ _ Hc1)
    as (levels1 & Ha1 & Hnd1 & Hpl1 & Hex1 & Hperm1 & Hs1).
  destruct (layout_view _ _ _ Hc2)
    as (levels2 & Ha2 & Hnd2 & Hpl2 & Hex2 & Hperm2 & Hs2).
  pose proof (@same_levels fuel1 fuel2 levels1 levels2 Ha1 Ha2) as Hext.
  assert (Htransfer : forall id pn,
            placed plan1 levels1 (height res1) id pn <->
            placed plan2 levels2 (height res2) id pn).
  { pose proof (@layer_size_ext levels1 levels2 Hnd1 Hnd2 Hext) as Esize.
    pose proof (@row_rank_ext levels1 levels2 Hnd1 Hnd2 Hext) as Erow.
    pose proof (@column_index_ext levels1 levels2 Hnd1 Hnd2 Hext) as Ecol.
    intros id pn. unfold placed. rewrite Hh.
    split; intros (lv & node & Hl & Hn & Hpn); exists lv, node.
    - rewrite <- Hext, <- same_node_map, <- Esize, <- Erow, <- Ecol. auto.
    - rewrite Hext, same_node_map, Esize, Erow, Ecol. auto. }
  assert (Hfun : forall id pn pn',
            placed plan2 levels2 (height res2) id pn ->
            placed plan2 levels2 (height res2) id pn' -> pn = pn').
  { intros id pn pn' (lv & node & Hl & Hn & ->) (lv' & node' & Hl' & Hn' & ->).
    congruence. }
  assert (Hkeys : forall id, In id (dict_keys levels1) <->
                             In id (dict_keys levels2)).
  { intros id. split; intros Hk; apply dict_key_get in Hk;
      destruct Hk as (l & Hl); eapply dict_get_Some_key;
      [rewrite <- Hext|rewrite Hext]; exact Hl. }
  apply (@sorted_Permutation_eq _ (output_lt levels1) (output_lt levels2)).
  - intros p q. now apply (@output_lt_ext levels1 levels2 Hnd1 Hnd2 Hext).
  - exact Hs1.
  - exact Hs2.
  - apply NoDup_Permutation.
    + apply (NoDup_map_inv p_identifier).
      eapply Permutation_NoDup; [symmetry; exact Hperm1|exact Hnd1].
    + apply (NoDup_map_inv p_identifier).
      eapply Permutation_NoDup; [symmetry; exact Hperm2|exact Hnd2].
    + intros pn. split; intros Hin.
      * pose proof (Hpl1 pn Hin) as Hp. apply Htransfer in Hp.
        destruct (Hex2 (p_identifier pn)) as (pn' & Hin' & Hid').
        { apply Hkeys. eapply Permutation_in; [exact Hperm1|].
          now apply in_map. }
        pose proof (Hpl2 pn' Hin') as Hp'. rewrite Hid' in Hp'.
        now rewrite (Hfun _ _ _ Hp Hp').
      * pose proof (Hpl2 pn Hin) as Hp.
        destruct (Hex1 (p_identifier pn)) as (pn' & Hin' & Hid').
        { apply Hkeys. eapply Permutation_in; [exact Hperm2|].
          now apply in_map. }
        pose proof (Hpl1 pn' Hin') as Hp'. rewrite Hid' in Hp'.
        apply Htransfer in Hp'.
        now rewrite (Hfun _ _ _ Hp Hp').
Qed.
End DeclarationOrder.

(** X18. For an acyclic plan with pairwise distinct node identifiers whose
    edge endpoints all name nodes, the order in which the nodes and the
    edges are declared does not matter: a plan with the same nodes and the
    same edges in another order gets the same positioned nodes, in the same
    order. *)
Theorem X18_declaration_order_irrelevant :
  forall fuel1 fuel2 plan1 plan2 canvas_size res1 res2,
    acyclic plan1 -> endpoints_present plan1 -> NoDup (node_ids plan1) ->
    Permutation (nodes plan1) (nodes plan2) ->
    Permutation (edges plan1) (edges plan2) ->
    compute_layout fuel1 plan1 canvas_size = Return res1 ->
    compute_layout fuel2 plan2 canvas_size = Return res2 ->
    r_nodes res1 = r_nodes res2.
Proof.
  intros fuel1 fuel2 plan1 plan2 cs res1 res2 Hac Hend Hnd Hn He Hc1 Hc2.
  exact (@same_nodes_placed plan1 plan2 Hac Hend Hnd Hn He
           fuel1 fuel2 cs res1 res2 Hc1 Hc2).
Qed.

Lemma fan_plan_acyclic : acyclic fan_plan.
Proof.
  apply ranked_acyclic with (r := fan_rank).
  intros e [<-|[<-|[]]]; vm_compute; lia.
Qed.

Lemma X18_declaration_order_irrelevant_witness :
  r_nodes fan_result = r_nodes fan_result_reordered.
Proof.
  apply (@X18_declaration_order_irrelevant 3 3 fan_plan fan_plan_reordered None
           fan_result fan_result_reordered
           fan_plan_acyclic fan_plan_endpoints fan_plan_unique).
  - apply perm_trans with (l' := [mk_node "b"; mk_node "c"; mk_node "a"]%string);
      [apply perm_swap|].
    apply perm_trans with (l' := [mk_node "b"; mk_node "a"; mk_node "c"]%string);
      [apply perm_skip, perm_swap|].
    apply perm_trans with (l' := [mk_node "a"; mk_node "b"; mk_node "c"]%string);
      [apply perm_swap|apply perm_skip, perm_swap].
  - apply perm_swap.
  - reflexivity.
  - reflexivity.
Defined.

(** ** Edges are drawn between their own nodes *)

Lemma next_node_unique layout pn :
  NoDup (map p_identifier (r_nodes layout)) ->
  In pn (r_nodes layout) ->
  next_node layout (p_identifier pn) = Rendered pn.
Proof.
  unfold next_node. induction (r_nodes layout) as [|n ns IH]; intros Hnd Hin.
  - destruct Hin.
  - simpl in Hnd. inversion Hnd as [|? ? Hnin Hnd']; subst.
    cbn [find]. destruct Hin as [->|Hin].
    + now rewrite String.eqb_refl.
    + destruct (String.eqb (p_identifier n) (p_identifier pn)) eqn:E.
      * exfalso. apply String.eqb_eq in E. apply Hnin. rewrite E.
        now apply in_map.
      * now apply IH.
Qed.

(** X20. In rendering a layout that [compute_layout] returned, the line of
    an edge whose endpoints name nodes runs from the position of its source
    node to the position of its target node: since the layout holds each
    identifier once, the lookup by identifier finds these two nodes and no
    other. *)
Theorem X20_edge_between_own_nodes :
  forall fmt2 fuel plan canvas_size res e ps pt,
    compute_layout fuel plan canvas_size = Return res ->
    In ps (r_nodes res) -> In pt (r_nodes res) ->
    p_identifier ps = source e -> p_identifier pt = target e ->
    _edge_line fmt2 res e = Rendered (edge_between fmt2 ps pt e).
Proof.
  intros fmt2 fuel plan cs res e ps pt Hc Hps Hpt Hs Ht.
  destruct (layout_view _ _ _ Hc) as (levels & _ & Hnd & _ & _ & Hperm & _).
  assert (Hnd' : NoDup (map p_identifier (r_nodes res)))
    by (eapply Permutation_NoDup; [symmetry; exact Hperm|exact Hnd]).
  unfold _edge_line. rewrite <- Hs, <- Ht.
  now rewrite !next_node_unique.
Qed.

Lemma X20_edge_between_own_nodes_witness :
  _edge_line sample_fmt2 fan_result (mk_edge "a" "c")
  = Rendered
      (edge_between sample_fmt2
         {| p_identifier := "a"; p_label := "a"; p_node_type := "process";
            p_metadata := []; x := 60; y := 460 # 2 |}
         {| p_identifier := "c"; p_label := "c"; p_node_type := "process";
            p_metadata := []; x := 260; y := 740 # 2 |}
         (mk_edge "a" "c")).
Proof.
  apply (@X20_edge_between_own_nodes sample_fmt2 3 fan_plan None).
  - reflexivity.
  - simpl. auto.
  - simpl. auto.
  - reflexivity.
  - reflexivity.
Defined.

(** ** What the loop reaches *)

Section Reached.
Variable plan : FigurePlan.

Lemma initial_seeded levels0 queue0 id :
  initial_state plan = Return (levels0, queue0) ->
  In id (dict_keys levels0) -> seeded plan id.
Proof.
  unfold initial_state, fallback_seed.
  destruct (seed_sources (incoming plan) (nodes plan)) as [l0 q0] eqn:Es.
  apply seed_sources_spec in Es. destruct Es as (Hk & Hq & _).
  assert (Hsrc : forall n, is_source (incoming plan) (nodes plan) n ->
                           In n (node_ids plan) /\
                           forall e, In e (edges plan) -> target e <> n).
  { intros n [Hn Hm]. split; [exact Hn|]. intros e He Ht.
    assert (Hm' : dict_mem (incoming plan) n = true)
      by (apply incoming_mem; eauto).
    congruence. }
  destruct q0 as [|q q0].
  - destruct (nodes plan) as [|first rest] eqn:En; [discriminate|].
    intros [= <- <-] Hin. apply dict_keys_set_In in Hin.
    destruct Hin as [->|Hin]; [|apply Hk, Hq in Hin; destruct Hin].
    right. split; [|eauto].
    intros n Hn.
    destruct (dict_mem (incoming plan) n) eqn:Em.
    + now apply incoming_mem.
    + exfalso. apply (proj2 (Hq n)). split; [|exact Em].
      unfold node_ids in Hn. now rewrite En in Hn.
  - intros [= <- <-] Hin. left. now apply Hsrc, Hk.
Qed.

Lemma visit_reachable levels current rest levels' queue' :
  (forall id, In id (dict_keys levels) -> reachable plan id) ->
  visit (outgoing plan) levels current rest = Return (levels', queue') ->
  forall id, In id (dict_keys levels') -> reachable plan id.
Proof.
  intros Hr Hv. apply visit_Return in Hv. destruct Hv as (cl & Hcl & Hf).
  assert (Hcur : reachable plan current)
    by (apply Hr; eapply dict_get_Some_key; eauto).
  set (P := fun (lv : dict string Z) (q : list string) =>
              forall id, In id (dict_keys lv) -> reachable plan id).
  assert (HP : P levels' queue').
  { assert (Hind := @fold_relax_ind cl P (successors plan current)).
    specialize (fun H H0 => Hind H levels rest H0). rewrite Hf in Hind.
    apply Hind; [|exact Hr].
    intros lv q n Hn Hlv _ id Hid. apply dict_keys_set_In in Hid.
    destruct Hid as [->|Hid]; [|now apply Hlv].
    destruct Hcur as (s & Hs & Hsc). exists s. split; [exact Hs|].
    eapply rt_trans; [exact Hsc|]. apply rt_step. now apply successors_edge. }
  exact HP.
Qed.

Lemma loop_exit_reachable fuel levels0 queue0 reached :
  initial_state plan = Return (levels0, queue0) ->
  relax_loop fuel (outgoing plan) levels0 queue0 = Return reached ->
  forall id, In id (dict_keys reached) -> reachable plan id.
Proof.
  intros E0 E1.
  apply (@relax_loop_invariant (outgoing plan)
           (fun l _ => forall id, In id (dict_keys l) -> reachable plan id))
    with (fuel := fuel) (levels := levels0) (queue := queue0); auto.
  - intros levels current rest levels' queue' Hs Hv.
    eapply visit_reachable; eauto.
  - intros id Hid. exists id. split; [|apply rt_refl].
    eapply initial_seeded; eauto.
Qed.
End Reached.

(** X21. In the layers that [_assign_layers] returns, an identifier with a
    layer above 0 can be reached along edges from an identifier the queue
    starts with.  So the nodes that none of these leads to, like the nodes
    of a cycle off to the side of the graph, are all given layer 0. *)
Theorem X21_unreached_layer_zero :
  forall fuel plan levels id l,
    _assign_layers fuel plan = Return levels ->
    dict_get levels id = Some l ->
    ((0 < l)%Z -> reachable plan id) /\
    (~ reachable plan id -> l = 0%Z).
Proof.
  intros fuel plan levels id l Ha Hl.
  assert (Hpos : (0 < l)%Z -> reachable plan id).
  { intros Hlt. apply assign_layers_Return in Ha.
    destruct Ha as (levels0 & queue0 & reached & E0 & E1 & ->).
    apply default_levels_get in Hl. destruct Hl as [Hl|(_ & _ & ->)]; [|lia].
    apply (@loop_exit_reachable plan fuel _ _ _ E0 E1).
    eapply dict_get_Some_key; eauto. }
  split; [exact Hpos|]. intros Hn.
  destruct (@assign_layers_spec plan fuel _ Ha) as (_ & _ & _ & Hnn).
  pose proof (Hnn _ _ Hl).
  destruct (Z.eq_dec l 0) as [->|Hne]; [reflexivity|].
  exfalso. apply Hn, Hpos. lia.
Qed.

Lemma X21_unreached_layer_zero_witness :
  ((0 < 0)%Z -> reachable side_cycle_plan "a") /\
  (~ reachable side_cycle_plan "a" -> 0%Z = 0%Z).
Proof.
  exact (@X21_unreached_layer_zero 3 side_cycle_plan side_cycle_levels
           "a"%string 0%Z eq_refl eq_refl).
Defined.

(** ** Plans that are laid out *)

(** X22. [compute_layout] returns a layout for every acyclic plan with at
    least one node in which the target of every edge names a node; sources
    may be unknown.  The loop of [_assign_layers] then ends within
    [2 * (n + e) * (e + 1) + n] iterations, for [n] nodes and [e] edges. *)
Theorem X22_layout_returns :
  forall fuel plan canvas_size,
    acyclic plan -> nodes plan <> [] ->
    (forall e, In e (edges plan) -> In (target e) (node_ids plan)) ->
    2 * ((length (nodes plan) + length (edges plan)) * S (length (edges plan)))
      + length (nodes plan) <= fuel ->
    exists res, compute_layout fuel plan canvas_size = Return res.
Proof.
  intros fuel plan cs Hac Hne Htgt Hfuel.
  assert (Hf : fuel_bound plan <= fuel).
  { unfold fuel_bound, universe, node_ids.
    rewrite length_app, !length_map. exact Hfuel. }
  destruct (@initial_state_nonempty plan Hne) as ([levels0 queue0] & E0).
  destruct (@acyclic_loop_returns plan Hac fuel _ _ E0 Hf) as (reached & E1).
  assert (Ha : _assign_layers fuel plan
               = Return (default_levels (nodes plan) reached)).
  { rewrite assign_layers_eq, E0. simpl. now rewrite E1. }
  apply (@compute_layout_total plan fuel cs _ Ha).
  intros id Hid.
  destruct (@assign_layers_spec plan fuel _ Ha) as (_ & _ & Hu & _).
  apply Hu in Hid. apply in_app_or in Hid. destruct Hid as [Hid|Hid]; [exact Hid|].
  apply in_map_iff in Hid. destruct Hid as (e & <- & He). now apply Htgt.
Qed.

Lemma X22_layout_returns_witness :
  exists res, compute_layout 9 dangling_source_plan None = Return res.
Proof.
  apply (@X22_layout_returns 9 dangling_source_plan None).
  - apply ranked_acyclic with (r := fun id => if String.eqb id "a" then 1 else 0).
    intros e [<-|[]]. vm_compute. lia.
  - discriminate.
  - intros e [<-|[]]. simpl. auto.
  - vm_compute. lia.
Defined.

(** X23. [compute_layout] writes to no object that it was given.  After a
    run that returns, the store is the one before the run with new objects
    behind it; the [LayoutResult] returned and its list [nodes] are among
    the new ones, while its [edges] is the list object of [plan.edges]
    itself, so that the plan and the result share it (line 52). *)
Theorem X23_layout_leaves_inputs :
  forall fuel cs s plan P r s1,
    Machine.read_plan s plan = Some P ->
    Machine.compute_layout fuel plan cs s = Machine.Returned r s1 ->
    exists new w h ns es pn t d,
      s1 = s ++ new /\
      nth_error s1 r = Some (Machine.LayoutResult_object w h ns es) /\
      length s <= r /\
      length s <= ns /\
      nth_error s plan = Some (Machine.FigurePlan_object pn es t d) /\
      nth_error s1 plan = Some (Machine.FigurePlan_object pn es t d) /\
      Machine.read_plan s1 plan = Some P.
Proof.
  intros fuel cs s plan P r s1 HP Hrun.
  destruct (@compute_layout_returned s plan P fuel cs r s1 HP Hrun)
    as (R & new & es & _ & Hs1 & Hle & Hres & (pn & t & d & Hplan) & _).
  exists new, (Binary64.width R), (Binary64.height R), (5 + length s), es,
    pn, t, d.
  subst s1.
  split; [reflexivity|]. split; [exact Hres|]. split; [exact Hle|].
  split; [lia|]. split; [exact Hplan|].
  split; [now apply nth_error_old|now apply read_plan_old].
Qed.

Lemma X23_layout_leaves_inputs_witness :
  exists new w h ns es pn t d,
    Machine.fan_store_once = Machine.fan_store ++ new /\
    nth_error Machine.fan_store_once 24
    = Some (Machine.LayoutResult_object w h ns es) /\
    length Machine.fan_store <= 24 /\
    length Machine.fan_store <= ns /\
    nth_error Machine.fan_store 0 = Some (Machine.FigurePlan_object pn es t d) /\
    nth_error Machine.fan_store_once 0
    = Some (Machine.FigurePlan_object pn es t d) /\
    Machine.read_plan Machine.fan_store_once 0 = Some fan_plan.
Proof.
  exact (@X23_layout_leaves_inputs 3 None Machine.fan_store 0 fan_plan
           24 Machine.fan_store_once eq_refl eq_refl).
Defined.
